(** * CanvasManager: stroke model, hit test, merge-by-id and input handling

    A shallow embedding of [CanvasManager] and of the free functions that
    follow it ([pushPoint], [erase], [isCloser], [removePaths], [addPaths],
    [removePathsByIds], [addToSet]).

    Modelling conventions.
    - Coordinates are JavaScript numbers in the source.  They are modelled
      by [Z]: the development covers integral pixel coordinates, on which
      the double arithmetic used by the source ([-], [+], [** 2], [<=],
      [===]) is exact.  Where rounding decides the answer, the function is
      given on binary64 numbers as well ([Binary64]), and the sizes that
      [handleResize] computes are kept over an arbitrary type of numbers.
    - A JavaScript [Set<string>] iterates in insertion order; it is
      modelled by a duplicate-free list in insertion order ([JsSet]).
    - The stroke array [this.paths] is compared by reference in the source
      ([newPaths !== paths]).  An array of paths therefore carries the
      reference it was allocated at, and every array-producing primitive
      ([filter], [concat]) allocates a fresh one. *)

From Stdlib Require Import Uint63 PrimFloat SpecFloat FloatOps QArith Qreals.
From Stdlib Require Import ZArith String List Bool Lia Lra Reals.
From Stdlib Require Import DecimalString.
Import ListNotations.

Open Scope Z_scope.

(** ** Data model *)

Record Point := { x : Z; y : Z }.

Record Path := {
  id : string;
  color : string;
  width : Z;
  points : list Point
}.

Inductive Tool := pen | hand | eraser.

(** ** JavaScript [Set<string>] *)

Module JsSet.

Definition t := list string.

Definition empty : t := [].

Definition has (s : t) (v : string) : bool := existsb (String.eqb v) s.

Definition add (s : t) (v : string) : t :=
  if has s v then s else s ++ [v].

(** [new Set(iterable)] *)
Definition from (l : list string) : t := fold_left add l empty.

(** [Array.from(set)] *)
Definition toArray (s : t) : list string := s.

End JsSet.

(** [addToSet(set, items)]: [for (const item of items) set.add(item)] *)
Definition addToSet (set : JsSet.t) (l : list string) : JsSet.t :=
  fold_left JsSet.add l set.

(** ** Arrays of paths with reference identity *)

Record PathArray := { ref : nat; items : list Path }.

(** Computations that may allocate arrays thread the next free reference. *)
Definition Alloc (A : Type) : Type := nat -> A * nat.

Definition ret {A} (a : A) : Alloc A := fun h => (a, h).

Definition bind {A B} (c : Alloc A) (k : A -> Alloc B) : Alloc B :=
  fun h => let (a, h') := c h in k a h'.

Notation "v <- c ;; k" := (bind c (fun v => k))
  (at level 61, c at next level, right associativity).

Definition new_array (l : list Path) : Alloc PathArray :=
  fun h => ({| ref := h; items := l |}, S h).

(** [a.filter(f)] *)
Definition array_filter (f : Path -> bool) (a : PathArray) : Alloc PathArray :=
  new_array (filter f (items a)).

(** [a.concat(l)] *)
Definition array_concat (a : PathArray) (l : list Path) : Alloc PathArray :=
  new_array (items a ++ l).

(** [a !== b] on arrays *)
Definition same_ref (a b : PathArray) : bool := Nat.eqb (ref a) (ref b).

(** [l.filter(cb)] where the callback reads and updates captured state:
    the elements are visited in order and each call sees the state left by
    the previous one. *)
Fixpoint filter_with {S : Type} (cb : Path -> S -> bool * S)
    (l : list Path) (s : S) : list Path * S :=
  match l with
  | [] => ([], s)
  | p :: l' =>
      let (keep, s') := cb p s in
      let (r, s'') := filter_with cb l' s' in
      (if keep then p :: r else r, s'')
  end.

(** ** Geometry and path functions *)

(** [pushPoint(points, point)]; the result is the content of the array
    after the call ([None] for a [null] array). *)
Definition pushPoint (pts : option (list Point)) (point : Point)
    : option (list Point) :=
  match pts with
  | None => None
  | Some l =>
      match rev l with
      | last :: _ =>
          if (x last =? x point) && (y last =? y point)
          then Some l
          else Some (l ++ [point])
      | [] => Some (l ++ [point])
      end
  end.

Definition isCloser (p1 p2 : Point) (r : Z) : bool :=
  let d := (x p1 - x p2) ^ 2 + (y p1 - y p2) ^ 2 in
  d <=? r ^ 2.

(** The eraser radius, the literal [3] passed by [erase]. *)
Definition eraseRadius : Z := 3.

Definition erase (paths : list Path) (p1 : Point) : list string :=
  fold_left
    (fun pathIdsToRemove path =>
       if existsb (fun p2 => isCloser p1 p2 eraseRadius) (points path)
       then pathIdsToRemove ++ [id path]
       else pathIdsToRemove)
    paths [].

Definition removePaths (paths : PathArray) (pathIdsToRemove : JsSet.t)
    : Alloc PathArray :=
  newPaths <- array_filter
                (fun path => negb (JsSet.has pathIdsToRemove (id path))) paths ;;
  if (length (items newPaths) =? length (items paths))%nat
  then ret paths
  else ret newPaths.

(** The callback of the [filter] in [addPaths], over the captured [idSet]. *)
Definition notSeenYet (p : Path) (idSet : JsSet.t) : bool * JsSet.t :=
  if JsSet.has idSet (id p) then (false, idSet)
  else (true, JsSet.add idSet (id p)).

Definition addPaths (paths : PathArray) (pathsToAdd : list Path)
    : Alloc PathArray :=
  let idSet := JsSet.from (map id (items paths)) in
  pathsToReallyAdd <- new_array (fst (filter_with notSeenYet pathsToAdd idSet)) ;;
  if (length (items pathsToReallyAdd) =? 0)%nat
  then ret paths
  else array_concat paths (items pathsToReallyAdd).

Definition removePathsByIds (paths : PathArray) (pathIdsToRemove : list string)
    : Alloc PathArray :=
  let pathIdsSetToRemove := JsSet.from pathIdsToRemove in
  newPaths <- array_filter
                (fun p => negb (JsSet.has pathIdsSetToRemove (id p))) paths ;;
  if (length (items newPaths) =? length (items paths))%nat
  then ret paths
  else ret newPaths.

(** ** The hit test on binary64 numbers

    [isCloser] and [erase] once more, on the numbers of the source: a
    coordinate is an IEEE 754 binary64 number, [-], [+] and [<=] are the
    operations of that format, and [v ** 2] is the product [v * v] rounded
    to the nearest number of the format. *)

Module Binary64.

Record Point := { x : float; y : float }.

Record Path := {
  id : string;
  color : string;
  width : float;
  points : list Point
}.

(** [v ** 2] *)
Definition square (v : float) : float := PrimFloat.mul v v.

Definition isCloser (p1 p2 : Point) (r : float) : bool :=
  let d := PrimFloat.add (square (PrimFloat.sub (x p1) (x p2)))
                         (square (PrimFloat.sub (y p1) (y p2))) in
  PrimFloat.leb d (square r).

Definition erase (paths : list Path) (p1 : Point) : list string :=
  fold_left
    (fun pathIdsToRemove path =>
       if existsb (fun p2 => isCloser p1 p2 3%float) (points path)
       then pathIdsToRemove ++ [id path]
       else pathIdsToRemove)
    paths [].

End Binary64.

(** ** Events and environment *)

Record MouseEvent := { clientX : Z; clientY : Z }.

Record WheelEvent := { deltaX : Z; deltaY : Z }.

Module Touch.
Record t := { clientX : Z; clientY : Z; touchType : string }.
End Touch.

Record TouchEvent := { changedTouches : list Touch.t }.

(** A canvas element: its identity, the left and top of its bounding
    rectangle, and whether [getContext('2d')] yields a context. *)
Record CanvasElement := {
  elementRef : nat;
  rectLeft : Z;
  rectTop : Z;
  context2d : bool
}.

(** The two closures handed to [requestAnimationFrame], by the method that
    creates them. *)
Inductive FrameCallback := DrawCallback | ScrollCallback.

(** A call of [pictureService.addAndRemovePaths(pictureId, added, removed)];
    [None] is [null]. *)
Record ServiceCall := {
  callPictureId : string;
  added : option (list Path);
  removed : option (list string)
}.

(** What one run of [draw] strokes on the canvas: the committed paths it
    draws, in order, the in-progress path, and the scroll offset used. *)
Record Frame := {
  drawnPaths : list Path;
  drawnDrawingPath : option Path;
  drawnScrollLeft : Z;
  drawnScrollTop : Z
}.

(** Modelled from the spec: [generateId] ([./utils/generateId]) is not part
    of the sources at hand.  The spec asks for a fresh unique id per stroke;
    the model returns the decimal rendering of a counter. *)
Definition generateIdFrom (n : nat) : string :=
  NilEmpty.string_of_uint (Nat.to_uint n).

(** ** The class [CanvasManager] *)

Module CanvasManager.

(** The fields of the object, followed by the parts of the environment its
    methods act on: the next free array reference, the state of
    [generateId], the callbacks queued by [requestAnimationFrame], the calls
    made on the picture service and the frames drawn on the canvas.
    [renderingContext] tells whether the context is non-null.  The fields
    [dpr], [width], [height] and [tickingResize], the debounced
    [handleWindowResize] and the registration of the listeners play no part
    in what follows and are left out. *)
Record t := {
  pictureId : string;
  canvasElement : option CanvasElement;
  renderingContext : bool;
  offsetLeft : Z;
  offsetTop : Z;
  tool : Tool;
  palmRejection : bool;
  paths : PathArray;
  drawingPath : option Path;
  erasingPathIds : option JsSet.t;
  scrollLeft : Z;
  scrollTop : Z;
  bufferedScrollLeft : Z;
  bufferedScrollTop : Z;
  tickingDraw : bool;
  tickingScroll : bool;
  prevX : Z;
  prevY : Z;
  handScrollingByMouse : bool;
  heap : nat;
  idCounter : nat;
  animationFrames : list FrameCallback;
  serviceCalls : list ServiceCall;
  canvas : list Frame
}.

Definition set_canvasElement (v : option CanvasElement) (w : t) : t :=
  Build_t (pictureId w) v (renderingContext w) (offsetLeft w) (offsetTop w)
    (tool w) (palmRejection w) (paths w) (drawingPath w) (erasingPathIds w)
    (scrollLeft w) (scrollTop w) (bufferedScrollLeft w) (bufferedScrollTop w)
    (tickingDraw w) (tickingScroll w) (prevX w) (prevY w)
    (handScrollingByMouse w) (heap w) (idCounter w) (animationFrames w)
    (serviceCalls w) (canvas w).

Definition set_renderingContext (v : bool) (w : t) : t :=
  Build_t (pictureId w) (canvasElement w) v (offsetLeft w) (offsetTop w)
    (tool w) (palmRejection w) (paths w) (drawingPath w) (erasingPathIds w)
    (scrollLeft w) (scrollTop w) (bufferedScrollLeft w) (bufferedScrollTop w)
    (tickingDraw w) (tickingScroll w) (prevX w) (prevY w)
    (handScrollingByMouse w) (heap w) (idCounter w) (animationFrames w)
    (serviceCalls w) (canvas w).

Definition set_offsetLeft (v : Z) (w : t) : t :=
  Build_t (pictureId w) (canvasElement w) (renderingContext w) v (offsetTop w)
    (tool w) (palmRejection w) (paths w) (drawingPath w) (erasingPathIds w)
    (scrollLeft w) (scrollTop w) (bufferedScrollLeft w) (bufferedScrollTop w)
    (tickingDraw w) (tickingScroll w) (prevX w) (prevY w)
    (handScrollingByMouse w) (heap w) (idCounter w) (animationFrames w)
    (serviceCalls w) (canvas w).

Definition set_offsetTop (v : Z) (w : t) : t :=
  Build_t (pictureId w) (canvasElement w) (renderingContext w) (offsetLeft w)
    v (tool w) (palmRejection w) (paths w) (drawingPath w) (erasingPathIds w)
    (scrollLeft w) (scrollTop w) (bufferedScrollLeft w) (bufferedScrollTop w)
    (tickingDraw w) (tickingScroll w) (prevX w) (prevY w)
    (handScrollingByMouse w) (heap w) (idCounter w) (animationFrames w)
    (serviceCalls w) (canvas w).

Definition set_tool (v : Tool) (w : t) : t :=
  Build_t (pictureId w) (canvasElement w) (renderingContext w) (offsetLeft w)
    (offsetTop w) v (palmRejection w) (paths w) (drawingPath w)
    (erasingPathIds w) (scrollLeft w) (scrollTop w) (bufferedScrollLeft w)
    (bufferedScrollTop w) (tickingDraw w) (tickingScroll w) (prevX w)
    (prevY w) (handScrollingByMouse w) (heap w) (idCounter w)
    (animationFrames w) (serviceCalls w) (canvas w).

Definition set_palmRejection (v : bool) (w : t) : t :=
  Build_t (pictureId w) (canvasElement w) (renderingContext w) (offsetLeft w)
    (offsetTop w) (tool w) v (paths w) (drawingPath w) (erasingPathIds w)
    (scrollLeft w) (scrollTop w) (bufferedScrollLeft w) (bufferedScrollTop w)
    (tickingDraw w) (tickingScroll w) (prevX w) (prevY w)
    (handScrollingByMouse w) (heap w) (idCounter w) (animationFrames w)
    (serviceCalls w) (canvas w).

Definition set_paths (v : PathArray) (w : t) : t :=
  Build_t (pictureId w) (canvasElement w) (renderingContext w) (offsetLeft w)
    (offsetTop w) (tool w) (palmRejection w) v (drawingPath w)
    (erasingPathIds w) (scrollLeft w) (scrollTop w) (bufferedScrollLeft w)
    (bufferedScrollTop w) (tickingDraw w) (tickingScroll w) (prevX w)
    (prevY w) (handScrollingByMouse w) (heap w) (idCounter w)
    (animationFrames w) (serviceCalls w) (canvas w).

Definition set_drawingPath (v : option Path) (w : t) : t :=
  Build_t (pictureId w) (canvasElement w) (renderingContext w) (offsetLeft w)
    (offsetTop w) (tool w) (palmRejection w) (paths w) v (erasingPathIds w)
    (scrollLeft w) (scrollTop w) (bufferedScrollLeft w) (bufferedScrollTop w)
    (tickingDraw w) (tickingScroll w) (prevX w) (prevY w)
    (handScrollingByMouse w) (heap w) (idCounter w) (animationFrames w)
    (serviceCalls w) (canvas w).

Definition set_erasingPathIds (v : option JsSet.t) (w : t) : t :=
  Build_t (pictureId w) (canvasElement w) (renderingContext w) (offsetLeft w)
    (offsetTop w) (tool w) (palmRejection w) (paths w) (drawingPath w) v
    (scrollLeft w) (scrollTop w) (bufferedScrollLeft w) (bufferedScrollTop w)
    (tickingDraw w) (tickingScroll w) (prevX w) (prevY w)
    (handScrollingByMouse w) (heap w) (idCounter w) (animationFrames w)
    (serviceCalls w) (canvas w).

Definition set_scrollLeft (v : Z) (w : t) : t :=
  Build_t (pictureId w) (canvasElement w) (renderingContext w) (offsetLeft w)
    (offsetTop w) (tool w) (palmRejection w) (paths w) (drawingPath w)
    (erasingPathIds w) v (scrollTop w) (bufferedScrollLeft w)
    (bufferedScrollTop w) (tickingDraw w) (tickingScroll w) (prevX w)
    (prevY w) (handScrollingByMouse w) (heap w) (idCounter w)
    (animationFrames w) (serviceCalls w) (canvas w).

Definition set_scrollTop (v : Z) (w : t) : t :=
  Build_t (pictureId w) (canvasElement w) (renderingContext w) (offsetLeft w)
    (offsetTop w) (tool w) (palmRejection w) (paths w) (drawingPath w)
    (erasingPathIds w) (scrollLeft w) v (bufferedScrollLeft w)
    (bufferedScrollTop w) (tickingDraw w) (tickingScroll w) (prevX w)
    (prevY w) (handScrollingByMouse w) (heap w) (idCounter w)
    (animationFrames w) (serviceCalls w) (canvas w).

Definition set_bufferedScrollLeft (v : Z) (w : t) : t :=
  Build_t (pictureId w) (canvasElement w) (renderingContext w) (offsetLeft w)
    (offsetTop w) (tool w) (palmRejection w) (paths w) (drawingPath w)
    (erasingPathIds w) (scrollLeft w) (scrollTop w) v (bufferedScrollTop w)
    (tickingDraw w) (tickingScroll w) (prevX w) (prevY w)
    (handScrollingByMouse w) (heap w) (idCounter w) (animationFrames w)
    (serviceCalls w) (canvas w).

Definition set_bufferedScrollTop (v : Z) (w : t) : t :=
  Build_t (pictureId w) (canvasElement w) (renderingContext w) (offsetLeft w)
    (offsetTop w) (tool w) (palmRejection w) (paths w) (drawingPath w)
    (erasingPathIds w) (scrollLeft w) (scrollTop w) (bufferedScrollLeft w) v
    (tickingDraw w) (tickingScroll w) (prevX w) (prevY w)
    (handScrollingByMouse w) (heap w) (idCounter w) (animationFrames w)
    (serviceCalls w) (canvas w).

Definition set_tickingDraw (v : bool) (w : t) : t :=
  Build_t (pictureId w) (canvasElement w) (renderingContext w) (offsetLeft w)
    (offsetTop w) (tool w) (palmRejection w) (paths w) (drawingPath w)
    (erasingPathIds w) (scrollLeft w) (scrollTop w) (bufferedScrollLeft w)
    (bufferedScrollTop w) v (tickingScroll w) (prevX w) (prevY w)
    (handScrollingByMouse w) (heap w) (idCounter w) (animationFrames w)
    (serviceCalls w) (canvas w).

Definition set_tickingScroll (v : bool) (w : t) : t :=
  Build_t (pictureId w) (canvasElement w) (renderingContext w) (offsetLeft w)
    (offsetTop w) (tool w) (palmRejection w) (paths w) (drawingPath w)
    (erasingPathIds w) (scrollLeft w) (scrollTop w) (bufferedScrollLeft w)
    (bufferedScrollTop w) (tickingDraw w) v (prevX w) (prevY w)
    (handScrollingByMouse w) (heap w) (idCounter w) (animationFrames w)
    (serviceCalls w) (canvas w).

Definition set_prevX (v : Z) (w : t) : t :=
  Build_t (pictureId w) (canvasElement w) (renderingContext w) (offsetLeft w)
    (offsetTop w) (tool w) (palmRejection w) (paths w) (drawingPath w)
    (erasingPathIds w) (scrollLeft w) (scrollTop w) (bufferedScrollLeft w)
    (bufferedScrollTop w) (tickingDraw w) (tickingScroll w) v (prevY w)
    (handScrollingByMouse w) (heap w) (idCounter w) (animationFrames w)
    (serviceCalls w) (canvas w).

Definition set_prevY (v : Z) (w : t) : t :=
  Build_t (pictureId w) (canvasElement w) (renderingContext w) (offsetLeft w)
    (offsetTop w) (tool w) (palmRejection w) (paths w) (drawingPath w)
    (erasingPathIds w) (scrollLeft w) (scrollTop w) (bufferedScrollLeft w)
    (bufferedScrollTop w) (tickingDraw w) (tickingScroll w) (prevX w) v
    (handScrollingByMouse w) (heap w) (idCounter w) (animationFrames w)
    (serviceCalls w) (canvas w).

Definition set_handScrollingByMouse (v : bool) (w : t) : t :=
  Build_t (pictureId w) (canvasElement w) (renderingContext w) (offsetLeft w)
    (offsetTop w) (tool w) (palmRejection w) (paths w) (drawingPath w)
    (erasingPathIds w) (scrollLeft w) (scrollTop w) (bufferedScrollLeft w)
    (bufferedScrollTop w) (tickingDraw w) (tickingScroll w) (prevX w)
    (prevY w) v (heap w) (idCounter w) (animationFrames w) (serviceCalls w)
    (canvas w).

Definition set_heap (v : nat) (w : t) : t :=
  Build_t (pictureId w) (canvasElement w) (renderingContext w) (offsetLeft w)
    (offsetTop w) (tool w) (palmRejection w) (paths w) (drawingPath w)
    (erasingPathIds w) (scrollLeft w) (scrollTop w) (bufferedScrollLeft w)
    (bufferedScrollTop w) (tickingDraw w) (tickingScroll w) (prevX w)
    (prevY w) (handScrollingByMouse w) v (idCounter w) (animationFrames w)
    (serviceCalls w) (canvas w).

Definition set_idCounter (v : nat) (w : t) : t :=
  Build_t (pictureId w) (canvasElement w) (renderingContext w) (offsetLeft w)
    (offsetTop w) (tool w) (palmRejection w) (paths w) (drawingPath w)
    (erasingPathIds w) (scrollLeft w) (scrollTop w) (bufferedScrollLeft w)
    (bufferedScrollTop w) (tickingDraw w) (tickingScroll w) (prevX w)
    (prevY w) (handScrollingByMouse w) (heap w) v (animationFrames w)
    (serviceCalls w) (canvas w).

Definition set_animationFrames (v : list FrameCallback) (w : t) : t :=
  Build_t (pictureId w) (canvasElement w) (renderingContext w) (offsetLeft w)
    (offsetTop w) (tool w) (palmRejection w) (paths w) (drawingPath w)
    (erasingPathIds w) (scrollLeft w) (scrollTop w) (bufferedScrollLeft w)
    (bufferedScrollTop w) (tickingDraw w) (tickingScroll w) (prevX w)
    (prevY w) (handScrollingByMouse w) (heap w) (idCounter w) v
    (serviceCalls w) (canvas w).

Definition set_serviceCalls (v : list ServiceCall) (w : t) : t :=
  Build_t (pictureId w) (canvasElement w) (renderingContext w) (offsetLeft w)
    (offsetTop w) (tool w) (palmRejection w) (paths w) (drawingPath w)
    (erasingPathIds w) (scrollLeft w) (scrollTop w) (bufferedScrollLeft w)
    (bufferedScrollTop w) (tickingDraw w) (tickingScroll w) (prevX w)
    (prevY w) (handScrollingByMouse w) (heap w) (idCounter w)
    (animationFrames w) v (canvas w).

Definition set_canvas (v : list Frame) (w : t) : t :=
  Build_t (pictureId w) (canvasElement w) (renderingContext w) (offsetLeft w)
    (offsetTop w) (tool w) (palmRejection w) (paths w) (drawingPath w)
    (erasingPathIds w) (scrollLeft w) (scrollTop w) (bufferedScrollLeft w)
    (bufferedScrollTop w) (tickingDraw w) (tickingScroll w) (prevX w)
    (prevY w) (handScrollingByMouse w) (heap w) (idCounter w)
    (animationFrames w) (serviceCalls w) v.

(** The field initialisers and the constructor; the empty array of
    [paths] takes reference [0]. *)
Definition new (pictureId : string) : t :=
  Build_t pictureId None false 0 0 pen false {| ref := 0; items := [] |} None None
    0 0 0 0 false false 0 0 false 1%nat 0%nat [] [] [].

(** Run an allocating computation on the heap of the state. *)
Definition alloc {A} (c : Alloc A) (w : t) : A * t :=
  let (a, h) := c (heap w) in (a, set_heap h w).

Definition generateId (w : t) : string * t :=
  (generateIdFrom (idCounter w), set_idCounter (S (idCounter w)) w).

Definition requestAnimationFrame (cb : FrameCallback) (w : t) : t :=
  set_animationFrames (animationFrames w ++ [cb]) w.

Definition addAndRemovePaths (a : option (list Path))
    (r : option (list string)) (w : t) : t :=
  set_serviceCalls
    (serviceCalls w ++
       [{| callPictureId := pictureId w; added := a; removed := r |}]) w.

Definition setTool (v : Tool) (w : t) : t := set_tool v w.

Definition setPalmRejection (v : bool) (w : t) : t := set_palmRejection v w.

Definition draw (w : t) : t :=
  if negb (renderingContext w) then w
  else
    let visible :=
      match erasingPathIds w with
      | None => items (paths w)
      | Some ids => filter (fun path => negb (JsSet.has ids (id path)))
                      (items (paths w))
      end in
    set_canvas
      (canvas w ++
         [{| drawnPaths := visible;
             drawnDrawingPath := drawingPath w;
             drawnScrollLeft := scrollLeft w;
             drawnScrollTop := scrollTop w |}]) w.

(** *** Frame scheduling

    The bodies of the two animation-frame closures are written over the
    method they call, so that the order between that call and the reset of
    the flag shows for a callee that asks for a frame itself; in the source
    the callee is [draw]. *)

Definition tickDraw (w : t) : t :=
  if tickingDraw w then w
  else requestAnimationFrame DrawCallback (set_tickingDraw true w).

Definition tickScroll (w : t) : t :=
  if tickingScroll w then w
  else requestAnimationFrame ScrollCallback (set_tickingScroll true w).

Definition drawCallbackOver (callee : t -> t) (w : t) : t :=
  let w := callee w in
  set_tickingDraw false w.

Definition scrollCallbackOver (callee : t -> t) (w : t) : t :=
  let w := set_scrollLeft (bufferedScrollLeft w) w in
  let w := set_scrollTop (bufferedScrollTop w) w in
  let w := set_tickingScroll false w in
  callee w.

Definition runCallbackOver (callee : t -> t) (cb : FrameCallback) (w : t) : t :=
  match cb with
  | DrawCallback => drawCallbackOver callee w
  | ScrollCallback => scrollCallbackOver callee w
  end.

(** One display refresh: the callbacks queued so far run in order; what
    they queue waits for the next refresh. *)
Definition animationFrameOver (callee : t -> t) (w : t) : t :=
  fold_left (fun w cb => runCallbackOver callee cb w) (animationFrames w)
    (set_animationFrames [] w).

Definition animationFrame (w : t) : t := animationFrameOver draw w.

(** *** Mutation API *)

Definition addPaths (pathsToAdd : list Path) (w : t) : t :=
  let (r, w) := alloc (addPaths (paths w) pathsToAdd) w in
  let w := set_paths r w in
  tickDraw w.

Definition removePathsById (pathIdsToRemove : list string) (w : t) : t :=
  let (r, w) := alloc (removePathsByIds (paths w) pathIdsToRemove) w in
  let w := set_paths r w in
  tickDraw w.

(** *** Coordinates *)

Definition handleResize (w : t) : t :=
  match canvasElement w with
  | None => w
  | Some ce =>
      let w := set_offsetLeft (rectLeft ce) w in
      let w := set_offsetTop (rectTop ce) w in
      draw w
  end.

Definition sameElement (elem : CanvasElement) (ce : option CanvasElement) : bool :=
  match ce with
  | Some e => Nat.eqb (elementRef elem) (elementRef e)
  | None => false
  end.

Definition setCanvasElement (elem : CanvasElement) (w : t) : t :=
  if sameElement elem (canvasElement w) then w
  else
    let w := set_canvasElement (Some elem) w in
    let w := set_renderingContext (context2d elem) w in
    handleResize w.

Definition updateOffset (w : t) : t :=
  match canvasElement w with
  | None => w
  | Some ce =>
      let w := set_offsetLeft (rectLeft ce) w in
      set_offsetTop (rectTop ce) w
  end.

Definition getPointFromMouseEvent (w : t) (event : MouseEvent)
    (ignoreScroll : bool) : Point :=
  let x0 := clientX event - offsetLeft w in
  let y0 := clientY event - offsetTop w in
  if negb ignoreScroll
  then {| x := x0 + scrollLeft w; y := y0 + scrollTop w |}
  else {| x := x0; y := y0 |}.

Definition getTouch (w : t) (event : TouchEvent) (dontCareTouchType : bool)
    : option Touch.t :=
  let touches := changedTouches event in
  if negb (palmRejection w) || dontCareTouchType
  then hd_error touches
  else find (fun touch => String.eqb (Touch.touchType touch) "stylus") touches.

Definition getPointFromTouchEvent (w : t) (event : TouchEvent)
    (ignoreScrollAndTouchType : bool) : option Point :=
  match getTouch w event ignoreScrollAndTouchType with
  | None => None
  | Some touch =>
      let x0 := Touch.clientX touch - offsetLeft w in
      let y0 := Touch.clientY touch - offsetTop w in
      if negb ignoreScrollAndTouchType
      then Some {| x := x0 + scrollLeft w; y := y0 + scrollTop w |}
      else Some {| x := x0; y := y0 |}
  end.

(** [pushPoint(drawingPath.points, p)] on the path object [dp]. *)
Definition pushPointOf (dp : Path) (p : Point) : Path :=
  match pushPoint (Some (points dp)) p with
  | Some l => {| id := id dp; color := color dp; width := width dp; points := l |}
  | None => dp
  end.

(** *** Mouse handlers *)

Definition handleMouseDown (event : MouseEvent) (w : t) : t :=
  let w := updateOffset w in
  match tool w with
  | pen =>
      let (newId, w) := generateId w in
      set_drawingPath
        (Some {| id := newId; color := "#000"; width := 3;
                 points := [getPointFromMouseEvent w event false] |}) w
  | eraser =>
      let p := getPointFromMouseEvent w event false in
      let w := set_erasingPathIds
                 (Some (JsSet.from (erase (items (paths w)) p))) w in
      tickDraw w
  | hand =>
      let p := getPointFromMouseEvent w event true in
      let w := set_prevX (x p) w in
      let w := set_prevY (y p) w in
      set_handScrollingByMouse true w
  end.

Definition handleMouseMove (event : MouseEvent) (w : t) : t :=
  match tool w with
  | pen =>
      match drawingPath w with
      | Some dp =>
          let dp := pushPointOf dp (getPointFromMouseEvent w event false) in
          tickDraw (set_drawingPath (Some dp) w)
      | None => w
      end
  | eraser =>
      match erasingPathIds w with
      | Some ids =>
          let p := getPointFromMouseEvent w event false in
          let ids := addToSet ids (erase (items (paths w)) p) in
          tickDraw (set_erasingPathIds (Some ids) w)
      | None => w
      end
  | hand =>
      if handScrollingByMouse w then
        let p := getPointFromMouseEvent w event true in
        let w := set_bufferedScrollLeft (bufferedScrollLeft w + (prevX w - x p)) w in
        let w := set_bufferedScrollTop (bufferedScrollTop w + (prevY w - y p)) w in
        let w := set_prevX (x p) w in
        let w := set_prevY (y p) w in
        tickScroll w
      else w
  end.

(** The commit shared by the two pointer-up handlers:
    [if (drawingPath.points.length > 1) { this.paths = this.paths.concat(..);
    this.pictureService.addAndRemovePaths(..) }]. *)
Definition commitDrawingPath (dp : Path) (w : t) : t :=
  if (1 <? length (points dp))%nat then
    let (newPaths, w) := alloc (array_concat (paths w) [dp]) w in
    let w := set_paths newPaths w in
    addAndRemovePaths (Some [dp]) None w
  else w.

(** Likewise for the eraser: [removePaths], the test [newPaths !== paths]
    and the emission of [Array.from(erasingPathIds)]. *)
Definition commitErasing (ids : JsSet.t) (w : t) : t :=
  let paths0 := paths w in
  let (newPaths, w) := alloc (removePaths paths0 ids) w in
  if negb (same_ref newPaths paths0) then
    let w := set_paths newPaths w in
    addAndRemovePaths None (Some (JsSet.toArray ids)) w
  else w.

Definition handleGlobalMouseUp (w : t) : t :=
  match tool w with
  | pen =>
      match drawingPath w with
      | Some dp =>
          let w := commitDrawingPath dp w in
          set_drawingPath None w
      | None => w
      end
  | eraser =>
      match erasingPathIds w with
      | Some ids =>
          let w := commitErasing ids w in
          set_erasingPathIds None w
      | None => w
      end
  | hand => set_handScrollingByMouse false w
  end.

(** *** Touch handlers

    Each [switch] falls through from ['pen'] to ['eraser'] to [default] when
    the event yields no point; the three bodies are given from the last to
    the first, each one ending in the next. *)

Definition handleTouchStart_default (event : TouchEvent) (w : t) : t :=
  match getPointFromTouchEvent w event true with
  | None => w
  | Some p =>
      let w := set_prevX (x p) w in
      set_prevY (y p) w
  end.

Definition handleTouchStart_eraser (event : TouchEvent) (w : t) : t :=
  match getPointFromTouchEvent w event false with
  | Some p =>
      let pathIdsToRemove := erase (items (paths w)) p in
      let w :=
        match erasingPathIds w with
        | Some ids => set_erasingPathIds (Some (addToSet ids pathIdsToRemove)) w
        | None => set_erasingPathIds (Some (JsSet.from pathIdsToRemove)) w
        end in
      tickDraw w
  | None => handleTouchStart_default event w
  end.

Definition handleTouchStart_pen (event : TouchEvent) (w : t) : t :=
  match getPointFromTouchEvent w event false with
  | Some p =>
      let (newId, w) := generateId w in
      set_drawingPath
        (Some {| id := newId; color := "#000"; width := 3; points := [p] |}) w
  | None => handleTouchStart_eraser event w
  end.

Definition handleTouchStart (event : TouchEvent) (w : t) : t :=
  let w := updateOffset w in
  match tool w with
  | pen => handleTouchStart_pen event w
  | eraser => handleTouchStart_eraser event w
  | hand => handleTouchStart_default event w
  end.

Definition handleTouchMove_default (event : TouchEvent) (w : t) : t :=
  match getPointFromTouchEvent w event true with
  | None => w
  | Some p =>
      let w := set_bufferedScrollLeft (bufferedScrollLeft w + (prevX w - x p)) w in
      let w := set_bufferedScrollTop (bufferedScrollTop w + (prevY w - y p)) w in
      let w := set_prevX (x p) w in
      let w := set_prevY (y p) w in
      tickScroll w
  end.

Definition handleTouchMove_eraser (event : TouchEvent) (w : t) : t :=
  match getPointFromTouchEvent w event false with
  | Some p =>
      match erasingPathIds w with
      | Some ids =>
          let pathIdsToRemove := erase (items (paths w)) p in
          tickDraw (set_erasingPathIds (Some (addToSet ids pathIdsToRemove)) w)
      | None => w
      end
  | None => handleTouchMove_default event w
  end.

Definition handleTouchMove_pen (event : TouchEvent) (w : t) : t :=
  match getPointFromTouchEvent w event false with
  | Some p =>
      match drawingPath w with
      | Some dp => tickDraw (set_drawingPath (Some (pushPointOf dp p)) w)
      | None => w
      end
  | None => handleTouchMove_eraser event w
  end.

Definition handleTouchMove (event : TouchEvent) (w : t) : t :=
  match tool w with
  | pen => handleTouchMove_pen event w
  | eraser => handleTouchMove_eraser event w
  | hand => handleTouchMove_default event w
  end.

Definition handleTouchEnd_default (event : TouchEvent) (w : t) : t :=
  match getPointFromTouchEvent w event true with
  | None => w
  | Some p =>
      let w := set_bufferedScrollLeft (bufferedScrollLeft w + (prevX w - x p)) w in
      let w := set_bufferedScrollLeft (bufferedScrollLeft w + (prevY w - y p)) w in
      let w := set_prevX (x p) w in
      let w := set_prevY (y p) w in
      tickScroll w
  end.

Definition handleTouchEnd_eraser (event : TouchEvent) (w : t) : t :=
  match getPointFromTouchEvent w event false with
  | Some p =>
      match erasingPathIds w with
      | Some ids =>
          let pathIdsToRemove := erase (items (paths w)) p in
          let ids := addToSet ids pathIdsToRemove in
          let w := set_erasingPathIds (Some ids) w in
          let w := commitErasing ids w in
          set_erasingPathIds None w
      | None => w
      end
  | None => handleTouchEnd_default event w
  end.

Definition handleTouchEnd_pen (event : TouchEvent) (w : t) : t :=
  match getPointFromTouchEvent w event false with
  | Some p =>
      match drawingPath w with
      | Some dp =>
          let dp := pushPointOf dp p in
          let w := set_drawingPath (Some dp) w in
          let w := commitDrawingPath dp w in
          set_drawingPath None w
      | None => w
      end
  | None => handleTouchEnd_eraser event w
  end.

Definition handleTouchEnd (event : TouchEvent) (w : t) : t :=
  match tool w with
  | pen => handleTouchEnd_pen event w
  | eraser => handleTouchEnd_eraser event w
  | hand => handleTouchEnd_default event w
  end.

Definition handleWheel (event : WheelEvent) (w : t) : t :=
  let w := set_bufferedScrollLeft (bufferedScrollLeft w + deltaX event) w in
  let w := set_bufferedScrollTop (bufferedScrollTop w + deltaY event) w in
  tickScroll w.

(** *** Runs

    What can happen to an attached manager: a device event, a display
    refresh, a call of the mutation API (tool bar or sync transport), the
    attachment of a canvas element. *)
Inductive Action :=
| MouseDown (e : MouseEvent)
| MouseMove (e : MouseEvent)
| MouseUp
| TouchStart (e : TouchEvent)
| TouchMove (e : TouchEvent)
| TouchEnd (e : TouchEvent)
| Wheel (e : WheelEvent)
| Refresh
| SetTool (v : Tool)
| SetPalmRejection (v : bool)
| InboundAdded (l : list Path)
| InboundRemoved (l : list string)
| SetCanvasElement (elem : CanvasElement).

Definition step (w : t) (a : Action) : t :=
  match a with
  | MouseDown e => handleMouseDown e w
  | MouseMove e => handleMouseMove e w
  | MouseUp => handleGlobalMouseUp w
  | TouchStart e => handleTouchStart e w
  | TouchMove e => handleTouchMove e w
  | TouchEnd e => handleTouchEnd e w
  | Wheel e => handleWheel e w
  | Refresh => animationFrame w
  | SetTool v => setTool v w
  | SetPalmRejection v => setPalmRejection v w
  | InboundAdded l => addPaths l w
  | InboundRemoved l => removePathsById l w
  | SetCanvasElement elem => setCanvasElement elem w
  end.

Definition run (w : t) (l : list Action) : t := fold_left step l w.

End CanvasManager.

(** ** Resizing

    [handleResize] in full and the debounced [handleWindowResize], over the
    manager above: the fields [dpr], [width], [height] and [tickingResize],
    the [width] and [height] attributes of the canvas element, and from the
    environment the size of the bounding rectangle of the element and the
    delays of the pending [setTimeout] callbacks.  The only callback that is
    ever set is the closure of [handleWindowResize].

    The device pixel ratio and the sizes are numbers with a fractional part
    in general.  Their type is left open: [times] is the product [*] of two
    numbers, and [toCanvasSize v] is what the [width] or [height] attribute
    of a canvas element holds once [v] has been assigned to it (the
    attribute is an unsigned integer). *)

Module Resizing.

Record t (number : Type) := {
  manager : CanvasManager.t;
  dpr : number;
  width : number;
  height : number;
  tickingResize : bool;
  elementWidth : number;
  elementHeight : number;
  rectWidth : number;
  rectHeight : number;
  timeouts : list Z
}.

Arguments manager {number}.
Arguments dpr {number}.
Arguments width {number}.
Arguments height {number}.
Arguments tickingResize {number}.
Arguments elementWidth {number}.
Arguments elementHeight {number}.
Arguments rectWidth {number}.
Arguments rectHeight {number}.
Arguments timeouts {number}.

Section Numbers.

Context {number : Type}.
Variable times : number -> number -> number.
Variable toCanvasSize : number -> number.

Definition handleResize (r : t number) : t number :=
  match CanvasManager.canvasElement (manager r) with
  | None => r
  | Some ce =>
      let m := CanvasManager.set_offsetLeft (rectLeft ce) (manager r) in
      let m := CanvasManager.set_offsetTop (rectTop ce) m in
      let w := times (rectWidth r) (dpr r) in
      let h := times (rectHeight r) (dpr r) in
      {| manager := CanvasManager.draw m;
         dpr := dpr r;
         width := w;
         height := h;
         tickingResize := tickingResize r;
         elementWidth := toCanvasSize w;
         elementHeight := toCanvasSize h;
         rectWidth := rectWidth r;
         rectHeight := rectHeight r;
         timeouts := timeouts r |}
  end.

Definition set_tickingResize (v : bool) (r : t number) : t number :=
  {| manager := manager r; dpr := dpr r; width := width r; height := height r;
     tickingResize := v;
     elementWidth := elementWidth r; elementHeight := elementHeight r;
     rectWidth := rectWidth r; rectHeight := rectHeight r;
     timeouts := timeouts r |}.

Definition set_timeouts (v : list Z) (r : t number) : t number :=
  {| manager := manager r; dpr := dpr r; width := width r; height := height r;
     tickingResize := tickingResize r;
     elementWidth := elementWidth r; elementHeight := elementHeight r;
     rectWidth := rectWidth r; rectHeight := rectHeight r;
     timeouts := v |}.

(** [setTimeout(callback, delay)] *)
Definition setTimeout (delay : Z) (r : t number) : t number :=
  set_timeouts (timeouts r ++ [delay]) r.

(** The closure of [handleWindowResize]. *)
Definition timeoutCallback (r : t number) : t number :=
  let r := handleResize r in
  set_tickingResize false r.

Definition handleWindowResize (r : t number) : t number :=
  if tickingResize r then r
  else
    let r := set_tickingResize true r in
    setTimeout 300 r.

(** The oldest pending timeout expires. *)
Definition expire (r : t number) : t number :=
  match timeouts r with
  | [] => r
  | _ :: rest => timeoutCallback (set_timeouts rest r)
  end.

(** The window takes a new size, which gives the bounding rectangle of the
    canvas element the size [(w, h)], and the ['resize'] listener runs. *)
Definition windowResized (r : t number) (size : number * number) : t number :=
  handleWindowResize
    {| manager := manager r; dpr := dpr r; width := width r; height := height r;
       tickingResize := tickingResize r;
       elementWidth := elementWidth r; elementHeight := elementHeight r;
       rectWidth := fst size; rectHeight := snd size;
       timeouts := timeouts r |}.

End Numbers.

End Resizing.

(** ** The drawing page

    [normalizeTitle] and [useValidatedParams] of [DrawingPage].  A string
    is a sequence of code units below 256; among these the class [\s] of
    the regular expressions holds the tab, line feed, vertical tab, form
    feed, carriage return, the space and the no-break space. *)

Module DrawingPage.

Definition isWhiteSpace (c : Ascii.ascii) : bool :=
  let n := Ascii.nat_of_ascii c in
  ((9 <=? n)%nat && (n <=? 13)%nat) || (n =? 32)%nat || (n =? 160)%nat.

(** Without the match of [^\s+], the leading run of white space. *)
Fixpoint dropLeading (s : string) : string :=
  match s with
  | String c s' => if isWhiteSpace c then dropLeading s' else s
  | EmptyString => EmptyString
  end.

(** Without the match of [\s+$], the trailing run of white space. *)
Fixpoint dropTrailing (s : string) : string :=
  match s with
  | EmptyString => EmptyString
  | String c s' =>
      match dropTrailing s' with
      | EmptyString => if isWhiteSpace c then EmptyString else String c EmptyString
      | r => String c r
      end
  end.

(** [title.replace(/^\s+|\s+$/g, '')] *)
Definition strip (title : string) : string := dropTrailing (dropLeading title).

(** [None] is [undefined]. *)
Definition normalizeTitle (title : option string) : option string :=
  match title with
  | None => None
  | Some t =>
      let stripped := strip t in
      if String.eqb stripped "" then None else Some stripped
  end.

Definition isLowerHexDigit (c : Ascii.ascii) : bool :=
  let n := Ascii.nat_of_ascii c in
  ((48 <=? n)%nat && (n <=? 57)%nat) || ((97 <=? n)%nat && (n <=? 102)%nat).

(** [pictureIdPattern.test(s)] for [/^[0-9a-f]{32}$/] *)
Definition pictureIdPattern_test (s : string) : bool :=
  (String.length s =? 32)%nat && forallb isLowerHexDigit (list_ascii_of_string s).

(** What a call of [useValidatedParams] ends in. *)
Inductive Outcome := Returned (pictureId : string) | InvalidRouteError.

Definition sameString (a : option string) (b : string) : bool :=
  match a with
  | Some s => String.eqb s b
  | None => false
  end.

(** One call of the hook: [prev] is the content of the ref before the call
    ([None] for [undefined]), [param] the route parameter; the result is the
    content of the ref afterwards and the outcome. *)
Definition useValidatedParams (prev : option string) (param : option string)
    : option string * Outcome :=
  let pictureId := match param with Some s => s | None => EmptyString end in
  if negb (sameString prev pictureId) then
    let prev := Some pictureId in
    if String.eqb pictureId "" || negb (pictureIdPattern_test pictureId)
    then (prev, InvalidRouteError)
    else (prev, Returned pictureId)
  else (prev, Returned pictureId).

End DrawingPage.

(** ** Strokes on the canvas

    [drawPath], as the list of the calls it makes on the rendering
    context. *)

Inductive CanvasCommand :=
| SetLineWidth (v : Z)
| SetStrokeStyle (v : string)
| BeginPath
| MoveTo (cx cy : Z)
| LineTo (cx cy : Z)
| Stroke.

Definition drawPath (path : Path) (scrollLeft scrollTop dpr : Z)
    : list CanvasCommand :=
  if (length (points path) =? 0)%nat then []
  else
    let ctx := [SetLineWidth (width path * dpr); SetStrokeStyle (color path);
                BeginPath] in
    let '(_, ctx) :=
      fold_left
        (fun (st : bool * list CanvasCommand) (p : Point) =>
           let '(first, ctx) := st in
           let realX := (x p - scrollLeft) * dpr in
           let realY := (y p - scrollTop) * dpr in
           if first then (false, ctx ++ [MoveTo realX realY])
           else (first, ctx ++ [LineTo realX realY]))
        (points path) (true, ctx) in
    ctx ++ [Stroke].

(** ** Event listeners

    [listen] and the registration that [setCanvasElement] does, over the
    manager above.  A listener is a target, an event type and a handler; the
    handlers are the functions made by [bind], numbered in the order they
    are made.  The environment holds the listeners that are registered;
    [addEventListener] ignores a listener that is registered already and
    [removeEventListener] takes out the listener it is given. *)

Inductive Target := Window | Body | Element (elementRef : nat).

Record Listener := {
  target : Target;
  eventType : string;
  handler : nat
}.

Definition Target_eqb (a b : Target) : bool :=
  match a, b with
  | Window, Window => true
  | Body, Body => true
  | Element m, Element n => Nat.eqb m n
  | _, _ => false
  end.

Definition Listener_eqb (a b : Listener) : bool :=
  Target_eqb (target a) (target b) && String.eqb (eventType a) (eventType b) &&
  Nat.eqb (handler a) (handler b).

Module Listening.

Record t := {
  manager : CanvasManager.t;
  canvasCleanUpHandler : option (list Listener);
  listeners : list Listener;
  bound : nat
}.

(** A manager as the constructor leaves it, with no listener registered. *)
Definition new (pictureId : string) : t :=
  {| manager := CanvasManager.new pictureId;
     canvasCleanUpHandler := None;
     listeners := [];
     bound := 0 |}.

Definition addEventListener (l : Listener) (r : t) : t :=
  {| manager := manager r;
     canvasCleanUpHandler := canvasCleanUpHandler r;
     listeners := if existsb (Listener_eqb l) (listeners r) then listeners r
                  else listeners r ++ [l];
     bound := bound r |}.

Definition removeEventListener (l : Listener) (r : t) : t :=
  {| manager := manager r;
     canvasCleanUpHandler := canvasCleanUpHandler r;
     listeners := filter (fun k => negb (Listener_eqb l k)) (listeners r);
     bound := bound r |}.

(** [this.handleX.bind(this)]: a function that was not there before. *)
Definition bind (r : t) : nat * t :=
  (bound r,
   {| manager := manager r;
      canvasCleanUpHandler := canvasCleanUpHandler r;
      listeners := listeners r;
      bound := S (bound r) |}).

(** [listen(target, eventType, handler)]; the function it returns is given
    by the listener it will remove. *)
Definition listen (tg : Target) (ty : string) (h : nat) (r : t) : Listener * t :=
  let l := {| target := tg; eventType := ty; handler := h |} in
  (l, addEventListener l r).

(** The elements of the array literal [unsubscribers], evaluated in order. *)
Fixpoint listenAll (specs : list (Target * string)) (r : t) : list Listener * t :=
  match specs with
  | [] => ([], r)
  | (tg, ty) :: rest =>
      let (h, r) := bind r in
      let (u, r) := listen tg ty h r in
      let (us, r) := listenAll rest r in
      (u :: us, r)
  end.

(** [for (const f of unsubscribers) f()] *)
Definition unsubscribeAll (us : list Listener) (r : t) : t :=
  fold_left (fun r u => removeEventListener u r) us r.

Definition setCanvasElement (elem : CanvasElement) (r : t) : t :=
  if CanvasManager.sameElement elem (CanvasManager.canvasElement (manager r)) then r
  else
    let r :=
      match canvasCleanUpHandler r with
      | Some us => unsubscribeAll us r
      | None => r
      end in
    let r := {| manager := CanvasManager.setCanvasElement elem (manager r);
                canvasCleanUpHandler := canvasCleanUpHandler r;
                listeners := listeners r;
                bound := bound r |} in
    let e := Element (elementRef elem) in
    let (unsubscribers, r) :=
      listenAll
        [(Window, "resize"); (e, "wheel"); (e, "mousedown"); (e, "mousemove");
         (Body, "mouseup"); (e, "touchstart"); (e, "touchmove"); (e, "touchend")]%string
        r in
    {| manager := manager r;
       canvasCleanUpHandler := Some unsubscribers;
       listeners := listeners r;
       bound := bound r |}.

End Listening.

(** * Notions used in the statements *)

Definition Point_eq_dec (p q : Point) : {p = q} + {p <> q}.
Proof. decide equality; apply Z.eq_dec. Defined.

(** The length of the array after a call, [0] for a [null] array. *)
Definition pointsLength (pts : option (list Point)) : nat :=
  match pts with Some l => length l | None => 0 end.

Definition FrameCallback_eq_dec (a b : FrameCallback) : {a = b} + {a <> b}.
Proof. decide equality. Defined.

(** Euclidean distance between two points, in the reals. *)
Definition distance (p1 p2 : Point) : R :=
  sqrt ((IZR (x p1) - IZR (x p2)) ^ 2 + (IZR (y p1) - IZR (y p2)) ^ 2)%R.

(** A path has a point within distance [r] of [p]. *)
Definition passesNear (p : Point) (r : R) (path : Path) : Prop :=
  exists p2, In p2 (points path) /\ (distance p p2 <= r)%R.

(** The number that a finite binary64 number stands for, as a fraction:
    the mantissa times a power of two. *)
Definition exactValue (v : float) : Q :=
  match Prim2SF v with
  | S754_finite s m e =>
      let q := (inject_Z (Zpos m) * Qpower 2 e)%Q in
      if s then Qopp q else q
  | _ => 0%Q
  end.

(** The square of the Euclidean distance between two points that have
    finite binary64 coordinates, without rounding, and that distance. *)
Definition squaredDistance64 (p1 p2 : Binary64.Point) : Q :=
  ((exactValue (Binary64.x p1) - exactValue (Binary64.x p2)) ^ 2 +
   (exactValue (Binary64.y p1) - exactValue (Binary64.y p2)) ^ 2)%Q.

Definition distance64 (p1 p2 : Binary64.Point) : R :=
  sqrt (Q2R (squaredDistance64 p1 p2)).

(** The binary64 number of an integer below [2 ^ 53] in magnitude, and the
    point with binary64 coordinates of a point with integral ones. *)
Definition ofInteger (z : Z) : float :=
  match z with
  | Z0 => 0%float
  | Zpos _ => PrimFloat.of_uint63 (Uint63.of_Z z)
  | Zneg q => PrimFloat.opp (PrimFloat.of_uint63 (Uint63.of_Z (Zpos q)))
  end.

Definition toBinary64 (p : Point) : Binary64.Point :=
  {| Binary64.x := ofInteger (x p); Binary64.y := ofInteger (y p) |}.

(** Coordinates on which the arithmetic of [isCloser] is exact in binary64:
    the differences are below [2 ^ 26], their squares and the sum of the
    squares at most [2 ^ 53]. *)
Definition exactRange (p : Point) : Prop :=
  Z.abs (x p) <= 2 ^ 25 /\ Z.abs (y p) <= 2 ^ 25.

(** The integers from [- n] to [n]. *)
Definition integersUpTo (n : Z) : list Z :=
  map (fun k => Z.of_nat k - n) (seq 0 (Z.to_nat (2 * n + 1))).

(** [isCloser] gives the same answer on integral coordinates and on their
    binary64 numbers, for all points of the square of side [2 * n]. *)
Definition agreeUpTo (n : Z) : bool :=
  let range := integersUpTo n in
  forallb (fun a => forallb (fun b => forallb (fun c => forallb (fun d =>
    Bool.eqb
      (Binary64.isCloser (toBinary64 {| x := a; y := b |})
                         (toBinary64 {| x := c; y := d |}) 3)
      (isCloser {| x := a; y := b |} {| x := c; y := d |} 3))
    range) range) range) range.

(** The origin, and a point at [(3, 2 ^ -30)], with binary64 coordinates. *)
Definition origin64 : Binary64.Point :=
  {| Binary64.x := 0; Binary64.y := 0 |}.

Definition besideRadius64 : Binary64.Point :=
  {| Binary64.x := 3; Binary64.y := 0x1p-30 |}.

(** The differences between each number of a list and the next. *)
Fixpoint panSteps (l : list Z) : list Z :=
  match l with
  | a :: (b :: _) as rest => (a - b) :: panSteps rest
  | _ => []
  end.

(** The ids of a list of paths, in order. *)
Definition ids (l : list Path) : list string := map id l.

(** Number of paths of a list that carry a given id. *)
Definition countId (i : string) (l : list Path) : nat :=
  length (filter (fun p => String.eqb (id p) i) l).

(** The first path of each id, in order of appearance. *)
Fixpoint firstById (l : list Path) : list Path :=
  match l with
  | [] => []
  | p :: l' => p :: filter (fun q => negb (String.eqb (id q) (id p))) (firstById l')
  end.

(** No path of [l] carries the id of [p]. *)
Definition absentFrom (l : list Path) (p : Path) : bool :=
  negb (existsb (String.eqb (id p)) (ids l)).

(** The array of the stroke set was allocated before the next free
    reference: what [filter] and [concat] return next is not that array. *)
Definition wellFormed (w : CanvasManager.t) : Prop :=
  (ref (CanvasManager.paths w) < CanvasManager.heap w)%nat.

(** A flag of the scheduler is raised exactly when its callback is queued. *)
Definition scheduled (w : CanvasManager.t) : Prop :=
  (CanvasManager.tickingDraw w = true <->
   In DrawCallback (CanvasManager.animationFrames w)) /\
  (CanvasManager.tickingScroll w = true <->
   In ScrollCallback (CanvasManager.animationFrames w)).

(** A state reached from a fresh manager by some run. *)
Definition reachable (w : CanvasManager.t) : Prop :=
  exists pictureId l, w = CanvasManager.run (CanvasManager.new pictureId) l.

(** A canvas element with its top left corner at the origin of the page,
    and a fresh manager it is attached to. *)
Definition theCanvas : CanvasElement :=
  {| elementRef := 0; rectLeft := 0; rectTop := 0; context2d := true |}.

Definition attached : CanvasManager.t :=
  CanvasManager.setCanvasElement theCanvas (CanvasManager.new "p").

(** A touch event with one changed touch, a finger at the given place. *)
Definition fingerAt (cx cy : Z) : TouchEvent :=
  {| changedTouches :=
       [{| Touch.clientX := cx; Touch.clientY := cy; Touch.touchType := "direct" |}] |}.

(** A mouse event at the given place. *)
Definition mouseAt (cx cy : Z) : MouseEvent := {| clientX := cx; clientY := cy |}.

(** The call by which a committed path is handed to the picture service. *)
Definition addedCall (w : CanvasManager.t) (dp : Path) : ServiceCall :=
  {| callPictureId := CanvasManager.pictureId w;
     added := Some [dp]; removed := None |}.

(** The call by which removed ids are handed to the picture service. *)
Definition removedCall (w : CanvasManager.t) (l : list string) : ServiceCall :=
  {| callPictureId := CanvasManager.pictureId w;
     added := None; removed := Some l |}.

(** What a pointer-up does with the path [dp] it tests, from [w] to [w']:
    the path in progress is given up; a path of at most one point is
    neither committed nor emitted; a path of two points or more is appended
    to the stroke set and emitted alone in one call. *)
Definition dropsOrCommits (w w' : CanvasManager.t) (dp : Path) : Prop :=
  CanvasManager.drawingPath w' = None /\
  ((length (points dp) <= 1)%nat ->
   CanvasManager.paths w' = CanvasManager.paths w /\
   CanvasManager.serviceCalls w' = CanvasManager.serviceCalls w) /\
  ((2 <= length (points dp))%nat ->
   items (CanvasManager.paths w') = items (CanvasManager.paths w) ++ [dp] /\
   CanvasManager.serviceCalls w' =
     CanvasManager.serviceCalls w ++ [addedCall w dp]).

(** The stroke of the erase scenario: id ["a"], through [(0,0)] and
    [(10,10)]. *)
Definition strokeA : Path :=
  {| id := "a"; color := "#000"; width := 3;
     points := [{| x := 0; y := 0 |}; {| x := 10; y := 10 |}] |}.

(** An attached manager holding [strokeA], the eraser selected and pressed at the
    given place. *)
Definition erasingAt (cx cy : Z) : CanvasManager.t :=
  CanvasManager.run attached
    [CanvasManager.InboundAdded [strokeA];
     CanvasManager.SetTool eraser;
     CanvasManager.MouseDown (mouseAt cx cy)].

(** An attached manager after a finger went down at [(0,0)] with the pen: the
    path in progress has the one point [(0,0)]. *)
Definition oneTouchPoint : CanvasManager.t :=
  CanvasManager.run attached [CanvasManager.TouchStart (fingerAt 0 0)].

(** The path in progress of [oneTouchPoint]. *)
Definition strokeOfOnePoint : Path :=
  {| id := "0"; color := "#000"; width := 3; points := [{| x := 0; y := 0 |}] |}.

(** An attached manager after the mouse went down at [(0,0)] and moved to
    [(3,4)] with the pen. *)
Definition mouseDrawn : CanvasManager.t :=
  CanvasManager.run attached
    [CanvasManager.MouseDown (mouseAt 0 0); CanvasManager.MouseMove (mouseAt 3 4)].

(** The path in progress of [mouseDrawn]. *)
Definition strokeOfTwoPoints : Path :=
  {| id := "0"; color := "#000"; width := 3;
     points := [{| x := 0; y := 0 |}; {| x := 3; y := 4 |}] |}.

(** An attached manager with the hand selected and a finger down at
    [(100,100)], the anchor of a pan. *)
Definition touchPanAnchored : CanvasManager.t :=
  CanvasManager.run attached
    [CanvasManager.SetTool hand; CanvasManager.TouchStart (fingerAt 100 100)].

(** The same with the mouse. *)
Definition mousePanAnchored : CanvasManager.t :=
  CanvasManager.run attached
    [CanvasManager.SetTool hand; CanvasManager.MouseDown (mouseAt 100 100)].

(** A callee for the animation-frame closures that draws and then asks for
    a further redraw, and one that asks for a further scroll-apply. *)
Definition drawAndTickDraw (w : CanvasManager.t) : CanvasManager.t :=
  CanvasManager.tickDraw (CanvasManager.draw w).

Definition drawAndTickScroll (w : CanvasManager.t) : CanvasManager.t :=
  CanvasManager.tickScroll (CanvasManager.draw w).

(** What a pointer-up does with the accumulated ids [ids0], from [w] to
    [w']: the set of ids is given up; when no path of the stroke set carries
    one of the ids, the stroke set stays the same array and the picture
    service is not called; when some path does, the stroke set becomes the
    paths that carry none of the ids and the picture service is called once,
    with no added paths and with the accumulated ids, among them the id of
    every path that went away. *)
Definition keepsOrRemoves (w w' : CanvasManager.t) (ids0 : JsSet.t) : Prop :=
  CanvasManager.erasingPathIds w' = None /\
  ((forall p, In p (items (CanvasManager.paths w)) -> JsSet.has ids0 (id p) = false) ->
   CanvasManager.paths w' = CanvasManager.paths w /\
   same_ref (CanvasManager.paths w') (CanvasManager.paths w) = true /\
   CanvasManager.serviceCalls w' = CanvasManager.serviceCalls w) /\
  ((exists p, In p (items (CanvasManager.paths w)) /\ JsSet.has ids0 (id p) = true) ->
   items (CanvasManager.paths w') =
     filter (fun p => negb (JsSet.has ids0 (id p))) (items (CanvasManager.paths w)) /\
   CanvasManager.serviceCalls w' =
     CanvasManager.serviceCalls w ++ [removedCall w (JsSet.toArray ids0)] /\
   (forall p, In p (items (CanvasManager.paths w)) ->
      ~ In p (items (CanvasManager.paths w')) -> In (id p) (JsSet.toArray ids0))).

(** No two consecutive points of the list are equal. *)
Fixpoint noRepeat (l : list Point) : Prop :=
  match l with
  | a :: ((b :: _) as t) => a <> b /\ noRepeat t
  | _ => True
  end.

(** A call on the picture service as the manager of picture [pid] makes
    them: either one added path of at least two points, no two consecutive
    ones equal, and nothing removed; or nothing added and a non-empty list
    of pairwise distinct removed ids. *)
Definition wellEmitted (pid : string) (c : ServiceCall) : Prop :=
  callPictureId c = pid /\
  ((exists dp, added c = Some [dp] /\ removed c = None /\
               (2 <= length (points dp))%nat /\ noRepeat (points dp)) \/
   (added c = None /\
    exists l, removed c = Some l /\ l <> [] /\ NoDup l)).

(** The state of the gestures: a path in progress has a point and no two
    consecutive points equal, the ids being erased are pairwise distinct,
    and the calls made so far are as [wellEmitted] says. *)
Definition gestureInvariant (w : CanvasManager.t) : Prop :=
  (forall dp, CanvasManager.drawingPath w = Some dp ->
     points dp <> [] /\ noRepeat (points dp)) /\
  (forall s, CanvasManager.erasingPathIds w = Some s -> NoDup s) /\
  Forall (wellEmitted (CanvasManager.pictureId w)) (CanvasManager.serviceCalls w).

(** The list without the points that repeat the point before them. *)
Fixpoint compress (l : list Point) : list Point :=
  match l with
  | a :: ((b :: _) as t) =>
      if Point_eq_dec a b then compress t else a :: compress t
  | _ => l
  end.

(** No gesture is going on: no path in progress, no ids being erased, no
    pan by mouse. *)
Definition idle (w : CanvasManager.t) : Prop :=
  CanvasManager.drawingPath w = None /\
  CanvasManager.erasingPathIds w = None /\
  CanvasManager.handScrollingByMouse w = false.


(** A string is made of white space only; its first, its last character is
    white space. *)
Definition allWhiteSpace (s : string) : bool :=
  forallb DrawingPage.isWhiteSpace (list_ascii_of_string s).

Definition startsWithWhiteSpace (s : string) : bool :=
  match s with
  | String c _ => DrawingPage.isWhiteSpace c
  | EmptyString => false
  end.

Fixpoint endsWithWhiteSpace (s : string) : bool :=
  match s with
  | EmptyString => false
  | String c EmptyString => DrawingPage.isWhiteSpace c
  | String _ s' => endsWithWhiteSpace s'
  end.

(** The resize events of a burst, one after the other. *)
Definition resizeBurst {number : Type} (r : Resizing.t number)
    (sizes : list (number * number)) : Resizing.t number :=
  fold_left Resizing.windowResized sizes r.

(** The targets and event types that a manager attached to the element of
    reference [n] listens to, in the order of registration. *)
Definition listenedTo (n : nat) : list (Target * string) :=
  [(Window, "resize"); (Element n, "wheel"); (Element n, "mousedown");
   (Element n, "mousemove"); (Body, "mouseup"); (Element n, "touchstart");
   (Element n, "touchmove"); (Element n, "touchend")]%string.

(** The listeners that [listenAll] registers for [specs] when [h] functions
    were bound before. *)
Fixpoint listenersFor (specs : list (Target * string)) (h : nat) : list Listener :=
  match specs with
  | [] => []
  | (tg, ty) :: rest =>
      {| target := tg; eventType := ty; handler := h |} :: listenersFor rest (S h)
  end.

(** Successive attachments. *)
Definition attachAll (r : Listening.t) (elems : list CanvasElement) : Listening.t :=
  fold_left (fun r e => Listening.setCanvasElement e r) elems r.

(** * Proof automation *)

Ltac split_cases :=
  repeat match goal with
    | |- context [match ?c with _ => _ end] => destruct c eqn:?; cbn in *
    end.

Ltac open_handlers :=
  unfold CanvasManager.handleMouseDown, CanvasManager.handleMouseMove,
    CanvasManager.handleGlobalMouseUp, CanvasManager.handleTouchStart,
    CanvasManager.handleTouchMove, CanvasManager.handleTouchEnd,
    CanvasManager.handleWheel, CanvasManager.setTool,
    CanvasManager.setPalmRejection, CanvasManager.setCanvasElement,
    CanvasManager.handleResize, CanvasManager.draw,
    CanvasManager.handleTouchStart_pen, CanvasManager.handleTouchStart_eraser,
    CanvasManager.handleTouchStart_default,
    CanvasManager.handleTouchMove_pen, CanvasManager.handleTouchMove_eraser,
    CanvasManager.handleTouchMove_default,
    CanvasManager.handleTouchEnd_pen, CanvasManager.handleTouchEnd_eraser,
    CanvasManager.handleTouchEnd_default,
    CanvasManager.generateId, CanvasManager.updateOffset.

Ltac open_scheduler :=
  unfold CanvasManager.tickDraw, CanvasManager.tickScroll,
    CanvasManager.requestAnimationFrame.

Ltac close_scheduled :=
  rewrite ?in_app_iff; simpl; intuition (try discriminate; try congruence).

(** * Properties *)

(** ** Sets and lists *)

Lemma has_In (s : JsSet.t) (v : string) : JsSet.has s v = true <-> In v s.
Proof.
  unfold JsSet.has. rewrite existsb_exists. split.
  - intros [u [Hu E]]. apply String.eqb_eq in E. now subst.
  - intros H. exists v. split; [assumption | apply String.eqb_refl].
Qed.

Lemma has_add (s : JsSet.t) (v u : string) :
  JsSet.has (JsSet.add s v) u = JsSet.has s u || String.eqb u v.
Proof.
  unfold JsSet.add. destruct (JsSet.has s v) eqn:E.
  - destruct (String.eqb_spec u v) as [->|_].
    + now rewrite E.
    + now rewrite orb_false_r.
  - unfold JsSet.has. rewrite existsb_app. simpl. now rewrite orb_false_r.
Qed.

Lemma has_addToSet (l : list string) (s : JsSet.t) (u : string) :
  JsSet.has (addToSet s l) u = JsSet.has s u || existsb (String.eqb u) l.
Proof.
  unfold addToSet. revert s. induction l as [|v l IH]; intros s; simpl.
  - now rewrite orb_false_r.
  - rewrite IH, has_add. now rewrite orb_assoc.
Qed.

Lemma has_from (l : list string) (u : string) :
  JsSet.has (JsSet.from l) u = true <-> In u l.
Proof.
  unfold JsSet.from. change (fold_left JsSet.add l JsSet.empty) with (addToSet JsSet.empty l).
  rewrite has_addToSet. simpl. apply (has_In l u).
Qed.

Lemma filter_twice {A} (f : A -> bool) (l : list A) :
  filter f (filter f l) = filter f l.
Proof.
  induction l as [|a l IH]; simpl; [reflexivity|].
  destruct (f a) eqn:E; simpl; [rewrite E, IH|]; auto.
Qed.

Lemma filter_same_length {A} (f : A -> bool) (l : list A) :
  length (filter f l) = length l -> filter f l = l.
Proof.
  induction l as [|a l IH]; simpl; [reflexivity|].
  destruct (f a); simpl; intros H.
  - f_equal. apply IH. lia.
  - pose proof (filter_length_le f l). lia.
Qed.

Lemma filter_all {A} (f : A -> bool) (l : list A) :
  (forall a, In a l -> f a = true) -> filter f l = l.
Proof.
  induction l as [|a l IH]; simpl; intros H; [reflexivity|].
  rewrite (H a (or_introl eq_refl)). f_equal. apply IH. auto.
Qed.

(** ** [pushPoint] *)

Lemma pushPoint_snoc (l : list Point) (q p : Point) :
  pushPoint (Some (l ++ [q])) p =
  Some (if Point_eq_dec q p then l ++ [q] else l ++ [q; p]).
Proof.
  unfold pushPoint. rewrite rev_app_distr. simpl.
  destruct (Point_eq_dec q p) as [->|N].
  - now rewrite !Z.eqb_refl.
  - destruct (Z.eqb_spec (x q) (x p)) as [Ex|_]; simpl.
    + destruct (Z.eqb_spec (y q) (y p)) as [Ey|_].
      * exfalso. apply N. destruct q, p; simpl in *; congruence.
      * now rewrite <- app_assoc.
    + now rewrite <- app_assoc.
Qed.

Lemma pushPoint_twice (pts : option (list Point)) (p : Point) :
  pushPoint (pushPoint pts p) p = pushPoint pts p.
Proof.
  destruct pts as [l|]; [|reflexivity].
  destruct l as [|a l] using rev_ind.
  - simpl. now rewrite !Z.eqb_refl.
  - rewrite pushPoint_snoc. destruct (Point_eq_dec a p) as [->|N].
    + rewrite pushPoint_snoc. now destruct (Point_eq_dec p p).
    + change (l ++ [a; p]) with (l ++ [a] ++ [p]). rewrite app_assoc.
      rewrite pushPoint_snoc. now destruct (Point_eq_dec p p).
Qed.

(** C9. [pushPoint] leaves the array as it is when the point has the
    coordinates of the last one, and pushes the point at the end otherwise
    (also on an empty array); a [null] array stays [null].  So pushing the
    same point twice in a row gives the array, and the length, of the first
    push. *)
Theorem pushPoint_appends_unless_last (l : list Point) (q p : Point)
    (pts : option (list Point)) :
  pushPoint (Some (l ++ [p])) p = Some (l ++ [p]) /\
  pushPoint (Some (l ++ [q])) p =
    Some (if Point_eq_dec q p then l ++ [q] else (l ++ [q]) ++ [p]) /\
  pushPoint (Some []) p = Some [p] /\
  pushPoint None p = None /\
  pushPoint (pushPoint pts p) p = pushPoint pts p /\
  pointsLength (pushPoint (pushPoint pts p) p) = pointsLength (pushPoint pts p).
Proof.
  repeat split.
  - rewrite pushPoint_snoc. now destruct (Point_eq_dec p p).
  - rewrite pushPoint_snoc. now rewrite <- app_assoc.
  - now rewrite pushPoint_twice.
  - now rewrite pushPoint_twice.
Qed.

(** ** Hit test *)

Lemma distance_sqrt (p1 p2 : Point) :
  distance p1 p2 = sqrt (IZR ((x p1 - x p2) ^ 2 + (y p1 - y p2) ^ 2)).
Proof.
  unfold distance. f_equal.
  rewrite plus_IZR. change 2 with (Z.of_nat 2).
  now rewrite <- !pow_IZR, !minus_IZR.
Qed.

Lemma isCloser_distance (p1 p2 : Point) (r : Z) :
  0 <= r -> isCloser p1 p2 r = true <-> (distance p1 p2 <= IZR r)%R.
Proof.
  intros Hr. unfold isCloser. rewrite Z.leb_le, distance_sqrt.
  set (d := (x p1 - x p2) ^ 2 + (y p1 - y p2) ^ 2).
  assert (Hd : 0 <= d) by (unfold d; nia).
  assert (HdR : (0 <= IZR d)%R) by now apply IZR_le.
  assert (HrR : (0 <= IZR r)%R) by now apply IZR_le.
  split; intros H.
  - rewrite <- (sqrt_pow2 (IZR r)) by assumption.
    apply sqrt_le_1_alt. rewrite pow_IZR. now apply IZR_le.
  - apply le_IZR.
    replace (r ^ 2) with (r * r) by ring.
    rewrite mult_IZR, <- (sqrt_sqrt (IZR d)) by assumption.
    pose proof (sqrt_pos (IZR d)).
    apply Rmult_le_compat; assumption.
Qed.

Lemma erase_filter (paths : list Path) (p : Point) :
  erase paths p =
  map id (filter
            (fun path => existsb (fun p2 => isCloser p p2 eraseRadius) (points path))
            paths).
Proof.
  unfold erase.
  set (f := fun (acc : list string) (path : Path) =>
              if existsb (fun p2 => isCloser p p2 eraseRadius) (points path)
              then acc ++ [id path] else acc).
  assert (G : forall l acc,
             fold_left f l acc =
             acc ++ map id (filter (fun path =>
                        existsb (fun p2 => isCloser p p2 eraseRadius) (points path)) l)).
  { induction l as [|a l IH]; intros acc; simpl.
    - now rewrite app_nil_r.
    - rewrite IH. unfold f.
      destruct (existsb _ (points a)); simpl; [now rewrite <- app_assoc | reflexivity]. }
  apply (G paths []).
Qed.

Lemma hit_passesNear (p : Point) (path : Path) :
  existsb (fun p2 => isCloser p p2 eraseRadius) (points path) = true <->
  passesNear p 3 path.
Proof.
  unfold passesNear. rewrite existsb_exists.
  split; intros [p2 [Hin H]]; exists p2; split; try assumption;
    now apply (isCloser_distance p p2 3).
Qed.

Lemma erase_on_integers (paths : list Path) (p : Point) (i : string) :
  In i (erase paths p) <->
  exists path, In path paths /\ id path = i /\ passesNear p 3 path.
Proof.
  rewrite erase_filter, in_map_iff. split.
  - intros [path [E H]]. apply filter_In in H. destruct H as [Hin Hhit].
    exists path. repeat split; try assumption. now apply hit_passesNear.
  - intros [path [Hin [E H]]]. exists path. split; [assumption|].
    apply filter_In. split; [assumption|]. now apply hit_passesNear.
Qed.

Lemma erase64_filter (paths : list Binary64.Path) (p : Binary64.Point) :
  Binary64.erase paths p =
  map Binary64.id
    (filter
       (fun path => existsb (fun p2 => Binary64.isCloser p p2 3) (Binary64.points path))
       paths).
Proof.
  unfold Binary64.erase.
  set (hit := fun path : Binary64.Path =>
                existsb (fun p2 => Binary64.isCloser p p2 3) (Binary64.points path)).
  set (f := fun (acc : list string) (path : Binary64.Path) =>
              if hit path then acc ++ [Binary64.id path] else acc).
  change (fold_left f paths [] = map Binary64.id (filter hit paths)).
  assert (G : forall l acc,
             fold_left f l acc = acc ++ map Binary64.id (filter hit l)).
  { induction l as [|a l IH]; intros acc; simpl.
    - now rewrite app_nil_r.
    - rewrite IH. unfold f.
      destruct (hit a); simpl; [now rewrite <- app_assoc | reflexivity]. }
  apply (G paths []).
Qed.

Lemma integersUpTo_In (n a : Z) : - n <= a <= n -> In a (integersUpTo n).
Proof.
  intros H. unfold integersUpTo. apply in_map_iff.
  exists (Z.to_nat (a + n)). split; [lia|].
  apply in_seq. lia.
Qed.

Lemma agreeUpTo_In (n a b c d : Z) :
  agreeUpTo n = true ->
  In a (integersUpTo n) -> In b (integersUpTo n) ->
  In c (integersUpTo n) -> In d (integersUpTo n) ->
  Binary64.isCloser (toBinary64 {| x := a; y := b |})
                    (toBinary64 {| x := c; y := d |}) 3 =
  isCloser {| x := a; y := b |} {| x := c; y := d |} 3.
Proof.
  unfold agreeUpTo. generalize (integersUpTo n). intros range G Ha Hb Hc Hd.
  cbv zeta in G.
  rewrite forallb_forall in G. specialize (G a Ha).
  rewrite forallb_forall in G. specialize (G b Hb).
  rewrite forallb_forall in G. specialize (G c Hc).
  rewrite forallb_forall in G. specialize (G d Hd).
  now apply Bool.eqb_prop in G.
Qed.

Lemma agreeUpTo_16 : agreeUpTo 16 = true.
Proof. vm_compute. reflexivity. Qed.

Lemma isCloser_agrees (a b c d : Z) :
  - 16 <= a <= 16 -> - 16 <= b <= 16 -> - 16 <= c <= 16 -> - 16 <= d <= 16 ->
  Binary64.isCloser (toBinary64 {| x := a; y := b |})
                    (toBinary64 {| x := c; y := d |}) 3 =
  isCloser {| x := a; y := b |} {| x := c; y := d |} 3.
Proof.
  intros Ha Hb Hc Hd.
  apply (agreeUpTo_In 16 a b c d agreeUpTo_16); apply integersUpTo_In; assumption.
Qed.

(** C6, as the code has it.  On binary64 coordinates [erase] returns, in
    the order of the set and once per path, the id of every path that has a
    point for which the comparison of [isCloser] holds at radius 3, and of
    no other path; the comparison is that of the sum of the rounded squares
    of the rounded differences with the rounded square of the radius,
    without a square root.  On integral coordinates of magnitude at most
    [2 ^ 25], where none of these operations rounds, the paths returned are
    those with a point within Euclidean distance 3 of the query point; the
    comparison on the binary64 numbers of integers up to 16 in magnitude
    is the one on the integers.  On the set [{id: "a", points: (0,0),
    (10,10)}] and the point [(1,1)] the result is ["a"]. *)
Theorem erase_returns_paths_passing_comparison
    (paths : list Binary64.Path) (p : Binary64.Point)
    (ipaths : list Path) (ip : Point) :
  (Binary64.erase paths p =
     map Binary64.id
       (filter
          (fun path =>
             existsb (fun p2 => Binary64.isCloser p p2 3) (Binary64.points path))
          paths) /\
   (forall i,
      In i (Binary64.erase paths p) <->
      exists path p2,
        In path paths /\ Binary64.id path = i /\
        In p2 (Binary64.points path) /\ Binary64.isCloser p p2 3 = true) /\
   (forall p1 p2 r,
      Binary64.isCloser p1 p2 r =
      PrimFloat.leb
        (PrimFloat.add
           (PrimFloat.mul (PrimFloat.sub (Binary64.x p1) (Binary64.x p2))
                          (PrimFloat.sub (Binary64.x p1) (Binary64.x p2)))
           (PrimFloat.mul (PrimFloat.sub (Binary64.y p1) (Binary64.y p2))
                          (PrimFloat.sub (Binary64.y p1) (Binary64.y p2))))
        (PrimFloat.mul r r))) /\
  (exactRange ip ->
   Forall (fun path => Forall exactRange (points path)) ipaths ->
   erase ipaths ip =
     map id (filter
               (fun path => existsb (fun p2 => isCloser ip p2 3) (points path))
               ipaths) /\
   (forall i,
      In i (erase ipaths ip) <->
      exists path, In path ipaths /\ id path = i /\ passesNear ip 3 path)) /\
  (forall a b c d,
     - 16 <= a <= 16 -> - 16 <= b <= 16 -> - 16 <= c <= 16 -> - 16 <= d <= 16 ->
     Binary64.isCloser (toBinary64 {| x := a; y := b |})
                       (toBinary64 {| x := c; y := d |}) 3 =
     isCloser {| x := a; y := b |} {| x := c; y := d |} 3) /\
  Binary64.erase
    [{| Binary64.id := "a"; Binary64.color := "#000"; Binary64.width := 3;
        Binary64.points := [{| Binary64.x := 0; Binary64.y := 0 |};
                            {| Binary64.x := 10; Binary64.y := 10 |}] |}]
    {| Binary64.x := 1; Binary64.y := 1 |} = ["a"%string] /\
  erase [{| id := "a"; color := "#000"; width := 3;
            points := [{| x := 0; y := 0 |}; {| x := 10; y := 10 |}] |}]
        {| x := 1; y := 1 |} = ["a"%string].
Proof.
  split; [|split; [|split; [|split]]].
  - split; [apply erase64_filter|]. split; [|reflexivity].
    intros i. rewrite erase64_filter, in_map_iff. split.
    + intros [path [E H]]. apply filter_In in H. destruct H as [Hin Hhit].
      apply existsb_exists in Hhit. destruct Hhit as [p2 [Hp2 Hc]].
      exists path, p2. repeat split; assumption.
    + intros [path [p2 (Hin & E & Hp2 & Hc)]]. exists path. split; [assumption|].
      apply filter_In. split; [assumption|].
      apply existsb_exists. exists p2. split; assumption.
  - intros _ _. split; [apply erase_filter | apply erase_on_integers].
  - apply isCloser_agrees.
  - vm_compute. reflexivity.
  - reflexivity.
Qed.

Lemma erase_returns_paths_passing_comparison_witness :
  erase [strokeA] {| x := 1; y := 1 |} =
  map id (filter
            (fun path =>
               existsb (fun p2 => isCloser {| x := 1; y := 1 |} p2 3) (points path))
            [strokeA]).
Proof.
  refine (proj1 (proj1 (proj2
            (erase_returns_paths_passing_comparison [] origin64
               [strokeA] {| x := 1; y := 1 |})) _ _)).
  - vm_compute. split; discriminate.
  - repeat constructor; vm_compute; discriminate.
Defined.

(** C6 as stated fails next to the radius.  The point [(3, 2 ^ -30)] lies at
    more than distance 3 from the origin, yet [isCloser] accepts it at
    radius 3, since the sum [9 + 2 ^ -60] is rounded to 9; so [erase] at the
    origin returns the id of a path that has this point only. *)
Lemma erase_returns_path_beyond_radius :
  Binary64.isCloser origin64 besideRadius64 3 = true /\
  Binary64.erase
    [{| Binary64.id := "n"; Binary64.color := "#000"; Binary64.width := 3;
        Binary64.points := [besideRadius64] |}]
    origin64 = ["n"%string] /\
  (9 < squaredDistance64 origin64 besideRadius64)%Q /\
  (3 < distance64 origin64 besideRadius64)%R.
Proof.
  assert (H : (9 < squaredDistance64 origin64 besideRadius64)%Q)
    by (vm_compute; reflexivity).
  repeat split; try (vm_compute; reflexivity); try exact H.
  unfold distance64. apply Qlt_Rlt in H.
  set (d := Q2R (squaredDistance64 origin64 besideRadius64)) in *.
  replace (Q2R 9) with 9%R in H by (unfold Q2R; simpl; lra).
  replace 3%R with (sqrt 9).
  - apply sqrt_lt_1_alt. lra.
  - replace 9%R with (3 * 3)%R by lra. apply sqrt_square. lra.
Qed.

(** ** Merge by id *)

Lemma has_from_existsb (l : list string) (u : string) :
  JsSet.has (JsSet.from l) u = existsb (String.eqb u) l.
Proof.
  unfold JsSet.from.
  change (fold_left JsSet.add l JsSet.empty) with (addToSet JsSet.empty l).
  now rewrite has_addToSet.
Qed.

Lemma filter_absorb {A} (f g : A -> bool) (l : list A) :
  (forall a, f a = true -> g a = true) -> filter f (filter g l) = filter f l.
Proof.
  intros H. induction l as [|a l IH]; simpl; [reflexivity|].
  destruct (g a) eqn:G; simpl.
  - now rewrite IH.
  - destruct (f a) eqn:F; [|assumption].
    apply H in F. congruence.
Qed.

Lemma filter_both {A} (f g : A -> bool) (l : list A) :
  filter f (filter g l) = filter (fun a => g a && f a) l.
Proof.
  induction l as [|a l IH]; simpl; [reflexivity|].
  destruct (g a); simpl; [destruct (f a)|]; now rewrite IH.
Qed.

Lemma filter_none {A} (f : A -> bool) (l : list A) :
  (forall a, In a l -> f a = false) -> filter f l = [].
Proof.
  induction l as [|a l IH]; simpl; intros H; [reflexivity|].
  rewrite (H a (or_introl eq_refl)). apply IH. auto.
Qed.

(** The stateful [filter] of [addPaths] keeps the first path of each id
    that the set did not hold at the start. *)
Lemma filter_with_notSeenYet (l : list Path) (s : JsSet.t) :
  fst (filter_with notSeenYet l s) =
  filter (fun p => negb (JsSet.has s (id p))) (firstById l).
Proof.
  revert s. induction l as [|p l IH]; intros s; [reflexivity|].
  simpl. unfold notSeenYet at 1. destruct (JsSet.has s (id p)) eqn:E.
  - specialize (IH s). destruct (filter_with notSeenYet l s) as [r s'].
    simpl in *. rewrite IH. symmetry. apply filter_absorb.
    intros q Hq. destruct (String.eqb_spec (id q) (id p)) as [Eq|]; [|reflexivity].
    rewrite Eq, E in Hq. discriminate.
  - specialize (IH (JsSet.add s (id p))).
    destruct (filter_with notSeenYet l (JsSet.add s (id p))) as [r s'].
    simpl in *. f_equal. rewrite IH, filter_both. apply filter_ext.
    intros q. rewrite has_add, negb_orb. apply andb_comm.
Qed.

Lemma firstById_incl (l : list Path) (p : Path) : In p (firstById l) -> In p l.
Proof.
  revert p. induction l as [|a l IH]; intros p; simpl; [tauto|].
  intros [->|H]; [now left|]. right. apply IH.
  apply filter_In in H. tauto.
Qed.

Lemma firstById_covers (l : list Path) (i : string) :
  In i (ids l) -> In i (ids (firstById l)).
Proof.
  unfold ids. induction l as [|a l IH]; simpl; [tauto|].
  destruct (String.eqb_spec i (id a)) as [->|N]; [now left|].
  intros [E|H]; [congruence|]. right.
  apply IH, in_map_iff in H. destruct H as [q [Eq Hq]].
  apply in_map_iff. exists q. split; [assumption|].
  apply filter_In. split; [assumption|].
  subst i. now destruct (String.eqb_spec (id q) (id a)).
Qed.

Lemma NoDup_ids_filter (f : Path -> bool) (l : list Path) :
  NoDup (ids l) -> NoDup (ids (filter f l)).
Proof.
  unfold ids. induction l as [|a l IH]; simpl; intros H; [constructor|].
  inversion H as [|? ? Hn Hl]; subst.
  destruct (f a); simpl; [constructor|]; auto.
  intros Hin. apply Hn. apply in_map_iff in Hin. destruct Hin as [q [E Hq]].
  apply in_map_iff. exists q. split; [assumption|]. apply filter_In in Hq. tauto.
Qed.

Lemma firstById_NoDup (l : list Path) : NoDup (ids (firstById l)).
Proof.
  induction l as [|a l IH]; simpl; constructor.
  - intros Hin. apply in_map_iff in Hin. destruct Hin as [q [E Hq]].
    apply filter_In in Hq. destruct Hq as [_ Hq].
    rewrite E, String.eqb_refl in Hq. discriminate.
  - now apply NoDup_ids_filter.
Qed.

Lemma NoDup_append {A} (l l' : list A) :
  NoDup l -> NoDup l' -> (forall a, In a l -> ~ In a l') -> NoDup (l ++ l').
Proof.
  induction l as [|a l IH]; simpl; intros H H' D; [assumption|].
  inversion H; subst. constructor.
  - rewrite in_app_iff. intros [?|?]; [contradiction|]. now apply (D a); [left|].
  - apply IH; auto.
Qed.

Lemma absentFrom_has (l : list Path) (p : Path) :
  negb (JsSet.has (JsSet.from (map id l)) (id p)) = absentFrom l p.
Proof. unfold absentFrom, ids. now rewrite has_from_existsb. Qed.

Lemma absentFrom_false (l : list Path) (p : Path) :
  absentFrom l p = false <-> In (id p) (ids l).
Proof.
  unfold absentFrom. rewrite negb_false_iff. apply (has_In (ids l) (id p)).
Qed.

(** What [addPaths] returns: its argument when nothing is to be added, and
    a fresh array otherwise. *)
Lemma addPaths_result (paths : PathArray) (P : list Path) (h : nat) :
  let R := filter (absentFrom (items paths)) (firstById P) in
  fst (addPaths paths P h) =
  if (length R =? 0)%nat then paths
  else {| ref := S h; items := items paths ++ R |}.
Proof.
  unfold addPaths, bind, new_array, array_concat, new_array, ret. cbn.
  rewrite filter_with_notSeenYet.
  rewrite (filter_ext _ _ (absentFrom_has (items paths))).
  now destruct (length _ =? 0)%nat.
Qed.

Lemma addPaths_items (paths : PathArray) (P : list Path) (h : nat) :
  items (fst (addPaths paths P h)) =
  items paths ++ filter (absentFrom (items paths)) (firstById P).
Proof.
  rewrite addPaths_result. cbv zeta.
  destruct (filter _ (firstById P)) as [|a r]; simpl; [now rewrite app_nil_r | reflexivity].
Qed.

Lemma addPaths_same (paths : PathArray) (P : list Path) (h : nat) :
  (forall p, In p P -> In (id p) (ids (items paths))) ->
  fst (addPaths paths P h) = paths.
Proof.
  intros H. rewrite addPaths_result. cbv zeta. rewrite filter_none; [reflexivity|].
  intros p Hp. apply absentFrom_false, H. now apply firstById_incl.
Qed.

Lemma addPaths_holds (paths : PathArray) (P : list Path) (h : nat) (p : Path) :
  In p P -> In (id p) (ids (items (fst (addPaths paths P h)))).
Proof.
  intros Hp. rewrite addPaths_items. unfold ids. rewrite map_app, in_app_iff.
  destruct (absentFrom (items paths) p) eqn:E.
  - right. assert (Hi : In (id p) (ids (firstById P)))
      by (apply firstById_covers, in_map_iff; now exists p).
    apply in_map_iff in Hi. destruct Hi as [q [Eq Hq]].
    apply in_map_iff. exists q. split; [assumption|]. apply filter_In.
    split; [assumption|]. unfold absentFrom in *. now rewrite Eq.
  - left. now apply absentFrom_false.
Qed.

Lemma addPaths_NoDup (paths : PathArray) (P : list Path) (h : nat) :
  NoDup (ids (items paths)) -> NoDup (ids (items (fst (addPaths paths P h)))).
Proof.
  intros H. rewrite addPaths_items. unfold ids. rewrite map_app.
  apply NoDup_append; [assumption | apply NoDup_ids_filter, firstById_NoDup |].
  intros i Hi Hr. apply in_map_iff in Hr. destruct Hr as [q [E Hq]].
  apply filter_In in Hq. destruct Hq as [_ Hq].
  assert (F : absentFrom (items paths) q = false)
    by (apply absentFrom_false; now rewrite E).
  congruence.
Qed.

Lemma countId_absent (i : string) (l : list Path) :
  ~ In i (ids l) -> countId i l = 0%nat.
Proof.
  intros H. unfold countId. rewrite filter_none; [reflexivity|].
  intros p Hp. destruct (String.eqb_spec (id p) i) as [E|]; [|reflexivity].
  exfalso. apply H. apply in_map_iff. now exists p.
Qed.

Lemma countId_NoDup (i : string) (l : list Path) :
  NoDup (ids l) -> In i (ids l) -> countId i l = 1%nat.
Proof.
  unfold ids. induction l as [|a l IH]; simpl; intros N H; [contradiction|].
  inversion N as [|? ? Hn Hl]; subst. unfold countId. simpl.
  destruct (String.eqb_spec (id a) i) as [E|E].
  - subst i. simpl. f_equal. now apply countId_absent.
  - destruct H as [H|H]; [contradiction|]. now apply IH.
Qed.

Lemma paths_addPaths (P : list Path) (w : CanvasManager.t) :
  CanvasManager.paths (CanvasManager.addPaths P w) =
  fst (addPaths (CanvasManager.paths w) P (CanvasManager.heap w)).
Proof.
  unfold CanvasManager.addPaths, CanvasManager.alloc, CanvasManager.tickDraw.
  destruct (addPaths _ P _) as [r h]. simpl.
  now destruct (CanvasManager.tickingDraw w).
Qed.

(** C1. Adding the same batch a second time returns the array the first
    call returned, on any array and any batch; so does the method of the
    manager.  When two batches that both hold a path of id [i] are delivered
    one after the other to a manager whose stroke set has pairwise distinct
    ids, the stroke set ends with exactly one path of id [i]. *)
Theorem addPaths_idempotent (S0 : PathArray) (P : list Path) (h h' : nat) :
  fst (addPaths (fst (addPaths S0 P h)) P h') = fst (addPaths S0 P h) /\
  (forall w,
     CanvasManager.paths (CanvasManager.addPaths P (CanvasManager.addPaths P w)) =
     CanvasManager.paths (CanvasManager.addPaths P w)) /\
  (forall w P1 P2 i,
     NoDup (ids (items (CanvasManager.paths w))) ->
     In i (ids P1) -> In i (ids P2) ->
     countId i
       (items (CanvasManager.paths
                 (CanvasManager.addPaths P2 (CanvasManager.addPaths P1 w)))) = 1%nat).
Proof.
  split; [|split].
  - apply addPaths_same. intros p Hp. now apply addPaths_holds.
  - intros w. rewrite (paths_addPaths P (CanvasManager.addPaths P w)), paths_addPaths.
    apply addPaths_same. intros p Hp. now apply addPaths_holds.
  - intros w P1 P2 i N H1 H2.
    rewrite (paths_addPaths P2), paths_addPaths.
    apply in_map_iff in H2. destruct H2 as [q [E Hq]]. subst i.
    apply countId_NoDup.
    + now apply addPaths_NoDup, addPaths_NoDup.
    + now apply addPaths_holds.
Qed.

Lemma addPaths_idempotent_witness :
  let x1 := {| id := "x"; color := "#000"; width := 3;
               points := [{| x := 0; y := 0 |}; {| x := 4; y := 4 |}] |} in
  let x2 := {| id := "y"; color := "#000"; width := 3;
               points := [{| x := 1; y := 0 |}; {| x := 5; y := 4 |}] |} in
  let w := CanvasManager.new "p" in
  countId "x"
    (items (CanvasManager.paths
              (CanvasManager.addPaths [x1; x2] (CanvasManager.addPaths [x1] w)))) = 1%nat.
Proof.
  intros x1 x2 w.
  apply (proj2 (proj2 (addPaths_idempotent (CanvasManager.paths w) [] 0 0))).
  - simpl. constructor.
  - simpl. now left.
  - simpl. now left.
Defined.

(** How [removePathsByIds] and [removePaths] choose what they return. *)
Lemma removePathsByIds_result (paths : PathArray) (L : list string) (h : nat) :
  let N := filter (fun p => negb (JsSet.has (JsSet.from L) (id p))) (items paths) in
  fst (removePathsByIds paths L h) =
  if (length N =? length (items paths))%nat then paths
  else {| ref := h; items := N |}.
Proof.
  unfold removePathsByIds, bind, array_filter, new_array, ret. cbn.
  now destruct (length _ =? length _)%nat.
Qed.

Lemma removePaths_result (paths : PathArray) (s : JsSet.t) (h : nat) :
  let N := filter (fun p => negb (JsSet.has s (id p))) (items paths) in
  removePaths paths s h =
  (if (length N =? length (items paths))%nat then paths
   else {| ref := h; items := N |}, S h).
Proof.
  unfold removePaths, bind, array_filter, new_array, ret. cbn.
  now destruct (length _ =? length _)%nat.
Qed.

Lemma removePathsByIds_items (paths : PathArray) (L : list string) (h : nat) :
  items (fst (removePathsByIds paths L h)) =
  filter (fun p => negb (JsSet.has (JsSet.from L) (id p))) (items paths).
Proof.
  rewrite removePathsByIds_result. cbv zeta.
  destruct (Nat.eqb_spec (length (filter (fun p => negb (JsSet.has (JsSet.from L) (id p)))
                                    (items paths))) (length (items paths))) as [E|E].
  - symmetry. now apply filter_same_length.
  - reflexivity.
Qed.

(** C8. Removing the same ids a second time returns the array the first
    call returned. *)
Theorem removePathsByIds_idempotent (S0 : PathArray) (L : list string) (h h' : nat) :
  fst (removePathsByIds (fst (removePathsByIds S0 L h)) L h') =
  fst (removePathsByIds S0 L h).
Proof.
  rewrite (removePathsByIds_result (fst (removePathsByIds S0 L h))). cbv zeta.
  rewrite removePathsByIds_items, filter_twice. now rewrite Nat.eqb_refl.
Qed.

(** C7. When every path of the batch carries an id the array already
    holds, [addPaths] returns its argument itself, the same reference with
    the same content; when no path of the array carries an id of the list,
    so does [removePathsByIds]. *)
Theorem merge_without_change_returns_same_array
    (S0 : PathArray) (P : list Path) (L : list string) (h : nat) :
  ((forall p, In p P -> In (id p) (ids (items S0))) ->
   fst (addPaths S0 P h) = S0 /\ same_ref (fst (addPaths S0 P h)) S0 = true) /\
  ((forall p, In p (items S0) -> ~ In (id p) L) ->
   fst (removePathsByIds S0 L h) = S0 /\
   same_ref (fst (removePathsByIds S0 L h)) S0 = true).
Proof.
  split; intros H.
  - rewrite addPaths_same by assumption. split; [reflexivity|].
    apply Nat.eqb_refl.
  - assert (E : fst (removePathsByIds S0 L h) = S0).
    { rewrite removePathsByIds_result. cbv zeta. rewrite filter_all.
      - now rewrite Nat.eqb_refl.
      - intros p Hp. apply negb_true_iff. apply not_true_is_false.
        rewrite has_from. now apply H. }
    rewrite E. split; [reflexivity | apply Nat.eqb_refl].
Qed.

Lemma merge_without_change_returns_same_array_witness :
  let a := {| id := "a"; color := "#000"; width := 3;
              points := [{| x := 0; y := 0 |}; {| x := 10; y := 10 |}] |} in
  let S0 := {| ref := 4%nat; items := [a] |} in
  (fst (addPaths S0 [a; a] 7%nat) = S0 /\ same_ref (fst (addPaths S0 [a; a] 7%nat)) S0 = true) /\
  (fst (removePathsByIds S0 ["b"%string] 7%nat) = S0 /\
   same_ref (fst (removePathsByIds S0 ["b"%string] 7%nat)) S0 = true).
Proof.
  intros a S0.
  destruct (merge_without_change_returns_same_array S0 [a; a] ["b"%string] 7%nat)
    as [Hadd Hrem].
  split.
  - apply Hadd. intros p [<-|[<-|[]]]; simpl; now left.
  - apply Hrem. intros p [<-|[]]. simpl. intros [E|[]]. discriminate E.
Defined.

(** The other way round: an array allocated earlier that [addPaths] or
    [removePathsByIds] has to change is not the array they return. *)
Lemma merge_with_change_returns_fresh_array
    (S0 : PathArray) (P : list Path) (L : list string) (h : nat) :
  (ref S0 < h)%nat ->
  ((exists p, In p P /\ ~ In (id p) (ids (items S0))) ->
   same_ref (fst (addPaths S0 P h)) S0 = false) /\
  ((exists p, In p (items S0) /\ In (id p) L) ->
   same_ref (fst (removePathsByIds S0 L h)) S0 = false).
Proof.
  intros Hh. split.
  - intros [p [Hp Hn]]. rewrite addPaths_result. cbv zeta.
    assert (Hi : In (id p) (ids (firstById P)))
      by (apply firstById_covers, in_map_iff; now exists p).
    apply in_map_iff in Hi. destruct Hi as [q [Eq Hq]].
    assert (Hr : In q (filter (absentFrom (items S0)) (firstById P))).
    { apply filter_In. split; [assumption|].
      destruct (absentFrom (items S0) q) eqn:E; [reflexivity|].
      apply absentFrom_false in E. rewrite Eq in E. contradiction. }
    destruct (filter (absentFrom (items S0)) (firstById P)); [contradiction|].
    unfold same_ref. simpl.
    destruct (ref S0) as [|m] eqn:R; [reflexivity | apply Nat.eqb_neq; lia].
  - intros [p [Hp Hl]]. rewrite removePathsByIds_result. cbv zeta.
    destruct (Nat.eqb_spec
                (length (filter (fun p => negb (JsSet.has (JsSet.from L) (id p)))
                           (items S0)))
                (length (items S0))) as [E|E].
    + apply filter_same_length in E. rewrite <- E in Hp.
      apply filter_In in Hp. destruct Hp as [_ Hp].
      apply (has_from L (id p)) in Hl. rewrite Hl in Hp. discriminate.
    + unfold same_ref. cbn [ref]. apply Nat.eqb_neq. lia.
Qed.

(** C10. On an array whose ids are pairwise distinct, [addPaths] appends,
    of any batch, the first path of each id that the array does not hold
    yet, in the order of the batch, and nothing else; the ids of the result
    are again pairwise distinct, whatever duplicates the batch has. *)
Theorem addPaths_dedups_batch (S0 : PathArray) (P : list Path) (h : nat) :
  NoDup (ids (items S0)) ->
  items (fst (addPaths S0 P h)) =
    items S0 ++ filter (absentFrom (items S0)) (firstById P) /\
  NoDup (ids (items (fst (addPaths S0 P h)))).
Proof.
  intros N. split; [apply addPaths_items | now apply addPaths_NoDup].
Qed.

Lemma addPaths_dedups_batch_witness :
  let a := {| id := "a"; color := "#000"; width := 3;
              points := [{| x := 0; y := 0 |}; {| x := 10; y := 10 |}] |} in
  let b1 := {| id := "b"; color := "#000"; width := 3;
               points := [{| x := 1; y := 1 |}; {| x := 2; y := 2 |}] |} in
  let b2 := {| id := "b"; color := "#000"; width := 3;
               points := [{| x := 5; y := 5 |}; {| x := 6; y := 6 |}] |} in
  let S0 := {| ref := 0%nat; items := [a] |} in
  items (fst (addPaths S0 [b1; a; b2] 1%nat)) = [a; b1] /\
  NoDup (ids (items (fst (addPaths S0 [b1; a; b2] 1%nat)))).
Proof.
  intros a b1 b2 S0.
  apply (addPaths_dedups_batch S0 [b1; a; b2] 1%nat).
  simpl. constructor; [intros [] | constructor].
Defined.

(** ** Pointer-up of an erase gesture *)

Lemma commitErasing_no_match (ids0 : JsSet.t) (w : CanvasManager.t) :
  (forall p, In p (items (CanvasManager.paths w)) -> JsSet.has ids0 (id p) = false) ->
  CanvasManager.commitErasing ids0 w =
  CanvasManager.set_heap (S (CanvasManager.heap w)) w.
Proof.
  intros H. unfold CanvasManager.commitErasing, CanvasManager.alloc.
  rewrite removePaths_result. cbv zeta. rewrite filter_all.
  - rewrite Nat.eqb_refl. unfold same_ref. now rewrite Nat.eqb_refl.
  - intros p Hp. now rewrite (H p Hp).
Qed.

Lemma commitErasing_match (ids0 : JsSet.t) (w : CanvasManager.t) :
  wellFormed w ->
  (exists p, In p (items (CanvasManager.paths w)) /\ JsSet.has ids0 (id p) = true) ->
  CanvasManager.commitErasing ids0 w =
  CanvasManager.addAndRemovePaths None (Some (JsSet.toArray ids0))
    (CanvasManager.set_paths
       {| ref := CanvasManager.heap w;
          items := filter (fun p => negb (JsSet.has ids0 (id p)))
                     (items (CanvasManager.paths w)) |}
       (CanvasManager.set_heap (S (CanvasManager.heap w)) w)).
Proof.
  intros W [p [Hp Hhas]]. unfold CanvasManager.commitErasing, CanvasManager.alloc.
  rewrite removePaths_result. cbv zeta.
  destruct (Nat.eqb_spec
              (length (filter (fun p => negb (JsSet.has ids0 (id p)))
                         (items (CanvasManager.paths w))))
              (length (items (CanvasManager.paths w)))) as [E|E].
  - apply filter_same_length in E. rewrite <- E in Hp.
    apply filter_In in Hp. destruct Hp as [_ Hp]. rewrite Hhas in Hp. discriminate.
  - unfold same_ref. simpl.
    destruct (Nat.eqb_spec (CanvasManager.heap w) (ref (CanvasManager.paths w))) as [F|F].
    + unfold wellFormed in W. lia.
    + reflexivity.
Qed.

(** ** Invariants of the runs *)

Lemma addPaths_fresh (paths : PathArray) (P : list Path) (h : nat) :
  (ref paths < h)%nat ->
  (ref (fst (addPaths paths P h)) < snd (addPaths paths P h))%nat.
Proof.
  intros H. unfold addPaths, bind, new_array, array_concat, new_array, ret. cbn.
  destruct (length _ =? 0)%nat; simpl; lia.
Qed.

Lemma removePathsByIds_fresh (paths : PathArray) (L : list string) (h : nat) :
  (ref paths < h)%nat ->
  (ref (fst (removePathsByIds paths L h)) < snd (removePathsByIds paths L h))%nat.
Proof.
  intros H. unfold removePathsByIds, bind, array_filter, new_array, ret. cbn.
  destruct (length _ =? length _)%nat; simpl; lia.
Qed.

Lemma wellFormed_commitDrawingPath (dp : Path) (w : CanvasManager.t) :
  wellFormed w -> wellFormed (CanvasManager.commitDrawingPath dp w).
Proof.
  unfold wellFormed, CanvasManager.commitDrawingPath, CanvasManager.alloc,
    array_concat, new_array.
  intros H. destruct (1 <? length (points dp))%nat; cbn; lia.
Qed.

Lemma wellFormed_commitErasing (ids0 : JsSet.t) (w : CanvasManager.t) :
  wellFormed w -> wellFormed (CanvasManager.commitErasing ids0 w).
Proof.
  unfold wellFormed, CanvasManager.commitErasing, CanvasManager.alloc.
  intros H. rewrite removePaths_result. cbv zeta.
  destruct (length _ =? length _)%nat; unfold same_ref; cbn.
  - rewrite Nat.eqb_refl. cbn. lia.
  - destruct (CanvasManager.heap w =? ref (CanvasManager.paths w))%nat; cbn; lia.
Qed.

(** What one callback of a display refresh leaves in place, and what it
    resets. *)
Lemma runCallback_draw (cb : FrameCallback) (w : CanvasManager.t) :
  let w' := CanvasManager.runCallbackOver CanvasManager.draw cb w in
  CanvasManager.animationFrames w' = CanvasManager.animationFrames w /\
  CanvasManager.paths w' = CanvasManager.paths w /\
  CanvasManager.heap w' = CanvasManager.heap w /\
  CanvasManager.serviceCalls w' = CanvasManager.serviceCalls w /\
  CanvasManager.bufferedScrollLeft w' = CanvasManager.bufferedScrollLeft w /\
  CanvasManager.bufferedScrollTop w' = CanvasManager.bufferedScrollTop w /\
  CanvasManager.tickingDraw w' =
    match cb with DrawCallback => false | _ => CanvasManager.tickingDraw w end /\
  CanvasManager.tickingScroll w' =
    match cb with ScrollCallback => false | _ => CanvasManager.tickingScroll w end /\
  CanvasManager.scrollLeft w' =
    match cb with
    | ScrollCallback => CanvasManager.bufferedScrollLeft w
    | _ => CanvasManager.scrollLeft w
    end /\
  CanvasManager.scrollTop w' =
    match cb with
    | ScrollCallback => CanvasManager.bufferedScrollTop w
    | _ => CanvasManager.scrollTop w
    end.
Proof.
  destruct cb;
    unfold CanvasManager.runCallbackOver, CanvasManager.drawCallbackOver,
      CanvasManager.scrollCallbackOver, CanvasManager.draw;
    destruct (CanvasManager.renderingContext w) eqn:E; cbn; rewrite ?E; cbn;
    repeat split; reflexivity.
Qed.

Lemma frames_run (q : list FrameCallback) (w : CanvasManager.t) :
  let w' := fold_left (fun w cb => CanvasManager.runCallbackOver CanvasManager.draw cb w) q w in
  CanvasManager.animationFrames w' = CanvasManager.animationFrames w /\
  CanvasManager.paths w' = CanvasManager.paths w /\
  CanvasManager.heap w' = CanvasManager.heap w /\
  CanvasManager.serviceCalls w' = CanvasManager.serviceCalls w /\
  CanvasManager.bufferedScrollLeft w' = CanvasManager.bufferedScrollLeft w /\
  CanvasManager.bufferedScrollTop w' = CanvasManager.bufferedScrollTop w /\
  CanvasManager.tickingDraw w' =
    (if in_dec FrameCallback_eq_dec DrawCallback q then false
     else CanvasManager.tickingDraw w) /\
  CanvasManager.tickingScroll w' =
    (if in_dec FrameCallback_eq_dec ScrollCallback q then false
     else CanvasManager.tickingScroll w) /\
  CanvasManager.scrollLeft w' =
    (if in_dec FrameCallback_eq_dec ScrollCallback q
     then CanvasManager.bufferedScrollLeft w else CanvasManager.scrollLeft w) /\
  CanvasManager.scrollTop w' =
    (if in_dec FrameCallback_eq_dec ScrollCallback q
     then CanvasManager.bufferedScrollTop w else CanvasManager.scrollTop w).
Proof.
  revert w. induction q as [|cb q IH]; intros w; cbv zeta.
  - simpl. repeat split; reflexivity.
  - cbn [fold_left].
    specialize (IH (CanvasManager.runCallbackOver CanvasManager.draw cb w)).
    cbv zeta in IH.
    destruct IH as (Ha & Hp & Hh & Hs & Hl & Ht & Hd & Hsc & Hsl & Hst).
    destruct (runCallback_draw cb w) as (Ca & Cp & Ch & Cs & Cl & Ct & Cd & Csc & Csl & Cst).
    rewrite Ha, Hp, Hh, Hs, Hl, Ht, Hd, Hsc, Hsl, Hst.
    rewrite Ca, Cp, Ch, Cs, Cl, Ct, Cd, Csc, Csl, Cst.
    repeat split;
      destruct cb;
      repeat match goal with
        | |- context [in_dec ?d ?c ?l] => destruct (in_dec d c l)
        end;
      try reflexivity;
      exfalso; simpl in *; intuition congruence.
Qed.

Lemma wellFormed_step (w : CanvasManager.t) (a : CanvasManager.Action) :
  wellFormed w -> wellFormed (CanvasManager.step w a).
Proof.
  intros W. destruct a; cbn [CanvasManager.step].
  - revert W. unfold wellFormed. open_handlers. open_scheduler. split_cases; auto.
  - revert W. unfold wellFormed. open_handlers. open_scheduler. split_cases; auto.
  - unfold CanvasManager.handleGlobalMouseUp. split_cases; auto;
      match goal with
      | |- wellFormed (_ None (CanvasManager.commitDrawingPath ?d ?v)) =>
          apply (wellFormed_commitDrawingPath d v), W
      | |- wellFormed (_ None (CanvasManager.commitErasing ?i ?v)) =>
          apply (wellFormed_commitErasing i v), W
      end.
  - revert W. unfold wellFormed. open_handlers. open_scheduler. split_cases; auto.
  - revert W. unfold wellFormed. open_handlers. open_scheduler. split_cases; auto.
  - open_handlers. split_cases; auto;
      try (revert W; unfold wellFormed; open_scheduler; split_cases; now auto);
      match goal with
      | |- wellFormed (CanvasManager.set_drawingPath None (CanvasManager.commitDrawingPath ?d ?v)) =>
          apply (wellFormed_commitDrawingPath d v), W
      | |- wellFormed (CanvasManager.set_erasingPathIds None (CanvasManager.commitErasing ?i ?v)) =>
          apply (wellFormed_commitErasing i v), W
      end.
  - revert W. unfold wellFormed. open_handlers. open_scheduler. split_cases; auto.
  - unfold CanvasManager.animationFrame, CanvasManager.animationFrameOver.
    destruct (frames_run (CanvasManager.animationFrames w)
                (CanvasManager.set_animationFrames [] w)) as (_ & Hp & Hh & _).
    unfold wellFormed. rewrite Hp, Hh. exact W.
  - exact W.
  - exact W.
  - unfold CanvasManager.addPaths, CanvasManager.alloc.
    pose proof (addPaths_fresh (CanvasManager.paths w) l (CanvasManager.heap w) W) as F.
    destruct (addPaths _ l _) as [r h]. revert F. unfold wellFormed.
    open_scheduler. split_cases; auto.
  - unfold CanvasManager.removePathsById, CanvasManager.alloc.
    pose proof (removePathsByIds_fresh (CanvasManager.paths w) l (CanvasManager.heap w) W) as F.
    destruct (removePathsByIds _ l _) as [r h]. revert F. unfold wellFormed.
    open_scheduler. split_cases; auto.
  - revert W. unfold wellFormed. open_handlers. split_cases; auto.
Qed.

Lemma scheduled_commitDrawingPath (dp : Path) (w : CanvasManager.t) :
  scheduled w -> scheduled (CanvasManager.commitDrawingPath dp w).
Proof.
  unfold scheduled, CanvasManager.commitDrawingPath, CanvasManager.alloc,
    array_concat, new_array.
  destruct (1 <? length (points dp))%nat; cbn; auto.
Qed.

Lemma scheduled_commitErasing (ids0 : JsSet.t) (w : CanvasManager.t) :
  scheduled w -> scheduled (CanvasManager.commitErasing ids0 w).
Proof.
  unfold scheduled, CanvasManager.commitErasing, CanvasManager.alloc.
  rewrite removePaths_result. cbv zeta.
  destruct (length _ =? length _)%nat; destruct (negb (same_ref _ _)); cbn; auto.
Qed.

Lemma scheduled_step (w : CanvasManager.t) (a : CanvasManager.Action) :
  scheduled w -> scheduled (CanvasManager.step w a).
Proof.
  intros W. destruct a; cbn [CanvasManager.step];
    try (revert W; unfold scheduled; open_handlers; open_scheduler;
         split_cases; now close_scheduled).
  - unfold CanvasManager.handleGlobalMouseUp. split_cases; auto;
      match goal with
      | |- scheduled (_ None (CanvasManager.commitDrawingPath ?d ?v)) =>
          apply (scheduled_commitDrawingPath d v), W
      | |- scheduled (_ None (CanvasManager.commitErasing ?i ?v)) =>
          apply (scheduled_commitErasing i v), W
      | _ => exact W
      end.
  - open_handlers. split_cases; auto;
      try (revert W; unfold scheduled; open_scheduler; split_cases;
           now close_scheduled);
      match goal with
      | |- scheduled (_ None (CanvasManager.commitDrawingPath ?d ?v)) =>
          apply (scheduled_commitDrawingPath d v), W
      | |- scheduled (_ None (CanvasManager.commitErasing ?i ?v)) =>
          apply (scheduled_commitErasing i v), W
      end.
  - unfold CanvasManager.animationFrame, CanvasManager.animationFrameOver.
    destruct (frames_run (CanvasManager.animationFrames w)
                (CanvasManager.set_animationFrames [] w))
      as (Ha & _ & _ & _ & _ & _ & Hd & Hs & _).
    unfold scheduled in *. rewrite Ha, Hd, Hs. cbn.
    destruct W as [Wd Ws].
    destruct (in_dec _ DrawCallback _), (in_dec _ ScrollCallback _);
      intuition discriminate.
  - unfold CanvasManager.addPaths, CanvasManager.alloc.
    destruct (addPaths _ l _) as [r h]. revert W. unfold scheduled.
    open_scheduler. split_cases; close_scheduled.
  - unfold CanvasManager.removePathsById, CanvasManager.alloc.
    destruct (removePathsByIds _ l _) as [r h]. revert W. unfold scheduled.
    open_scheduler. split_cases; close_scheduled.
Qed.

Lemma reachable_invariants (w : CanvasManager.t) :
  reachable w -> wellFormed w /\ scheduled w.
Proof.
  intros [pid [l ->]]. unfold CanvasManager.run.
  induction l as [|a l IH] using rev_ind.
  - split; [unfold wellFormed; simpl; lia|].
    unfold scheduled. simpl. intuition discriminate.
  - rewrite fold_left_app. simpl. destruct IH as [W S].
    split; [now apply wellFormed_step | now apply scheduled_step].
Qed.

(** ** Pointer-up of an erase gesture, continued *)

Lemma keepsOrRemoves_commit (ids0 : JsSet.t) (w v : CanvasManager.t) :
  CanvasManager.paths v = CanvasManager.paths w ->
  CanvasManager.heap v = CanvasManager.heap w ->
  CanvasManager.serviceCalls v = CanvasManager.serviceCalls w ->
  CanvasManager.pictureId v = CanvasManager.pictureId w ->
  wellFormed w ->
  keepsOrRemoves w
    (CanvasManager.set_erasingPathIds None (CanvasManager.commitErasing ids0 v)) ids0.
Proof.
  intros Hp Hh Hs Hi W. unfold keepsOrRemoves. split; [reflexivity|].
  rewrite <- Hp. split.
  - intros H. rewrite (commitErasing_no_match ids0 v H). cbn.
    repeat split; [apply Nat.eqb_refl | assumption].
  - intros H.
    assert (Wv : wellFormed v) by (unfold wellFormed in *; now rewrite Hp, Hh).
    rewrite (commitErasing_match ids0 v Wv H). cbn.
    unfold removedCall. rewrite Hs, Hi. repeat split. intros p Hin Hn.
    apply (has_In ids0 (id p)).
    destruct (JsSet.has ids0 (id p)) eqn:E; [reflexivity|].
    exfalso. apply Hn. apply filter_In. now rewrite E.
Qed.

(** C5. With the eraser selected and a set of ids accumulated, at mouse-up:
    when no path of the stroke set carries one of the ids, the stroke set is
    left as it is, the same array, and the picture service is not called;
    when some path does, the stroke set becomes the paths that carry none of
    the ids and the picture service is called exactly once, with no added
    paths and with the accumulated ids, among them the id of every path that
    went away; the set of ids is given up in both cases.  A touch-end that
    yields a point does the same with the ids extended by the hit test at
    that point. *)
Theorem erase_pointer_up (w : CanvasManager.t) (ids0 : JsSet.t) :
  CanvasManager.tool w = eraser ->
  CanvasManager.erasingPathIds w = Some ids0 ->
  wellFormed w ->
  keepsOrRemoves w (CanvasManager.handleGlobalMouseUp w) ids0 /\
  (forall e p,
     CanvasManager.getPointFromTouchEvent w e false = Some p ->
     keepsOrRemoves w (CanvasManager.handleTouchEnd e w)
       (addToSet ids0 (erase (items (CanvasManager.paths w)) p))).
Proof.
  intros Ht He W. split.
  - unfold CanvasManager.handleGlobalMouseUp. rewrite Ht, He.
    now apply keepsOrRemoves_commit.
  - intros e p Hp.
    unfold CanvasManager.handleTouchEnd, CanvasManager.handleTouchEnd_eraser.
    rewrite Ht, Hp, He. now apply keepsOrRemoves_commit.
Qed.

Lemma erase_pointer_up_witness :
  CanvasManager.serviceCalls (CanvasManager.handleGlobalMouseUp (erasingAt 1 1)) =
    CanvasManager.serviceCalls (erasingAt 1 1) ++
    [removedCall (erasingAt 1 1) (JsSet.toArray ["a"%string])] /\
  CanvasManager.serviceCalls (CanvasManager.handleGlobalMouseUp (erasingAt 5 5)) =
    CanvasManager.serviceCalls (erasingAt 5 5).
Proof.
  split.
  - destruct (erase_pointer_up (erasingAt 1 1) ["a"%string])
      as [(_ & _ & Hmatch) _].
    + vm_compute. reflexivity.
    + vm_compute. reflexivity.
    + unfold wellFormed. vm_compute. lia.
    + destruct Hmatch as (_ & Hcalls & _).
      * exists strokeA. vm_compute. split; [left|]; reflexivity.
      * exact Hcalls.
  - destruct (erase_pointer_up (erasingAt 5 5) []) as [(_ & Hnone & _) _].
    + vm_compute. reflexivity.
    + vm_compute. reflexivity.
    + unfold wellFormed. vm_compute. lia.
    + destruct Hnone as (_ & _ & Hcalls).
      * intros p Hp. reflexivity.
      * exact Hcalls.
Defined.

(** The erase scenario from start to end: the stroke set holds [strokeA],
    the eraser goes down at [(1,1)] and up again; ["a"] is emitted as
    removed and the stroke set is empty. *)
Example erase_scenario :
  erase [strokeA] {| x := 1; y := 1 |} = ["a"%string] /\
  CanvasManager.erasingPathIds (erasingAt 1 1) = Some ["a"%string] /\
  CanvasManager.serviceCalls (CanvasManager.handleGlobalMouseUp (erasingAt 1 1)) =
    [{| callPictureId := "p"; added := None; removed := Some ["a"%string] |}] /\
  items (CanvasManager.paths (CanvasManager.handleGlobalMouseUp (erasingAt 1 1))) = [].
Proof. repeat split; vm_compute; reflexivity. Qed.

(** ** Pointer-up of a draw gesture *)

Lemma commitDrawingPath_short (dp : Path) (w : CanvasManager.t) :
  (length (points dp) <= 1)%nat -> CanvasManager.commitDrawingPath dp w = w.
Proof.
  intros H. unfold CanvasManager.commitDrawingPath.
  destruct (Nat.ltb_spec 1 (length (points dp))); [lia | reflexivity].
Qed.

Lemma commitDrawingPath_long (dp : Path) (w : CanvasManager.t) :
  (2 <= length (points dp))%nat ->
  CanvasManager.commitDrawingPath dp w =
  CanvasManager.addAndRemovePaths (Some [dp]) None
    (CanvasManager.set_paths
       {| ref := CanvasManager.heap w; items := items (CanvasManager.paths w) ++ [dp] |}
       (CanvasManager.set_heap (S (CanvasManager.heap w)) w)).
Proof.
  intros H. unfold CanvasManager.commitDrawingPath.
  destruct (Nat.ltb_spec 1 (length (points dp))); [reflexivity | lia].
Qed.

Lemma dropsOrCommits_commit (dp : Path) (w v : CanvasManager.t) :
  CanvasManager.paths v = CanvasManager.paths w ->
  CanvasManager.heap v = CanvasManager.heap w ->
  CanvasManager.serviceCalls v = CanvasManager.serviceCalls w ->
  CanvasManager.pictureId v = CanvasManager.pictureId w ->
  dropsOrCommits w
    (CanvasManager.set_drawingPath None (CanvasManager.commitDrawingPath dp v)) dp.
Proof.
  intros Hp Hh Hs Hi. unfold dropsOrCommits. split; [reflexivity|]. split; intros H.
  - rewrite (commitDrawingPath_short dp v H). cbn. auto.
  - rewrite (commitDrawingPath_long dp v H). cbn.
    unfold addedCall. rewrite Hp, Hs, Hi. auto.
Qed.

Lemma points_pushPointOf (dp : Path) (p : Point) (l : list Point) (q : Point) :
  points dp = l ++ [q] ->
  points (CanvasManager.pushPointOf dp p) =
  if Point_eq_dec q p then l ++ [q] else (l ++ [q]) ++ [p].
Proof.
  intros E. unfold CanvasManager.pushPointOf. rewrite E, pushPoint_snoc.
  destruct (Point_eq_dec q p); simpl; [reflexivity | now rewrite <- app_assoc].
Qed.

(** C2, as the code has it.  With the pen selected and a path in progress:
    a mouse-up tests the path as recorded, a touch-end that yields a point
    first pushes that point on the path (unless it is the last point again)
    and tests the path so extended.  In both, a tested path of at most one
    point is neither committed nor emitted, a tested path of two points or
    more is appended to the stroke set and emitted alone in exactly one
    call, and the path in progress is given up. *)
Theorem draw_pointer_up (w : CanvasManager.t) (dp : Path) :
  CanvasManager.tool w = pen ->
  CanvasManager.drawingPath w = Some dp ->
  dropsOrCommits w (CanvasManager.handleGlobalMouseUp w) dp /\
  (forall e p,
     CanvasManager.getPointFromTouchEvent w e false = Some p ->
     dropsOrCommits w (CanvasManager.handleTouchEnd e w) (CanvasManager.pushPointOf dp p) /\
     (forall l q,
        points dp = l ++ [q] ->
        points (CanvasManager.pushPointOf dp p) =
        if Point_eq_dec q p then l ++ [q] else (l ++ [q]) ++ [p])).
Proof.
  intros Ht Hd. split.
  - unfold CanvasManager.handleGlobalMouseUp. rewrite Ht, Hd.
    now apply dropsOrCommits_commit.
  - intros e p Hp. split.
    + unfold CanvasManager.handleTouchEnd, CanvasManager.handleTouchEnd_pen.
      rewrite Ht, Hp, Hd. now apply dropsOrCommits_commit.
    + intros l q E. now apply points_pushPointOf.
Qed.

Lemma draw_pointer_up_witness :
  CanvasManager.serviceCalls (CanvasManager.handleGlobalMouseUp mouseDrawn) =
    CanvasManager.serviceCalls mouseDrawn ++ [addedCall mouseDrawn strokeOfTwoPoints] /\
  CanvasManager.serviceCalls
    (CanvasManager.handleTouchEnd (fingerAt 0 0) oneTouchPoint) =
    CanvasManager.serviceCalls oneTouchPoint.
Proof.
  split.
  - destruct (draw_pointer_up mouseDrawn strokeOfTwoPoints) as [(_ & _ & Hc) _].
    + vm_compute. reflexivity.
    + vm_compute. reflexivity.
    + apply Hc. vm_compute. lia.
  - destruct (draw_pointer_up oneTouchPoint strokeOfOnePoint) as [_ Ht].
    + vm_compute. reflexivity.
    + vm_compute. reflexivity.
    + destruct (Ht (fingerAt 0 0) {| x := 0; y := 0 |}) as [(_ & Hd & _) _].
      * vm_compute. reflexivity.
      * apply Hd. vm_compute. lia.
Defined.

(** C2 as stated fails on a touch gesture: a finger goes down at [(0,0)]
    and is lifted at [(5,5)] with no move in between.  At the touch-end the
    path in progress has exactly one recorded point, and yet the path is
    committed, with the point of the touch-end as its second point, and
    emitted. *)
Lemma touch_end_commits_path_of_one_recorded_point :
  CanvasManager.tool oneTouchPoint = pen /\
  CanvasManager.drawingPath oneTouchPoint = Some strokeOfOnePoint /\
  length (points strokeOfOnePoint) = 1%nat /\
  items (CanvasManager.paths oneTouchPoint) = [] /\
  CanvasManager.serviceCalls oneTouchPoint = [] /\
  items (CanvasManager.paths
           (CanvasManager.handleTouchEnd (fingerAt 5 5) oneTouchPoint)) =
    [{| id := "0"; color := "#000"; width := 3;
        points := [{| x := 0; y := 0 |}; {| x := 5; y := 5 |}] |}] /\
  CanvasManager.serviceCalls
    (CanvasManager.handleTouchEnd (fingerAt 5 5) oneTouchPoint) =
    [{| callPictureId := "p";
        added := Some [{| id := "0"; color := "#000"; width := 3;
                          points := [{| x := 0; y := 0 |}; {| x := 5; y := 5 |}] |}];
        removed := None |}] /\
  ~ (CanvasManager.paths (CanvasManager.handleTouchEnd (fingerAt 5 5) oneTouchPoint) =
       CanvasManager.paths oneTouchPoint /\
     CanvasManager.serviceCalls
       (CanvasManager.handleTouchEnd (fingerAt 5 5) oneTouchPoint) =
       CanvasManager.serviceCalls oneTouchPoint).
Proof.
  repeat split; try (vm_compute; reflexivity).
  intros [_ H]. vm_compute in H. discriminate H.
Qed.

(** ** Panning *)

Lemma pan_by_mouse_move (w : CanvasManager.t) (e : MouseEvent) :
  CanvasManager.tool w = hand ->
  CanvasManager.handScrollingByMouse w = true ->
  CanvasManager.bufferedScrollLeft (CanvasManager.handleMouseMove e w) =
    CanvasManager.bufferedScrollLeft w +
    (CanvasManager.prevX w - x (CanvasManager.getPointFromMouseEvent w e true)) /\
  CanvasManager.bufferedScrollTop (CanvasManager.handleMouseMove e w) =
    CanvasManager.bufferedScrollTop w +
    (CanvasManager.prevY w - y (CanvasManager.getPointFromMouseEvent w e true)) /\
  CanvasManager.prevX (CanvasManager.handleMouseMove e w) =
    x (CanvasManager.getPointFromMouseEvent w e true) /\
  CanvasManager.prevY (CanvasManager.handleMouseMove e w) =
    y (CanvasManager.getPointFromMouseEvent w e true) /\
  CanvasManager.tickingScroll (CanvasManager.handleMouseMove e w) = true.
Proof.
  intros Ht Hh. unfold CanvasManager.handleMouseMove. rewrite Ht, Hh.
  open_scheduler. cbn. destruct (CanvasManager.tickingScroll w) eqn:E; cbn; auto.
Qed.

Lemma pan_by_touch_move (w : CanvasManager.t) (e : TouchEvent) (p : Point) :
  CanvasManager.tool w = hand ->
  CanvasManager.getPointFromTouchEvent w e true = Some p ->
  CanvasManager.bufferedScrollLeft (CanvasManager.handleTouchMove e w) =
    CanvasManager.bufferedScrollLeft w + (CanvasManager.prevX w - x p) /\
  CanvasManager.bufferedScrollTop (CanvasManager.handleTouchMove e w) =
    CanvasManager.bufferedScrollTop w + (CanvasManager.prevY w - y p) /\
  CanvasManager.prevX (CanvasManager.handleTouchMove e w) = x p /\
  CanvasManager.prevY (CanvasManager.handleTouchMove e w) = y p /\
  CanvasManager.tickingScroll (CanvasManager.handleTouchMove e w) = true.
Proof.
  intros Ht Hp.
  unfold CanvasManager.handleTouchMove, CanvasManager.handleTouchMove_default.
  rewrite Ht, Hp. open_scheduler. cbn.
  destruct (CanvasManager.tickingScroll w) eqn:E; cbn; auto.
Qed.

(** The touch-end of a pan adds both differences to [bufferedScrollLeft]
    and leaves [bufferedScrollTop] as it is. *)
Lemma pan_by_touch_end (w : CanvasManager.t) (e : TouchEvent) (p : Point) :
  CanvasManager.tool w = hand ->
  CanvasManager.getPointFromTouchEvent w e true = Some p ->
  CanvasManager.bufferedScrollLeft (CanvasManager.handleTouchEnd e w) =
    CanvasManager.bufferedScrollLeft w + (CanvasManager.prevX w - x p) +
    (CanvasManager.prevY w - y p) /\
  CanvasManager.bufferedScrollTop (CanvasManager.handleTouchEnd e w) =
    CanvasManager.bufferedScrollTop w.
Proof.
  intros Ht Hp.
  unfold CanvasManager.handleTouchEnd, CanvasManager.handleTouchEnd_default.
  rewrite Ht, Hp. open_scheduler. cbn.
  destruct (CanvasManager.tickingScroll w) eqn:E; cbn; auto.
Qed.


(** C3, at the touch-end of a pan.  From the anchor [(100,100)], a
    touch-move or a mouse-move to [(90,95)] adds 10 to [bufferedScrollLeft]
    and 5 to [bufferedScrollTop]; a touch-end at [(90,95)] adds 15 to
    [bufferedScrollLeft] and nothing to [bufferedScrollTop].  In each case the
    next display refresh copies the buffered offset to [scrollLeft] and
    [scrollTop]. *)
Theorem touch_end_pan_adds_both_differences_to_bufferedScrollLeft :
  (CanvasManager.prevX touchPanAnchored = 100 /\
   CanvasManager.prevY touchPanAnchored = 100 /\
   CanvasManager.bufferedScrollLeft touchPanAnchored = 0 /\
   CanvasManager.bufferedScrollTop touchPanAnchored = 0) /\
  (CanvasManager.bufferedScrollLeft
     (CanvasManager.handleTouchEnd (fingerAt 90 95) touchPanAnchored) = 15 /\
   CanvasManager.bufferedScrollTop
     (CanvasManager.handleTouchEnd (fingerAt 90 95) touchPanAnchored) = 0) /\
  (CanvasManager.bufferedScrollLeft
     (CanvasManager.handleTouchMove (fingerAt 90 95) touchPanAnchored) = 10 /\
   CanvasManager.bufferedScrollTop
     (CanvasManager.handleTouchMove (fingerAt 90 95) touchPanAnchored) = 5) /\
  (CanvasManager.bufferedScrollLeft
     (CanvasManager.handleMouseMove (mouseAt 90 95) mousePanAnchored) = 10 /\
   CanvasManager.bufferedScrollTop
     (CanvasManager.handleMouseMove (mouseAt 90 95) mousePanAnchored) = 5) /\
  (CanvasManager.scrollLeft
     (CanvasManager.animationFrame
        (CanvasManager.handleTouchEnd (fingerAt 90 95) touchPanAnchored)) = 15 /\
   CanvasManager.scrollTop
     (CanvasManager.animationFrame
        (CanvasManager.handleTouchEnd (fingerAt 90 95) touchPanAnchored)) = 0) /\
  (CanvasManager.scrollLeft
     (CanvasManager.animationFrame
        (CanvasManager.handleTouchMove (fingerAt 90 95) touchPanAnchored)) = 10 /\
   CanvasManager.scrollTop
     (CanvasManager.animationFrame
        (CanvasManager.handleTouchMove (fingerAt 90 95) touchPanAnchored)) = 5).
Proof.
  repeat split; vm_compute; reflexivity.
Qed.

(** ** Frame scheduler *)

Lemma refresh_settles (w : CanvasManager.t) :
  scheduled w ->
  CanvasManager.animationFrames (CanvasManager.animationFrame w) = [] /\
  CanvasManager.tickingDraw (CanvasManager.animationFrame w) = false /\
  CanvasManager.tickingScroll (CanvasManager.animationFrame w) = false.
Proof.
  intros [Hd Hs].
  unfold CanvasManager.animationFrame, CanvasManager.animationFrameOver.
  destruct (frames_run (CanvasManager.animationFrames w)
              (CanvasManager.set_animationFrames [] w))
    as (Ha & _ & _ & _ & _ & _ & Fd & Fs & _).
  rewrite Ha, Fd, Fs. cbn. split; [reflexivity|].
  destruct (in_dec _ DrawCallback _), (in_dec _ ScrollCallback _);
    split; try reflexivity;
    try (destruct (CanvasManager.tickingDraw w); [exfalso; tauto | reflexivity]);
    try (destruct (CanvasManager.tickingScroll w); [exfalso; tauto | reflexivity]).
Qed.

(** C4, as the code has it.  On both channels a request made while one is
    pending changes nothing, and a request made while none is pending
    raises the flag and queues one callback.  When the scroll-apply
    callback runs, the buffered offset is applied and [tickingScroll] is
    lowered before the callee is called: a callee that asks for a
    scroll-apply gets a fresh callback queued.  When the redraw callback
    runs, [tickingDraw] is lowered only after the callee has returned: the
    callee runs with the flag as it was, and a redraw it asks for while the
    flag is up is not queued.  [draw], the callee of both in the source,
    asks for neither; so a display refresh leaves no callback queued and
    both flags down. *)
Theorem scheduler_channels (w : CanvasManager.t)
    (callee : CanvasManager.t -> CanvasManager.t) :
  (CanvasManager.tickingDraw w = true -> CanvasManager.tickDraw w = w) /\
  (CanvasManager.tickingScroll w = true -> CanvasManager.tickScroll w = w) /\
  (CanvasManager.tickingDraw w = false ->
   CanvasManager.tickingDraw (CanvasManager.tickDraw w) = true /\
   CanvasManager.animationFrames (CanvasManager.tickDraw w) =
     CanvasManager.animationFrames w ++ [DrawCallback]) /\
  (CanvasManager.tickingScroll w = false ->
   CanvasManager.tickingScroll (CanvasManager.tickScroll w) = true /\
   CanvasManager.animationFrames (CanvasManager.tickScroll w) =
     CanvasManager.animationFrames w ++ [ScrollCallback]) /\
  (exists w0,
     CanvasManager.scrollCallbackOver callee w = callee w0 /\
     CanvasManager.tickingScroll w0 = false /\
     CanvasManager.scrollLeft w0 = CanvasManager.bufferedScrollLeft w /\
     CanvasManager.scrollTop w0 = CanvasManager.bufferedScrollTop w /\
     CanvasManager.animationFrames w0 = CanvasManager.animationFrames w) /\
  (CanvasManager.tickingScroll
     (CanvasManager.scrollCallbackOver drawAndTickScroll w) = true /\
   CanvasManager.animationFrames
     (CanvasManager.scrollCallbackOver drawAndTickScroll w) =
     CanvasManager.animationFrames w ++ [ScrollCallback]) /\
  (CanvasManager.drawCallbackOver callee w =
     CanvasManager.set_tickingDraw false (callee w) /\
   CanvasManager.tickingDraw (CanvasManager.drawCallbackOver callee w) = false) /\
  (CanvasManager.tickingDraw w = true ->
   CanvasManager.tickingDraw
     (CanvasManager.drawCallbackOver drawAndTickDraw w) = false /\
   CanvasManager.animationFrames
     (CanvasManager.drawCallbackOver drawAndTickDraw w) =
     CanvasManager.animationFrames w) /\
  (CanvasManager.tickingDraw (CanvasManager.draw w) = CanvasManager.tickingDraw w /\
   CanvasManager.tickingScroll (CanvasManager.draw w) = CanvasManager.tickingScroll w /\
   CanvasManager.animationFrames (CanvasManager.draw w) =
     CanvasManager.animationFrames w) /\
  (scheduled w ->
   CanvasManager.animationFrames (CanvasManager.animationFrame w) = [] /\
   CanvasManager.tickingDraw (CanvasManager.animationFrame w) = false /\
   CanvasManager.tickingScroll (CanvasManager.animationFrame w) = false).
Proof.
  split; [intros H; unfold CanvasManager.tickDraw; now rewrite H|].
  split; [intros H; unfold CanvasManager.tickScroll; now rewrite H|].
  split; [intros H; unfold CanvasManager.tickDraw; rewrite H; cbn; now split|].
  split; [intros H; unfold CanvasManager.tickScroll; rewrite H; cbn; now split|].
  split.
  { eexists. unfold CanvasManager.scrollCallbackOver. cbv zeta.
    split; [reflexivity|]. cbn. repeat split. }
  split.
  { unfold CanvasManager.scrollCallbackOver, drawAndTickScroll,
      CanvasManager.tickScroll, CanvasManager.requestAnimationFrame,
      CanvasManager.draw. cbn.
    destruct (CanvasManager.renderingContext w); cbn; now split. }
  split; [split; reflexivity|].
  split.
  { intros H. unfold CanvasManager.drawCallbackOver, drawAndTickDraw,
      CanvasManager.tickDraw, CanvasManager.draw.
    destruct (CanvasManager.renderingContext w); cbn; rewrite H; cbn; now split. }
  split.
  { unfold CanvasManager.draw.
    destruct (CanvasManager.renderingContext w); cbn; repeat split. }
  apply refresh_settles.
Qed.

Lemma scheduler_channels_witness :
  CanvasManager.tickDraw (CanvasManager.tickDraw attached) =
    CanvasManager.tickDraw attached /\
  CanvasManager.animationFrames
    (CanvasManager.animationFrame (CanvasManager.tickDraw attached)) = [].
Proof.
  destruct (scheduler_channels (CanvasManager.tickDraw attached)
              CanvasManager.draw)
    as (Hd & _ & _ & _ & _ & _ & _ & _ & _ & Hr).
  split.
  - apply Hd. vm_compute. reflexivity.
  - apply Hr. unfold scheduled. vm_compute. intuition (try discriminate; auto).
Defined.

(** C4 as stated fails on the redraw channel.  A redraw is pending; the
    display refresh runs its callback with a callee that, as the claim puts
    it, requests the same channel again.  The request finds [tickingDraw]
    still up and queues nothing, and the flag is lowered afterwards: no
    callback is queued for the next refresh.  The same on the scroll-apply
    channel does queue a fresh callback. *)
Lemma redraw_requested_by_the_redraw_callee_is_dropped :
  CanvasManager.tickingDraw (CanvasManager.tickDraw attached) = true /\
  CanvasManager.animationFrames (CanvasManager.tickDraw attached) =
    [DrawCallback] /\
  CanvasManager.animationFrames
    (CanvasManager.animationFrameOver drawAndTickDraw
       (CanvasManager.tickDraw attached)) = [] /\
  CanvasManager.tickingDraw
    (CanvasManager.animationFrameOver drawAndTickDraw
       (CanvasManager.tickDraw attached)) = false /\
  CanvasManager.animationFrames
    (CanvasManager.animationFrameOver drawAndTickScroll
       (CanvasManager.tickScroll attached)) = [ScrollCallback].
Proof.
  repeat split; vm_compute; reflexivity.
Qed.

(** * Further properties of the path functions *)

(** ** [isCloser] and [erase] *)

(** X1. [isCloser] does not depend on the order of the two points nor on
    the sign of the radius, holds of a point and itself for every radius,
    and a pair within a radius is within every larger one. *)
Theorem isCloser_symmetric_monotone (p1 p2 : Point) (r r' : Z) :
  isCloser p1 p2 r = isCloser p2 p1 r /\
  isCloser p1 p2 (- r) = isCloser p1 p2 r /\
  isCloser p1 p1 r = true /\
  (Z.abs r <= Z.abs r' -> isCloser p1 p2 r = true -> isCloser p1 p2 r' = true).
Proof.
  unfold isCloser. repeat split.
  - f_equal. ring.
  - f_equal. ring.
  - apply Z.leb_le. nia.
  - intros Hr H. apply Z.leb_le in H. apply Z.leb_le.
    assert (r ^ 2 <= r' ^ 2) by nia. lia.
Qed.

Lemma isCloser_symmetric_monotone_witness :
  isCloser {| x := 1; y := 1 |} {| x := 0; y := 0 |} 5 = true.
Proof.
  apply (proj2 (proj2 (proj2
    (isCloser_symmetric_monotone {| x := 1; y := 1 |} {| x := 0; y := 0 |} (-3) 5)))).
  - simpl. lia.
  - reflexivity.
Defined.

Lemma erase_app (l1 l2 : list Path) (p : Point) :
  erase (l1 ++ l2) p = erase l1 p ++ erase l2 p.
Proof. now rewrite !erase_filter, filter_app, map_app. Qed.

(** X2. The hit test of an empty set is empty; the hit test of a set
    made of two parts is the hit test of the first followed by that of the
    second; a path without points is never hit; the ids returned are ids of
    paths of the set, at most one per path. *)
Theorem erase_distributes (l1 l2 : list Path) (p : Point) :
  erase [] p = [] /\
  erase (l1 ++ l2) p = erase l1 p ++ erase l2 p /\
  (forall path, points path = [] -> erase (l1 ++ path :: l2) p = erase (l1 ++ l2) p) /\
  incl (erase l1 p) (ids l1) /\
  (length (erase l1 p) <= length l1)%nat.
Proof.
  split; [reflexivity|]. split; [apply erase_app|]. split; [|split].
  - intros path E. rewrite !erase_app. f_equal.
    change (path :: l2) with ([path] ++ l2). rewrite erase_app.
    unfold erase at 1. simpl. now rewrite E.
  - intros i Hi. rewrite erase_filter in Hi. apply in_map_iff in Hi.
    destruct Hi as [q [E Hq]]. apply filter_In in Hq.
    apply in_map_iff. exists q. tauto.
  - rewrite erase_filter, length_map. apply filter_length_le.
Qed.

(** ** [addToSet] *)

Lemma add_NoDup (s : JsSet.t) (v : string) : NoDup s -> NoDup (JsSet.add s v).
Proof.
  intros H. unfold JsSet.add. destruct (JsSet.has s v) eqn:E; [assumption|].
  apply NoDup_append; [assumption | repeat constructor; simpl; tauto |].
  intros a Ha [Ea|[]]. subst a. apply (has_In s v) in Ha. congruence.
Qed.

Lemma addToSet_NoDup (l : list string) (s : JsSet.t) :
  NoDup s -> NoDup (addToSet s l).
Proof.
  unfold addToSet. revert s. induction l as [|v l IH]; intros s H; simpl;
    [assumption | now apply IH, add_NoDup].
Qed.

Lemma from_NoDup (l : list string) : NoDup (JsSet.from l).
Proof. apply (addToSet_NoDup l JsSet.empty). constructor. Qed.

Lemma addToSet_In (l : list string) (s : JsSet.t) (u : string) :
  In u (addToSet s l) <-> In u s \/ In u l.
Proof.
  rewrite <- !(has_In _ u), has_addToSet, orb_true_iff.
  rewrite (has_In s u). unfold JsSet.has at 1.
  now rewrite (has_In l u).
Qed.

Lemma addToSet_present (l : list string) (s : JsSet.t) :
  (forall u, In u l -> In u s) -> addToSet s l = s.
Proof.
  unfold addToSet. induction l as [|v l IH]; intros H; simpl; [reflexivity|].
  unfold JsSet.add at 2.
  rewrite (proj2 (has_In s v) (H v (or_introl eq_refl))).
  apply IH. intros u Hu. apply H. now right.
Qed.

Lemma addToSet_extends (l : list string) (s : JsSet.t) :
  exists t, addToSet s l = s ++ t.
Proof.
  unfold addToSet. revert s. induction l as [|v l IH]; intros s; simpl.
  - exists []. now rewrite app_nil_r.
  - destruct (IH (JsSet.add s v)) as [t Ht]. rewrite Ht.
    unfold JsSet.add. destruct (JsSet.has s v).
    + now exists t.
    + exists ([v] ++ t). now rewrite app_assoc.
Qed.

(** X3. [addToSet] keeps the members of the set, in their order, and
    adds after them the new items, each once: a set without duplicates stays
    without duplicates, its members afterwards are the old members and the
    items, and adding the same items again changes nothing. *)
Theorem addToSet_accumulates (s : JsSet.t) (l : list string) :
  (exists t, addToSet s l = s ++ t) /\
  (forall u, In u (addToSet s l) <-> In u s \/ In u l) /\
  addToSet (addToSet s l) l = addToSet s l /\
  (NoDup s -> NoDup (addToSet s l)) /\
  NoDup (JsSet.from l).
Proof.
  split; [apply addToSet_extends|]. split; [apply addToSet_In|].
  split; [|split; [apply addToSet_NoDup | apply from_NoDup]].
  apply addToSet_present. intros u Hu. apply addToSet_In. now right.
Qed.

Lemma addToSet_accumulates_witness :
  NoDup (addToSet ["a"; "b"]%string ["b"; "c"; "c"]%string).
Proof.
  apply (proj1 (proj2 (proj2 (proj2
    (addToSet_accumulates ["a"; "b"]%string ["b"; "c"; "c"]%string))))).
  repeat constructor; simpl; intuition discriminate.
Defined.

(** ** Composition of the merges *)

(** X4. With nothing to add or nothing to remove, and on an empty array,
    the merges return the array they were given, the same reference. *)
Theorem merge_on_empty_input (S0 : PathArray) (r h : nat) (L : list string)
    (s : JsSet.t) :
  fst (addPaths S0 [] h) = S0 /\
  fst (removePathsByIds S0 [] h) = S0 /\
  fst (removePaths S0 JsSet.empty h) = S0 /\
  fst (removePathsByIds {| ref := r; items := [] |} L h) = {| ref := r; items := [] |} /\
  fst (removePaths {| ref := r; items := [] |} s h) = {| ref := r; items := [] |}.
Proof.
  split; [apply addPaths_same; intros p []|].
  split.
  { rewrite removePathsByIds_result. cbv zeta.
    rewrite filter_all; [now rewrite Nat.eqb_refl | reflexivity]. }
  split.
  { rewrite removePaths_result. cbv zeta. simpl.
    rewrite filter_all; [now rewrite Nat.eqb_refl | reflexivity]. }
  split; reflexivity.
Qed.

Lemma absentFrom_app (l1 l2 : list Path) (q : Path) :
  absentFrom (l1 ++ l2) q = absentFrom l1 q && absentFrom l2 q.
Proof.
  unfold absentFrom, ids. now rewrite map_app, existsb_app, negb_orb.
Qed.

Lemma firstById_app (l1 l2 : list Path) :
  firstById (l1 ++ l2) = firstById l1 ++ filter (absentFrom l1) (firstById l2).
Proof.
  induction l1 as [|p l1 IH]; simpl.
  - symmetry. now apply filter_all.
  - f_equal. rewrite IH, filter_app. f_equal.
    rewrite filter_both. apply filter_ext. intros q.
    unfold absentFrom. simpl. rewrite negb_orb. apply andb_comm.
Qed.

Lemma absentFrom_added (S1 P : list Path) (q : Path) :
  absentFrom (S1 ++ filter (absentFrom S1) (firstById P)) q =
  absentFrom S1 q && absentFrom P q.
Proof.
  rewrite absentFrom_app. destruct (absentFrom S1 q) eqn:E; [simpl | reflexivity].
  destruct (absentFrom P q) eqn:F.
  - destruct (absentFrom (filter _ _) q) eqn:G; [reflexivity|].
    apply absentFrom_false, in_map_iff in G. destruct G as [t [Et Ht]].
    apply filter_In in Ht. destruct Ht as [Ht _]. apply firstById_incl in Ht.
    assert (In (id q) (ids P)) by (apply in_map_iff; now exists t).
    apply absentFrom_false in H. congruence.
  - apply absentFrom_false in F. apply firstById_covers in F.
    apply in_map_iff in F. destruct F as [t [Et Ht]].
    apply absentFrom_false. apply in_map_iff. exists t. split; [assumption|].
    apply filter_In. split; [assumption|].
    unfold absentFrom in *. now rewrite Et.
Qed.

(** X5. Delivering a batch in two parts, one after the other, gives the
    stroke set that delivering it whole gives. *)
Theorem addPaths_in_two_parts (S0 : PathArray) (P1 P2 : list Path) (h h' h'' : nat) :
  items (fst (addPaths (fst (addPaths S0 P1 h)) P2 h')) =
  items (fst (addPaths S0 (P1 ++ P2) h'')).
Proof.
  rewrite !addPaths_items, firstById_app, filter_app, <- app_assoc.
  do 2 f_equal. rewrite filter_both. apply filter_ext. intros q.
  rewrite absentFrom_added. apply andb_comm.
Qed.

Lemma has_from_app (L1 L2 : list string) (u : string) :
  JsSet.has (JsSet.from (L1 ++ L2)) u =
  JsSet.has (JsSet.from L1) u || JsSet.has (JsSet.from L2) u.
Proof. now rewrite !has_from_existsb, existsb_app. Qed.

(** X6. Removing two lists of ids one after the other leaves the paths
    that removing their concatenation leaves, in either order. *)
Theorem removePathsByIds_in_two_parts (S0 : PathArray) (L1 L2 : list string)
    (h h' h'' : nat) :
  items (fst (removePathsByIds (fst (removePathsByIds S0 L1 h)) L2 h')) =
    items (fst (removePathsByIds S0 (L1 ++ L2) h'')) /\
  items (fst (removePathsByIds (fst (removePathsByIds S0 L1 h)) L2 h')) =
    items (fst (removePathsByIds (fst (removePathsByIds S0 L2 h)) L1 h')).
Proof.
  rewrite !removePathsByIds_items, !filter_both. split; apply filter_ext; intros q.
  - now rewrite has_from_app, negb_orb.
  - apply andb_comm.
Qed.

(** X7. Paths that were added to a set holding none of their ids are taken
    out again by removing their ids: the stroke set is back to the paths it
    had.  And whatever is removed, the paths that stay keep their order and
    none of them carries a removed id. *)
Theorem removePathsByIds_undoes_addPaths (S0 : PathArray) (P : list Path)
    (L : list string) (h h' : nat) :
  ((forall p, In p P -> ~ In (id p) (ids (items S0))) ->
   items (fst (removePathsByIds (fst (addPaths S0 P h)) (ids P) h')) = items S0) /\
  (forall p, In p (items (fst (removePathsByIds S0 L h))) ->
     In p (items S0) /\ ~ In (id p) L).
Proof.
  split.
  - intros H. rewrite removePathsByIds_items, addPaths_items, filter_app.
    rewrite filter_all, filter_none; [apply app_nil_r | |].
    + intros q Hq. apply filter_In in Hq. destruct Hq as [Hq _].
      apply firstById_incl in Hq. apply negb_false_iff.
      apply has_from. apply in_map_iff. now exists q.
    + intros q Hq. apply negb_true_iff, not_true_is_false. rewrite has_from.
      intros Hi. apply in_map_iff in Hi. destruct Hi as [t [Et Ht]].
      apply (H t Ht). rewrite Et. apply in_map_iff. now exists q.
  - intros p Hp. rewrite removePathsByIds_items in Hp. apply filter_In in Hp.
    destruct Hp as [Hp Hn]. split; [assumption|].
    apply negb_true_iff in Hn. rewrite <- has_from. congruence.
Qed.

Lemma removePathsByIds_undoes_addPaths_witness :
  items (fst (removePathsByIds
                (fst (addPaths {| ref := 0%nat; items := [strokeA] |}
                        [strokeOfTwoPoints; strokeOfOnePoint] 1%nat))
                (ids [strokeOfTwoPoints; strokeOfOnePoint]) 3%nat)) = [strokeA].
Proof.
  apply (proj1 (removePathsByIds_undoes_addPaths
                  {| ref := 0%nat; items := [strokeA] |}
                  [strokeOfTwoPoints; strokeOfOnePoint] [] 1%nat 3%nat)).
  intros p [<-|[<-|[]]]; simpl; intuition discriminate.
Defined.

(** * Further properties of the manager *)

(** ** Coalescing of frame requests *)

Lemma NoDup_queue (q : list FrameCallback) (cb : FrameCallback) :
  NoDup q -> ~ In cb q -> NoDup (q ++ [cb]).
Proof.
  intros H N. apply NoDup_append; [assumption | repeat constructor; simpl; tauto |].
  intros a Ha [E|[]]. subst a. contradiction.
Qed.

Lemma coalesced_step (w : CanvasManager.t) (a : CanvasManager.Action) :
  scheduled w ->
  NoDup (CanvasManager.animationFrames w) ->
  NoDup (CanvasManager.animationFrames (CanvasManager.step w a)).
Proof.
  intros [Sd Ss] N.
  assert (Qd : CanvasManager.tickingDraw w = false ->
               NoDup (CanvasManager.animationFrames w ++ [DrawCallback])).
  { intros E. apply NoDup_queue; [assumption|]. intros H. apply Sd in H. congruence. }
  assert (Qs : CanvasManager.tickingScroll w = false ->
               NoDup (CanvasManager.animationFrames w ++ [ScrollCallback])).
  { intros E. apply NoDup_queue; [assumption|]. intros H. apply Ss in H. congruence. }
  destruct a; cbn [CanvasManager.step];
    try (open_handlers; open_scheduler; split_cases; now auto).
  - unfold CanvasManager.handleGlobalMouseUp. split_cases; auto.
    + unfold CanvasManager.commitDrawingPath, CanvasManager.alloc, array_concat, new_array.
      split_cases; auto.
    + unfold CanvasManager.commitErasing, CanvasManager.alloc.
      rewrite removePaths_result. cbv zeta. split_cases; auto.
  - open_handlers. split_cases; auto;
      try (open_scheduler; split_cases; now auto).
    + unfold CanvasManager.commitDrawingPath, CanvasManager.alloc, array_concat, new_array.
      split_cases; auto.
    + unfold CanvasManager.commitErasing, CanvasManager.alloc.
      rewrite removePaths_result. cbv zeta. split_cases; auto.
  - unfold CanvasManager.animationFrame, CanvasManager.animationFrameOver.
    destruct (frames_run (CanvasManager.animationFrames w)
                (CanvasManager.set_animationFrames [] w)) as (Ha & _).
    rewrite Ha. cbn. constructor.
  - unfold CanvasManager.addPaths, CanvasManager.alloc.
    destruct (addPaths _ l _) as [r h]. open_scheduler. split_cases; auto.
  - unfold CanvasManager.removePathsById, CanvasManager.alloc.
    destruct (removePathsByIds _ l _) as [r h]. open_scheduler. split_cases; auto.
Qed.

Lemma runs_are_scheduled (pictureId : string) (l : list CanvasManager.Action) :
  scheduled (CanvasManager.run (CanvasManager.new pictureId) l) /\
  NoDup (CanvasManager.animationFrames
           (CanvasManager.run (CanvasManager.new pictureId) l)).
Proof.
  unfold CanvasManager.run. induction l as [|a l IH] using rev_ind.
  - split; [unfold scheduled; simpl; intuition discriminate | constructor].
  - rewrite fold_left_app. simpl. destruct IH as [S N].
    split; [now apply scheduled_step | now apply coalesced_step].
Qed.

(** X8. In every run of a manager, each flag of the scheduler is up
    exactly when its callback is queued, and no callback is queued twice:
    however many redraws and scroll-applies are requested between two
    display refreshes, at most one callback of each kind waits for the
    next refresh. *)
Theorem requests_are_coalesced (pictureId : string) (l : list CanvasManager.Action) :
  scheduled (CanvasManager.run (CanvasManager.new pictureId) l) /\
  NoDup (CanvasManager.animationFrames
           (CanvasManager.run (CanvasManager.new pictureId) l)) /\
  (length (CanvasManager.animationFrames
             (CanvasManager.run (CanvasManager.new pictureId) l)) <= 2)%nat.
Proof.
  destruct (runs_are_scheduled pictureId l) as [S N].
  repeat split; try assumption; try apply S.
  assert (Hi : incl (CanvasManager.animationFrames
                       (CanvasManager.run (CanvasManager.new pictureId) l))
                 [DrawCallback; ScrollCallback]).
  { intros [] _; simpl; auto. }
  apply (NoDup_incl_length N Hi).
Qed.

(** ** What a display refresh draws *)

Lemma runCallback_canvas (cb : FrameCallback) (w : CanvasManager.t) :
  let w' := CanvasManager.runCallbackOver CanvasManager.draw cb w in
  CanvasManager.renderingContext w' = CanvasManager.renderingContext w /\
  CanvasManager.drawingPath w' = CanvasManager.drawingPath w /\
  CanvasManager.erasingPathIds w' = CanvasManager.erasingPathIds w /\
  (CanvasManager.renderingContext w = false ->
   CanvasManager.canvas w' = CanvasManager.canvas w) /\
  (CanvasManager.renderingContext w = true ->
   length (CanvasManager.canvas w') = S (length (CanvasManager.canvas w))).
Proof.
  destruct cb;
    unfold CanvasManager.runCallbackOver, CanvasManager.drawCallbackOver,
      CanvasManager.scrollCallbackOver, CanvasManager.draw;
    destruct (CanvasManager.renderingContext w) eqn:E; cbn; rewrite ?E; cbn;
    repeat split; intros; try reflexivity; try discriminate; try assumption;
    rewrite length_app; simpl; lia.
Qed.

Lemma frames_canvas (q : list FrameCallback) (w : CanvasManager.t) :
  let w' := fold_left (fun w cb => CanvasManager.runCallbackOver CanvasManager.draw cb w) q w in
  CanvasManager.renderingContext w' = CanvasManager.renderingContext w /\
  CanvasManager.drawingPath w' = CanvasManager.drawingPath w /\
  CanvasManager.erasingPathIds w' = CanvasManager.erasingPathIds w /\
  (CanvasManager.renderingContext w = false ->
   CanvasManager.canvas w' = CanvasManager.canvas w) /\
  (CanvasManager.renderingContext w = true ->
   length (CanvasManager.canvas w') = (length (CanvasManager.canvas w) + length q)%nat).
Proof.
  revert w. induction q as [|cb q IH]; intros w; cbv zeta.
  - simpl. repeat split; auto.
  - cbn [fold_left length].
    destruct (IH (CanvasManager.runCallbackOver CanvasManager.draw cb w))
      as (Hr & Hd & He & Hf & Ht).
    destruct (runCallback_canvas cb w) as (Cr & Cd & Ce & Cf & Ct).
    rewrite Hr, Hd, He, Cr, Cd, Ce. repeat split.
    + intros E. rewrite Hf by congruence. now apply Cf.
    + intros E. rewrite Ht by congruence. rewrite (Ct E). lia.
Qed.

(** X9. A display refresh draws one frame for each queued callback when
    the manager has a rendering context, and draws nothing when it has
    none; it empties the queue and leaves the stroke set, the path in
    progress, the ids being erased and the calls made on the picture service
    as they are.  The frame drawn by the scroll-apply callback shows the
    buffered offset on both axes. *)
Theorem refresh_draws_queued_frames (w : CanvasManager.t) :
  (CanvasManager.renderingContext w = false ->
   CanvasManager.canvas (CanvasManager.animationFrame w) = CanvasManager.canvas w) /\
  (CanvasManager.renderingContext w = true ->
   length (CanvasManager.canvas (CanvasManager.animationFrame w)) =
     (length (CanvasManager.canvas w) + length (CanvasManager.animationFrames w))%nat) /\
  (CanvasManager.renderingContext w = true ->
   exists f,
     CanvasManager.canvas
       (CanvasManager.runCallbackOver CanvasManager.draw ScrollCallback w) =
       CanvasManager.canvas w ++ [f] /\
     drawnScrollLeft f = CanvasManager.bufferedScrollLeft w /\
     drawnScrollTop f = CanvasManager.bufferedScrollTop w) /\
  CanvasManager.animationFrames (CanvasManager.animationFrame w) = [] /\
  CanvasManager.paths (CanvasManager.animationFrame w) = CanvasManager.paths w /\
  CanvasManager.drawingPath (CanvasManager.animationFrame w) =
    CanvasManager.drawingPath w /\
  CanvasManager.erasingPathIds (CanvasManager.animationFrame w) =
    CanvasManager.erasingPathIds w /\
  CanvasManager.serviceCalls (CanvasManager.animationFrame w) =
    CanvasManager.serviceCalls w.
Proof.
  unfold CanvasManager.animationFrame, CanvasManager.animationFrameOver.
  destruct (frames_canvas (CanvasManager.animationFrames w)
              (CanvasManager.set_animationFrames [] w)) as (_ & Hd & He & Hf & Ht).
  destruct (frames_run (CanvasManager.animationFrames w)
              (CanvasManager.set_animationFrames [] w)) as (Ha & Hp & _ & Hs & _).
  split; [exact Hf|]. split; [exact Ht|]. split.
  { intros E. eexists.
    unfold CanvasManager.runCallbackOver, CanvasManager.scrollCallbackOver,
      CanvasManager.draw. cbn. rewrite E. cbn. repeat split. }
  now rewrite Ha, Hp, Hd, He, Hs.
Qed.

Lemma refresh_draws_queued_frames_witness :
  length (CanvasManager.canvas
            (CanvasManager.animationFrame (CanvasManager.tickDraw attached))) =
  (length (CanvasManager.canvas (CanvasManager.tickDraw attached)) +
   length (CanvasManager.animationFrames (CanvasManager.tickDraw attached)))%nat /\
  CanvasManager.canvas
    (CanvasManager.animationFrame (CanvasManager.tickDraw (CanvasManager.new "p"))) =
  CanvasManager.canvas (CanvasManager.tickDraw (CanvasManager.new "p")).
Proof.
  split.
  - apply (proj1 (proj2 (refresh_draws_queued_frames (CanvasManager.tickDraw attached)))).
    vm_compute. reflexivity.
  - apply (proj1 (refresh_draws_queued_frames
                    (CanvasManager.tickDraw (CanvasManager.new "p")))).
    vm_compute. reflexivity.
Defined.

(** ** What is emitted to the picture service *)

Lemma noRepeat_snoc (l : list Point) (q p : Point) :
  noRepeat (l ++ [q]) -> q <> p -> noRepeat ((l ++ [q]) ++ [p]).
Proof.
  intros H N. induction l as [|a l IH]; simpl in *; [tauto|].
  destruct l as [|b l]; simpl in *; [tauto|].
  destruct H as [Hab H]. split; [assumption|]. now apply IH.
Qed.

Lemma pushPointOf_keeps (dp : Path) (p : Point) :
  points dp <> [] /\ noRepeat (points dp) ->
  points (CanvasManager.pushPointOf dp p) <> [] /\
  noRepeat (points (CanvasManager.pushPointOf dp p)).
Proof.
  intros [Hn Hr]. destruct (exists_last Hn) as [l [q E]].
  rewrite (points_pushPointOf dp p l q E).
  destruct (Point_eq_dec q p) as [_|N].
  - rewrite <- E. now split.
  - split; [now destruct ((l ++ [q]))|]. rewrite E in Hr. now apply noRepeat_snoc.
Qed.

Lemma gesture_commitDrawingPath (dp : Path) (w : CanvasManager.t) :
  points dp <> [] /\ noRepeat (points dp) ->
  Forall (wellEmitted (CanvasManager.pictureId w)) (CanvasManager.serviceCalls w) ->
  CanvasManager.pictureId (CanvasManager.commitDrawingPath dp w) =
    CanvasManager.pictureId w /\
  CanvasManager.erasingPathIds (CanvasManager.commitDrawingPath dp w) =
    CanvasManager.erasingPathIds w /\
  Forall (wellEmitted (CanvasManager.pictureId w))
    (CanvasManager.serviceCalls (CanvasManager.commitDrawingPath dp w)).
Proof.
  intros [Hn Hr] F. unfold CanvasManager.commitDrawingPath.
  destruct (Nat.ltb_spec 1 (length (points dp))) as [L|L]; cbn; [|now repeat split].
  repeat split. apply Forall_app. split; [assumption|]. constructor; [|constructor].
  split; [reflexivity|]. left. exists dp. cbn. repeat split; [lia | assumption].
Qed.

Lemma gesture_commitErasing (s : JsSet.t) (w : CanvasManager.t) :
  NoDup s ->
  Forall (wellEmitted (CanvasManager.pictureId w)) (CanvasManager.serviceCalls w) ->
  CanvasManager.pictureId (CanvasManager.commitErasing s w) =
    CanvasManager.pictureId w /\
  CanvasManager.drawingPath (CanvasManager.commitErasing s w) =
    CanvasManager.drawingPath w /\
  Forall (wellEmitted (CanvasManager.pictureId w))
    (CanvasManager.serviceCalls (CanvasManager.commitErasing s w)).
Proof.
  intros N F. unfold CanvasManager.commitErasing, CanvasManager.alloc.
  rewrite removePaths_result. cbv zeta.
  destruct (Nat.eqb_spec
              (length (filter (fun p => negb (JsSet.has s (id p)))
                         (items (CanvasManager.paths w))))
              (length (items (CanvasManager.paths w)))) as [E|E].
  - unfold same_ref. rewrite Nat.eqb_refl. cbn. now repeat split.
  - destruct (negb (same_ref _ _)); cbn; [|now repeat split].
    repeat split. apply Forall_app. split; [assumption|]. constructor; [|constructor].
    split; [reflexivity|]. right. cbn. split; [reflexivity|].
    exists s. repeat split; [|assumption].
    intros ->. apply E. now rewrite filter_all.
Qed.

Ltac gesture_close Hd He K :=
  cbn;
  split; [intros ?dp ?Hdp | split; [intros ?s ?Hs | ]];
  [ first [ now (apply Hd; congruence)
          | congruence
          | match goal with H : Some _ = Some _ |- _ => inversion H; subst; clear H end;
            first [ now (apply K; auto)
                  | now (cbn; split; [discriminate | exact I]) ] ]
  | first [ now (apply He; congruence)
          | congruence
          | match goal with H : Some _ = Some _ |- _ => inversion H; subst; clear H end;
            now eauto using from_NoDup, addToSet_NoDup ]
  | assumption ].

Ltac gesture_commit Hd He Hc K :=
  match goal with
  | |- gestureInvariant (_ None (CanvasManager.commitDrawingPath ?d ?v)) =>
      let Ei := fresh "Ei" in
      let Ee := fresh "Ee" in
      let F := fresh "F" in
      destruct (gesture_commitDrawingPath d v) as (Ei & Ee & F);
      [ first [ now (apply Hd; congruence) | now (apply K; apply Hd; congruence) ]
      | exact Hc
      | unfold gestureInvariant; cbn; rewrite Ei, Ee; cbn;
        split; [discriminate | split; [intros; apply He; congruence | exact F]] ]
  | |- gestureInvariant (_ None (CanvasManager.commitErasing ?i ?v)) =>
      let Ei := fresh "Ei" in
      let Ed := fresh "Ed" in
      let F := fresh "F" in
      destruct (gesture_commitErasing i v) as (Ei & Ed & F);
      [ first [ now (apply He; congruence)
              | now (apply addToSet_NoDup; apply He; congruence) ]
      | exact Hc
      | unfold gestureInvariant; cbn; rewrite Ei, Ed; cbn;
        split; [intros; apply Hd; congruence | split; [discriminate | exact F]] ]
  end.

Lemma frames_pictureId (q : list FrameCallback) (w : CanvasManager.t) :
  CanvasManager.pictureId
    (fold_left (fun w cb => CanvasManager.runCallbackOver CanvasManager.draw cb w) q w) =
  CanvasManager.pictureId w.
Proof.
  revert w. induction q as [|cb q IH]; intros w; [reflexivity|].
  cbn [fold_left]. rewrite IH.
  destruct cb;
    unfold CanvasManager.runCallbackOver, CanvasManager.drawCallbackOver,
      CanvasManager.scrollCallbackOver, CanvasManager.draw;
    cbn; destruct (CanvasManager.renderingContext w); reflexivity.
Qed.

Lemma gestureInvariant_step (w : CanvasManager.t) (a : CanvasManager.Action) :
  gestureInvariant w -> gestureInvariant (CanvasManager.step w a).
Proof.
  intros (Hd & He & Hc).
  pose proof pushPointOf_keeps as K.
  set (push := CanvasManager.pushPointOf) in K.
  destruct a; cbn [CanvasManager.step];
    try (unfold gestureInvariant; open_handlers; open_scheduler;
         fold push; clearbody push; split_cases;
         now gesture_close Hd He K).
  - unfold CanvasManager.handleGlobalMouseUp. split_cases;
      first [ gesture_commit Hd He Hc K
            | unfold gestureInvariant; now gesture_close Hd He K ].
  - open_handlers. fold push. split_cases;
      first [ gesture_commit Hd He Hc K
            | unfold gestureInvariant; open_scheduler; split_cases;
              now gesture_close Hd He K ].
  - unfold CanvasManager.animationFrame, CanvasManager.animationFrameOver.
    destruct (frames_canvas (CanvasManager.animationFrames w)
                (CanvasManager.set_animationFrames [] w)) as (_ & Fd & Fe & _).
    destruct (frames_run (CanvasManager.animationFrames w)
                (CanvasManager.set_animationFrames [] w)) as (_ & _ & _ & Fs & _).
    unfold gestureInvariant. rewrite Fd, Fe, Fs, frames_pictureId. cbn.
    split; [exact Hd | split; [exact He | exact Hc]].
  - unfold CanvasManager.addPaths, CanvasManager.alloc.
    destruct (addPaths _ l _) as [r h]. unfold gestureInvariant.
    open_scheduler. split_cases; now gesture_close Hd He K.
  - unfold CanvasManager.removePathsById, CanvasManager.alloc.
    destruct (removePathsByIds _ l _) as [r h]. unfold gestureInvariant.
    open_scheduler. split_cases; now gesture_close Hd He K.
Qed.

(** X10. In every run of a manager, each call made on the picture service
    carries the picture id of the manager and either exactly one added path,
    of at least two points with no two consecutive points equal, and nothing
    removed, or nothing added and a non-empty list of pairwise distinct
    removed ids.  A path in progress always has a point, and the ids being
    erased are always pairwise distinct. *)
Theorem emitted_calls_are_well_formed (pictureId : string)
    (l : list CanvasManager.Action) :
  gestureInvariant (CanvasManager.run (CanvasManager.new pictureId) l) /\
  Forall (wellEmitted pictureId)
    (CanvasManager.serviceCalls (CanvasManager.run (CanvasManager.new pictureId) l)).
Proof.
  assert (I : gestureInvariant (CanvasManager.run (CanvasManager.new pictureId) l) /\
              CanvasManager.pictureId
                (CanvasManager.run (CanvasManager.new pictureId) l) = pictureId).
  { unfold CanvasManager.run. induction l as [|a l IH] using rev_ind.
    - split; [|reflexivity]. unfold gestureInvariant. simpl.
      repeat split; try discriminate. constructor.
    - rewrite fold_left_app. simpl. destruct IH as [G E].
      split; [now apply gestureInvariant_step|].
      rewrite <- E at 2. clear.
      set (w := fold_left CanvasManager.step l (CanvasManager.new pictureId)).
      clearbody w. destruct a; cbn [CanvasManager.step];
        try (open_handlers; open_scheduler; split_cases; reflexivity).
      + unfold CanvasManager.handleGlobalMouseUp. split_cases; try reflexivity.
        * unfold CanvasManager.commitDrawingPath, CanvasManager.alloc,
            array_concat, new_array. split_cases; reflexivity.
        * unfold CanvasManager.commitErasing, CanvasManager.alloc.
          rewrite removePaths_result. cbv zeta. split_cases; reflexivity.
      + open_handlers. split_cases; try reflexivity;
          try (open_scheduler; split_cases; reflexivity).
        * unfold CanvasManager.commitDrawingPath, CanvasManager.alloc,
            array_concat, new_array. split_cases; reflexivity.
        * unfold CanvasManager.commitErasing, CanvasManager.alloc.
          rewrite removePaths_result. cbv zeta. split_cases; reflexivity.
      + unfold CanvasManager.animationFrame, CanvasManager.animationFrameOver.
        now rewrite frames_pictureId.
      + unfold CanvasManager.addPaths, CanvasManager.alloc.
        destruct (addPaths _ _ _). open_scheduler. split_cases; reflexivity.
      + unfold CanvasManager.removePathsById, CanvasManager.alloc.
        destruct (removePathsByIds _ _ _). open_scheduler. split_cases; reflexivity. }
  destruct I as [G E]. split; [assumption|].
  destruct G as (_ & _ & F). now rewrite E in F.
Qed.

(** ** A draw gesture with the mouse, from down to up *)

Lemma run_cons (w : CanvasManager.t) (a : CanvasManager.Action)
    (l : list CanvasManager.Action) :
  CanvasManager.run w (a :: l) = CanvasManager.run (CanvasManager.step w a) l.
Proof. reflexivity. Qed.

Lemma run_app (w : CanvasManager.t) (l1 l2 : list CanvasManager.Action) :
  CanvasManager.run w (l1 ++ l2) = CanvasManager.run (CanvasManager.run w l1) l2.
Proof. apply fold_left_app. Qed.

Lemma mouse_moves_record (es : list MouseEvent) (w : CanvasManager.t)
    (dp : Path) (l : list Point) (q : Point) :
  CanvasManager.tool w = pen ->
  CanvasManager.drawingPath w = Some dp ->
  points dp = l ++ [q] ->
  let w' := CanvasManager.run w (map CanvasManager.MouseMove es) in
  CanvasManager.drawingPath w' =
    Some {| id := id dp; color := color dp; width := width dp;
            points := l ++ compress
                            (q :: map (fun e => CanvasManager.getPointFromMouseEvent w e false) es) |} /\
  CanvasManager.tool w' = pen /\
  CanvasManager.paths w' = CanvasManager.paths w /\
  CanvasManager.heap w' = CanvasManager.heap w /\
  CanvasManager.serviceCalls w' = CanvasManager.serviceCalls w /\
  CanvasManager.pictureId w' = CanvasManager.pictureId w.
Proof.
  revert w dp l q. induction es as [|e es IH]; intros w dp l q Ht Hd Hp; cbv zeta.
  - simpl. rewrite Hd. split; [|now repeat split].
    destruct dp; simpl in *. now subst.
  - cbn [map]. rewrite run_cons. cbn [CanvasManager.step].
    set (p := CanvasManager.getPointFromMouseEvent w e false).
    assert (Hs : CanvasManager.handleMouseMove e w =
                 CanvasManager.tickDraw
                   (CanvasManager.set_drawingPath
                      (Some (CanvasManager.pushPointOf dp p)) w)).
    { unfold CanvasManager.handleMouseMove. now rewrite Ht, Hd. }
    rewrite Hs. clear Hs.
    set (w1 := CanvasManager.tickDraw _).
    assert (F : CanvasManager.tool w1 = pen /\
                CanvasManager.drawingPath w1 = Some (CanvasManager.pushPointOf dp p) /\
                CanvasManager.paths w1 = CanvasManager.paths w /\
                CanvasManager.heap w1 = CanvasManager.heap w /\
                CanvasManager.serviceCalls w1 = CanvasManager.serviceCalls w /\
                CanvasManager.pictureId w1 = CanvasManager.pictureId w /\
                (forall e', CanvasManager.getPointFromMouseEvent w1 e' false =
                            CanvasManager.getPointFromMouseEvent w e' false)).
    { unfold w1, CanvasManager.tickDraw, CanvasManager.requestAnimationFrame,
        CanvasManager.getPointFromMouseEvent.
      destruct (CanvasManager.tickingDraw _); cbn; repeat split; assumption. }
    destruct F as (Ft & Fd & Fp & Fh & Fs & Fi & Fg).
    pose proof (points_pushPointOf dp p l q Hp) as Hpush.
    destruct (Point_eq_dec q p) as [E|N].
    + destruct (IH w1 (CanvasManager.pushPointOf dp p) l q Ft Fd Hpush)
        as (Id & It & Ip & Ih & Is & Ii).
      rewrite Id, It, Ip, Ih, Is, Ii, Fp, Fh, Fs, Fi. repeat split.
      rewrite (map_ext _ _ Fg). cbn [compress].
      destruct (Point_eq_dec q p); [|contradiction].
      subst q. unfold CanvasManager.pushPointOf.
      destruct (pushPoint _ _); reflexivity.
    + destruct (IH w1 (CanvasManager.pushPointOf dp p) (l ++ [q]) p Ft Fd Hpush)
        as (Id & It & Ip & Ih & Is & Ii).
      rewrite Id, It, Ip, Ih, Is, Ii, Fp, Fh, Fs, Fi. repeat split.
      rewrite (map_ext _ _ Fg). cbn [compress].
      destruct (Point_eq_dec q p); [contradiction|].
      rewrite <- app_assoc. unfold CanvasManager.pushPointOf.
      destruct (pushPoint _ _); reflexivity.
Qed.

Lemma handleMouseDown_pen (e0 : MouseEvent) (w : CanvasManager.t) :
  CanvasManager.tool w = pen ->
  let w1 := CanvasManager.handleMouseDown e0 w in
  CanvasManager.tool w1 = pen /\
  CanvasManager.drawingPath w1 =
    Some {| id := generateIdFrom (CanvasManager.idCounter w); color := "#000";
            width := 3;
            points := [CanvasManager.getPointFromMouseEvent w1 e0 false] |} /\
  CanvasManager.paths w1 = CanvasManager.paths w /\
  CanvasManager.heap w1 = CanvasManager.heap w /\
  CanvasManager.serviceCalls w1 = CanvasManager.serviceCalls w /\
  CanvasManager.pictureId w1 = CanvasManager.pictureId w.
Proof.
  intros Ht. cbv zeta.
  unfold CanvasManager.handleMouseDown, CanvasManager.updateOffset,
    CanvasManager.generateId.
  destruct (CanvasManager.canvasElement w); cbn; rewrite Ht; cbn; repeat split;
    assumption.
Qed.

(** X11. A draw gesture with the mouse, from mouse-down through any
    mouse-moves to mouse-up, with the pen selected: the path recorded is the
    track of the pointer positions, each taken relative to the canvas offset
    read at mouse-down and shifted by the scroll offset, without the
    positions that repeat the one before.  When the track so compressed has
    two points or more, the path is appended to the stroke set and emitted
    alone in one call; when it has one, nothing is committed or emitted.  The
    path in progress is given up. *)
Theorem mouse_gesture_records_track (w : CanvasManager.t) (e0 : MouseEvent)
    (es : list MouseEvent) :
  CanvasManager.tool w = pen ->
  let w1 := CanvasManager.handleMouseDown e0 w in
  let track :=
    compress (map (fun e => CanvasManager.getPointFromMouseEvent w1 e false) (e0 :: es)) in
  let stroke :=
    {| id := generateIdFrom (CanvasManager.idCounter w); color := "#000";
       width := 3; points := track |} in
  let w3 :=
    CanvasManager.run w
      (CanvasManager.MouseDown e0 :: map CanvasManager.MouseMove es ++
       [CanvasManager.MouseUp]) in
  CanvasManager.drawingPath w3 = None /\
  ((2 <= length track)%nat ->
   items (CanvasManager.paths w3) = items (CanvasManager.paths w) ++ [stroke] /\
   CanvasManager.serviceCalls w3 = CanvasManager.serviceCalls w ++ [addedCall w stroke]) /\
  ((length track <= 1)%nat ->
   CanvasManager.paths w3 = CanvasManager.paths w /\
   CanvasManager.serviceCalls w3 = CanvasManager.serviceCalls w).
Proof.
  intros Ht. cbv zeta.
  rewrite run_cons, run_app. cbn [CanvasManager.step].
  destruct (handleMouseDown_pen e0 w Ht) as (Dt & Dd & Dp & Dh & Ds & Di).
  set (w1 := CanvasManager.handleMouseDown e0 w) in *.
  destruct (mouse_moves_record es w1 _ [] _ Dt Dd eq_refl) as (Md & Mt & Mp & Mh & Ms & Mi).
  cbn [id color width app] in Md.
  set (w2 := CanvasManager.run w1 (map CanvasManager.MouseMove es)) in *.
  cbn [map].
  set (stroke := {| id := _; color := _; width := _; points := compress _ |}) in *.
  change (CanvasManager.run w2 [CanvasManager.MouseUp])
    with (CanvasManager.handleGlobalMouseUp w2).
  unfold CanvasManager.handleGlobalMouseUp. rewrite Mt, Md.
  destruct (dropsOrCommits_commit stroke w2 w2 eq_refl eq_refl eq_refl eq_refl)
    as (Hn & Hshort & Hlong).
  split; [exact Hn|]. split; intros L.
  - destruct (Hlong L) as [Hi Hc]. rewrite Hi, Hc, Mp, Ms, Dp, Ds.
    unfold addedCall. now rewrite Mi, Di.
  - destruct (Hshort L) as [Hi Hc]. now rewrite Hi, Hc, Mp, Ms, Dp, Ds.
Qed.

Lemma mouse_gesture_records_track_witness :
  CanvasManager.serviceCalls
    (CanvasManager.run attached
       (CanvasManager.MouseDown (mouseAt 0 0) ::
        map CanvasManager.MouseMove [mouseAt 0 0; mouseAt 3 4; mouseAt 3 4] ++
        [CanvasManager.MouseUp])) =
  CanvasManager.serviceCalls attached ++
  [addedCall attached
     {| id := generateIdFrom (CanvasManager.idCounter attached); color := "#000";
        width := 3;
        points :=
          compress
            (map (fun e =>
                    CanvasManager.getPointFromMouseEvent
                      (CanvasManager.handleMouseDown (mouseAt 0 0) attached) e false)
               (mouseAt 0 0 :: [mouseAt 0 0; mouseAt 3 4; mouseAt 3 4])) |}].
Proof.
  destruct (mouse_gesture_records_track attached (mouseAt 0 0)
              [mouseAt 0 0; mouseAt 3 4; mouseAt 3 4]) as (_ & Hlong & _).
  - vm_compute. reflexivity.
  - apply Hlong. vm_compute. lia.
Defined.

(** ** Panning and scrolling over several events *)

Lemma last_of_cons {A} (l : list A) (a d d' : A) :
  last (a :: l) d = last (a :: l) d'.
Proof.
  revert a. induction l as [|b l IH]; intros a; [reflexivity|].
  change (last (b :: l) d = last (b :: l) d'). apply IH.
Qed.

Lemma last_cons_default {A} (l : list A) (a d : A) :
  last (a :: l) d = last l a.
Proof.
  destruct l as [|b l]; [reflexivity|].
  change (last (b :: l) d = last (b :: l) a). apply last_of_cons.
Qed.

Lemma last_map_default {A B} (f : A -> B) (l : list A) (d : A) :
  last (map f l) (f d) = f (last l d).
Proof.
  induction l as [|a l IH]; [reflexivity|].
  destruct l as [|b l]; [reflexivity|]. exact IH.
Qed.

Lemma mouse_moves_pan (es : list MouseEvent) (w : CanvasManager.t) :
  CanvasManager.tool w = hand ->
  CanvasManager.handScrollingByMouse w = true ->
  let w' := CanvasManager.run w (map CanvasManager.MouseMove es) in
  CanvasManager.bufferedScrollLeft w' =
    fold_left Z.add
      (panSteps (CanvasManager.prevX w ::
                 map (fun e => clientX e - CanvasManager.offsetLeft w) es))
      (CanvasManager.bufferedScrollLeft w) /\
  CanvasManager.bufferedScrollTop w' =
    fold_left Z.add
      (panSteps (CanvasManager.prevY w ::
                 map (fun e => clientY e - CanvasManager.offsetTop w) es))
      (CanvasManager.bufferedScrollTop w) /\
  CanvasManager.prevX w' =
    last (map (fun e => clientX e - CanvasManager.offsetLeft w) es)
         (CanvasManager.prevX w) /\
  CanvasManager.prevY w' =
    last (map (fun e => clientY e - CanvasManager.offsetTop w) es)
         (CanvasManager.prevY w).
Proof.
  revert w. induction es as [|e es IH]; intros w Ht Hh; cbv zeta.
  - simpl. repeat split.
  - cbn [map]. rewrite run_cons. cbn [CanvasManager.step].
    set (w1 := CanvasManager.handleMouseMove e w).
    destruct (pan_by_mouse_move w e Ht Hh) as (Pl & Pt & Px & Py & _).
    fold w1 in Pl, Pt, Px, Py.
    unfold CanvasManager.getPointFromMouseEvent in Pl, Pt, Px, Py.
    cbn in Pl, Pt, Px, Py.
    assert (F : CanvasManager.tool w1 = hand /\
                CanvasManager.handScrollingByMouse w1 = true /\
                CanvasManager.offsetLeft w1 = CanvasManager.offsetLeft w /\
                CanvasManager.offsetTop w1 = CanvasManager.offsetTop w).
    { unfold w1, CanvasManager.handleMouseMove. rewrite Ht, Hh. open_scheduler. cbn.
      destruct (CanvasManager.tickingScroll w); cbn; repeat split; assumption. }
    destruct F as (Ft & Fh & Fol & Fot).
    destruct (IH w1 Ft Fh) as (Il & It & Ix & Iy).
    rewrite Il, It, Ix, Iy, Fol, Fot, Pl, Pt, Px, Py.
    repeat split; symmetry; apply last_cons_default.
Qed.

(** X12. A pan with the mouse adds up the steps of the mouse: after
    mouse-down with the hand selected and any mouse-moves, the buffered
    scroll offset is the one before the gesture to which the differences
    between each position of the gesture and the next have been added, one
    after the other, on each axis.  The positions are those of the events
    relative to the canvas offset read at the mouse-down; the scroll offset
    is not part of them.  The anchor is the last position. *)
Theorem mouse_pan_adds_successive_steps (w : CanvasManager.t) (e0 : MouseEvent)
    (es : list MouseEvent) :
  CanvasManager.tool w = hand ->
  let w1 := CanvasManager.handleMouseDown e0 w in
  let w' := CanvasManager.run w
              (CanvasManager.MouseDown e0 :: map CanvasManager.MouseMove es) in
  CanvasManager.bufferedScrollLeft w' =
    fold_left Z.add
      (panSteps (map (fun e => clientX e - CanvasManager.offsetLeft w1) (e0 :: es)))
      (CanvasManager.bufferedScrollLeft w) /\
  CanvasManager.bufferedScrollTop w' =
    fold_left Z.add
      (panSteps (map (fun e => clientY e - CanvasManager.offsetTop w1) (e0 :: es)))
      (CanvasManager.bufferedScrollTop w) /\
  CanvasManager.prevX w' = clientX (last es e0) - CanvasManager.offsetLeft w1 /\
  CanvasManager.prevY w' = clientY (last es e0) - CanvasManager.offsetTop w1.
Proof.
  intros Ht. cbv zeta. rewrite run_cons. cbn [CanvasManager.step].
  set (w1 := CanvasManager.handleMouseDown e0 w).
  assert (D : CanvasManager.tool w1 = hand /\
              CanvasManager.handScrollingByMouse w1 = true /\
              CanvasManager.prevX w1 = clientX e0 - CanvasManager.offsetLeft w1 /\
              CanvasManager.prevY w1 = clientY e0 - CanvasManager.offsetTop w1 /\
              CanvasManager.bufferedScrollLeft w1 = CanvasManager.bufferedScrollLeft w /\
              CanvasManager.bufferedScrollTop w1 = CanvasManager.bufferedScrollTop w).
  { unfold w1, CanvasManager.handleMouseDown, CanvasManager.updateOffset.
    destruct (CanvasManager.canvasElement w); cbn; rewrite Ht; cbn;
      repeat split; assumption. }
  destruct D as (Dt & Dh & Dx & Dy & Dl & Dtop).
  destruct (mouse_moves_pan es w1 Dt Dh) as (Ml & Mt & Mx & My).
  rewrite Ml, Mt, Mx, My, Dx, Dy, Dl, Dtop. cbn [map].
  repeat split.
  - apply (last_map_default (fun e => clientX e - CanvasManager.offsetLeft w1)).
  - apply (last_map_default (fun e => clientY e - CanvasManager.offsetTop w1)).
Qed.

Lemma mouse_pan_adds_successive_steps_witness :
  CanvasManager.bufferedScrollLeft
    (CanvasManager.run (CanvasManager.setTool hand attached)
       (CanvasManager.MouseDown (mouseAt 100 100) ::
        map CanvasManager.MouseMove [mouseAt 40 250; mouseAt 90 95])) =
  fold_left Z.add
    (panSteps
       (map (fun e =>
               clientX e -
               CanvasManager.offsetLeft
                 (CanvasManager.handleMouseDown (mouseAt 100 100)
                    (CanvasManager.setTool hand attached)))
          (mouseAt 100 100 :: [mouseAt 40 250; mouseAt 90 95])))
    (CanvasManager.bufferedScrollLeft (CanvasManager.setTool hand attached)).
Proof.
  pose proof (mouse_pan_adds_successive_steps (CanvasManager.setTool hand attached)
                (mouseAt 100 100) [mouseAt 40 250; mouseAt 90 95] eq_refl) as H.
  cbv zeta in H. apply H.
Defined.




(** ** Palm rejection *)

Lemma no_stylus_no_point (w : CanvasManager.t) (e : TouchEvent) :
  CanvasManager.palmRejection w = true ->
  (forall t, In t (changedTouches e) -> Touch.touchType t <> "stylus"%string) ->
  CanvasManager.getPointFromTouchEvent w e false = None.
Proof.
  intros Hp Hn. unfold CanvasManager.getPointFromTouchEvent, CanvasManager.getTouch.
  rewrite Hp. cbn.
  destruct (find _ (changedTouches e)) as [t|] eqn:F; [|reflexivity].
  apply find_some in F. destruct F as [Hin Hs].
  apply String.eqb_eq in Hs. now apply Hn in Hin.
Qed.

(** X14. The touch that an event yields is one of its changed touches.
    With palm rejection off it is the first one; with palm rejection on, and
    unless the caller asks not to care, it is the first one of type
    ["stylus"], and there is none when no changed touch is a stylus.  So
    with palm rejection on, a touch event without a stylus draws and erases
    nothing with any tool: touch-start, touch-move and touch-end do what they
    do for panning, and leave the stroke set, the path in progress, the ids
    being erased and the calls on the picture service as they are. *)
Theorem palm_rejection_ignores_fingers (w : CanvasManager.t) (e : TouchEvent) :
  (forall d t, CanvasManager.getTouch w e d = Some t -> In t (changedTouches e)) /\
  (forall d, CanvasManager.palmRejection w = false ->
     CanvasManager.getTouch w e d = hd_error (changedTouches e)) /\
  (forall t, CanvasManager.palmRejection w = true ->
     CanvasManager.getTouch w e false = Some t ->
     Touch.touchType t = "stylus"%string /\
     exists l1 l2, changedTouches e = l1 ++ t :: l2 /\
                   forall u, In u l1 -> Touch.touchType u <> "stylus"%string) /\
  (CanvasManager.palmRejection w = true ->
   (forall t, In t (changedTouches e) -> Touch.touchType t <> "stylus"%string) ->
   CanvasManager.handleTouchStart e w =
     CanvasManager.handleTouchStart_default e (CanvasManager.updateOffset w) /\
   CanvasManager.handleTouchMove e w = CanvasManager.handleTouchMove_default e w /\
   CanvasManager.handleTouchEnd e w = CanvasManager.handleTouchEnd_default e w /\
   (forall w',
      w' = CanvasManager.handleTouchStart e w \/
      w' = CanvasManager.handleTouchMove e w \/
      w' = CanvasManager.handleTouchEnd e w ->
      CanvasManager.paths w' = CanvasManager.paths w /\
      CanvasManager.drawingPath w' = CanvasManager.drawingPath w /\
      CanvasManager.erasingPathIds w' = CanvasManager.erasingPathIds w /\
      CanvasManager.serviceCalls w' = CanvasManager.serviceCalls w)).
Proof.
  split; [|split; [|split]].
  - intros d t. unfold CanvasManager.getTouch.
    destruct (negb (CanvasManager.palmRejection w) || d).
    + destruct (changedTouches e); simpl; [discriminate|].
      intros H. inversion H. now left.
    + intros H. now apply find_some in H.
  - intros d H. unfold CanvasManager.getTouch. now rewrite H.
  - intros t Hp. unfold CanvasManager.getTouch. rewrite Hp. cbn.
    induction (changedTouches e) as [|a l IH]; simpl; [discriminate|].
    destruct (String.eqb_spec (Touch.touchType a) "stylus") as [E|N].
    + intros H. inversion H. subst a. split; [assumption|].
      exists [], l. split; [reflexivity | intros u []].
    + intros H. destruct (IH H) as [Hs [l1 [l2 [El Hl]]]]. split; [assumption|].
      exists (a :: l1), l2. split; [now rewrite El|].
      intros u [<-|Hu]; auto.
  - intros Hp Hn.
    assert (Hu : CanvasManager.getPointFromTouchEvent (CanvasManager.updateOffset w) e false = None).
    { apply no_stylus_no_point; [|assumption].
      unfold CanvasManager.updateOffset. now destruct (CanvasManager.canvasElement w). }
    pose proof (no_stylus_no_point w e Hp Hn) as Hw.
    assert (S : CanvasManager.handleTouchStart e w =
                CanvasManager.handleTouchStart_default e (CanvasManager.updateOffset w)).
    { unfold CanvasManager.handleTouchStart, CanvasManager.handleTouchStart_pen,
        CanvasManager.handleTouchStart_eraser. rewrite Hu.
      now destruct (CanvasManager.tool _). }
    assert (M : CanvasManager.handleTouchMove e w = CanvasManager.handleTouchMove_default e w).
    { unfold CanvasManager.handleTouchMove, CanvasManager.handleTouchMove_pen,
        CanvasManager.handleTouchMove_eraser. rewrite Hw.
      now destruct (CanvasManager.tool _). }
    assert (E : CanvasManager.handleTouchEnd e w = CanvasManager.handleTouchEnd_default e w).
    { unfold CanvasManager.handleTouchEnd, CanvasManager.handleTouchEnd_pen,
        CanvasManager.handleTouchEnd_eraser. rewrite Hw.
      now destruct (CanvasManager.tool _). }
    repeat (split; [assumption|]).
    intros w' [H1|[H1|H1]]; subst w'; rewrite ?S, ?M, ?E;
      unfold CanvasManager.handleTouchStart_default,
        CanvasManager.handleTouchMove_default,
        CanvasManager.handleTouchEnd_default, CanvasManager.updateOffset;
      open_scheduler; split_cases; repeat split.
Qed.

Lemma palm_rejection_ignores_fingers_witness :
  CanvasManager.handleTouchMove (fingerAt 90 95)
    (CanvasManager.setPalmRejection true oneTouchPoint) =
  CanvasManager.handleTouchMove_default (fingerAt 90 95)
    (CanvasManager.setPalmRejection true oneTouchPoint).
Proof.
  destruct (palm_rejection_ignores_fingers
              (CanvasManager.setPalmRejection true oneTouchPoint) (fingerAt 90 95))
    as (_ & _ & _ & H).
  apply H; [reflexivity|].
  intros t [<-|[]]. discriminate.
Defined.

(** ** Erasing before the pointer goes up *)

(** X15. When the mouse goes down with the eraser, a redraw is requested,
    the stroke set, the path in progress and the calls on the picture
    service stay as they are, and the ids that the hit test returns at the
    point of the mouse-down become the ids being erased.  A [draw] in that
    state adds one frame: of the committed paths it strokes those of the
    stroke set whose id the hit test did not return, in order, so none that
    has a point [isCloser] accepts at radius 3; the path in progress it
    strokes as before. *)
Theorem eraser_hides_hit_paths (w : CanvasManager.t) (e : MouseEvent) :
  CanvasManager.tool w = eraser ->
  CanvasManager.renderingContext w = true ->
  let w1 := CanvasManager.handleMouseDown e w in
  let p := CanvasManager.getPointFromMouseEvent w1 e false in
  CanvasManager.tickingDraw w1 = true /\
  CanvasManager.paths w1 = CanvasManager.paths w /\
  CanvasManager.drawingPath w1 = CanvasManager.drawingPath w /\
  CanvasManager.serviceCalls w1 = CanvasManager.serviceCalls w /\
  CanvasManager.erasingPathIds w1 =
    Some (JsSet.from (erase (items (CanvasManager.paths w)) p)) /\
  exists f,
    CanvasManager.canvas (CanvasManager.draw w1) = CanvasManager.canvas w1 ++ [f] /\
    drawnPaths f =
      filter (fun path =>
                negb (existsb (String.eqb (id path))
                        (erase (items (CanvasManager.paths w)) p)))
        (items (CanvasManager.paths w)) /\
    drawnDrawingPath f = CanvasManager.drawingPath w /\
    (forall path,
       In path (drawnPaths f) ->
       existsb (fun p2 => isCloser p p2 3) (points path) = false).
Proof.
  intros Ht Hr. cbv zeta.
  assert (H : exists v,
             CanvasManager.handleMouseDown e w =
               CanvasManager.tickDraw
                 (CanvasManager.set_erasingPathIds
                    (Some (JsSet.from (erase (items (CanvasManager.paths v))
                                         (CanvasManager.getPointFromMouseEvent v e false)))) v) /\
             CanvasManager.paths v = CanvasManager.paths w /\
             CanvasManager.drawingPath v = CanvasManager.drawingPath w /\
             CanvasManager.serviceCalls v = CanvasManager.serviceCalls w /\
             CanvasManager.renderingContext v = true /\
             CanvasManager.canvas v = CanvasManager.canvas w).
  { exists (CanvasManager.updateOffset w).
    unfold CanvasManager.handleMouseDown, CanvasManager.updateOffset.
    destruct (CanvasManager.canvasElement w); cbn; rewrite Ht; repeat split; assumption. }
  destruct H as (v & -> & Vp & Vd & Vs & Vr & Vc).
  set (w1 := CanvasManager.tickDraw _).
  assert (G : forall e', CanvasManager.getPointFromMouseEvent w1 e' false =
                         CanvasManager.getPointFromMouseEvent v e' false).
  { intros e'. unfold w1, CanvasManager.tickDraw, CanvasManager.requestAnimationFrame,
      CanvasManager.getPointFromMouseEvent. cbn.
    destruct (CanvasManager.tickingDraw v); reflexivity. }
  rewrite G. set (p := CanvasManager.getPointFromMouseEvent v e false) in *.
  assert (F : CanvasManager.tickingDraw w1 = true /\
              CanvasManager.paths w1 = CanvasManager.paths v /\
              CanvasManager.drawingPath w1 = CanvasManager.drawingPath v /\
              CanvasManager.serviceCalls w1 = CanvasManager.serviceCalls v /\
              CanvasManager.renderingContext w1 = true /\
              CanvasManager.erasingPathIds w1 =
                Some (JsSet.from (erase (items (CanvasManager.paths v)) p))).
  { unfold w1, CanvasManager.tickDraw, CanvasManager.requestAnimationFrame. cbn.
    destruct (CanvasManager.tickingDraw v) eqn:E; cbn; repeat split; assumption. }
  destruct F as (Ft & Fp & Fd & Fs & Fr & Fe).
  split; [assumption|]. split; [now rewrite Fp|]. split; [now rewrite Fd|].
  split; [now rewrite Fs|]. split; [now rewrite Fe, Vp|].
  unfold CanvasManager.draw. rewrite Fr, Fe, Fp, Fd, Vp, Vd. cbn.
  eexists. split; [reflexivity|]. cbn. split; [|split; [reflexivity|]].
  - apply filter_ext. intros path. now rewrite has_from_existsb.
  - intros path Hin. apply filter_In in Hin. destruct Hin as [Hin Hno].
    apply negb_true_iff in Hno.
    destruct (existsb (fun p2 => isCloser p p2 3) (points path)) eqn:Hhit;
      [|exact Hhit].
    assert (Hid : In (id path) (erase (items (CanvasManager.paths w)) p)).
    { rewrite erase_filter. apply in_map. apply filter_In. split; assumption. }
    apply (has_from _ (id path)) in Hid.
    unfold p, CanvasManager.getPointFromMouseEvent in Hid. cbn in Hid. congruence.
Qed.

Lemma eraser_hides_hit_paths_witness :
  CanvasManager.tickingDraw
    (CanvasManager.handleMouseDown (mouseAt 1 1)
       (CanvasManager.run attached
          [CanvasManager.InboundAdded [strokeA]; CanvasManager.SetTool eraser])) = true.
Proof.
  pose proof (eraser_hides_hit_paths
                (CanvasManager.run attached
                   [CanvasManager.InboundAdded [strokeA]; CanvasManager.SetTool eraser])
                (mouseAt 1 1)) as H.
  cbv zeta in H. apply H; vm_compute; reflexivity.
Defined.

(** ** Events outside a gesture, and inbound batches *)

(** X16. While no gesture is going on, mouse-moves change nothing, with
    any tool; a mouse-up changes nothing with the pen or the eraser; and with
    the pen or the eraser a touch-move or touch-end that yields a point
    changes nothing either. *)
Theorem events_outside_a_gesture_change_nothing (w : CanvasManager.t)
    (es : list MouseEvent) (e : TouchEvent) :
  idle w ->
  CanvasManager.run w (map CanvasManager.MouseMove es) = w /\
  (CanvasManager.tool w <> hand -> CanvasManager.handleGlobalMouseUp w = w) /\
  (CanvasManager.tool w <> hand ->
   CanvasManager.getPointFromTouchEvent w e false <> None ->
   CanvasManager.handleTouchMove e w = w /\ CanvasManager.handleTouchEnd e w = w).
Proof.
  intros (Hd & He & Hh). split; [|split].
  - induction es as [|e0 es IH]; [reflexivity|].
    cbn [map]. rewrite run_cons. cbn [CanvasManager.step].
    replace (CanvasManager.handleMouseMove e0 w) with w; [exact IH|].
    unfold CanvasManager.handleMouseMove. rewrite Hd, He, Hh.
    now destruct (CanvasManager.tool w).
  - intros Ht. unfold CanvasManager.handleGlobalMouseUp. rewrite Hd, He.
    now destruct (CanvasManager.tool w).
  - intros Ht Hp. open_handlers. rewrite Hd, He.
    destruct (CanvasManager.getPointFromTouchEvent w e false); [|contradiction].
    now destruct (CanvasManager.tool w).
Qed.

Lemma events_outside_a_gesture_change_nothing_witness :
  CanvasManager.run attached
    (map CanvasManager.MouseMove [mouseAt 1 2; mouseAt 3 4]) = attached.
Proof.
  apply (proj1 (events_outside_a_gesture_change_nothing attached
                  [mouseAt 1 2; mouseAt 3 4] (fingerAt 0 0)
                  (conj eq_refl (conj eq_refl eq_refl)))).
Defined.

(** X17. A batch delivered through [addPaths] or [removePathsById] of the
    manager changes the stroke set and nothing else of the drawing: the path
    in progress, the ids being erased, the tool, the scroll offsets and the
    frames drawn stay as they are, and the picture service is not called.
    The redraw flag is up afterwards in every case, also when the batch
    leaves the stroke set as it is. *)
Theorem inbound_batches_touch_only_the_stroke_set (w : CanvasManager.t)
    (P : list Path) (L : list string) (w' : CanvasManager.t) :
  w' = CanvasManager.addPaths P w \/ w' = CanvasManager.removePathsById L w ->
  CanvasManager.drawingPath w' = CanvasManager.drawingPath w /\
  CanvasManager.erasingPathIds w' = CanvasManager.erasingPathIds w /\
  CanvasManager.serviceCalls w' = CanvasManager.serviceCalls w /\
  CanvasManager.tool w' = CanvasManager.tool w /\
  CanvasManager.scrollLeft w' = CanvasManager.scrollLeft w /\
  CanvasManager.scrollTop w' = CanvasManager.scrollTop w /\
  CanvasManager.bufferedScrollLeft w' = CanvasManager.bufferedScrollLeft w /\
  CanvasManager.bufferedScrollTop w' = CanvasManager.bufferedScrollTop w /\
  CanvasManager.canvas w' = CanvasManager.canvas w /\
  CanvasManager.tickingDraw w' = true.
Proof.
  intros H.
  destruct H as [H|H]; subst w';
    unfold CanvasManager.addPaths, CanvasManager.removePathsById, CanvasManager.alloc;
    [destruct (addPaths _ _ _) | destruct (removePathsByIds _ _ _)];
    open_scheduler; cbn; destruct (CanvasManager.tickingDraw w) eqn:T; cbn;
    repeat split; assumption.
Qed.

Lemma inbound_batches_touch_only_the_stroke_set_witness :
  CanvasManager.serviceCalls (CanvasManager.addPaths [strokeA] mouseDrawn) =
    CanvasManager.serviceCalls mouseDrawn /\
  CanvasManager.drawingPath (CanvasManager.addPaths [strokeA] mouseDrawn) =
    CanvasManager.drawingPath mouseDrawn.
Proof.
  destruct (inbound_batches_touch_only_the_stroke_set mouseDrawn [strokeA] []
              (CanvasManager.addPaths [strokeA] mouseDrawn) (or_introl eq_refl))
    as (Hd & _ & Hs & _).
  now split.
Defined.

(** ** Attaching a canvas element *)

(** X18. Attaching the element that is already attached changes nothing.
    Attaching another element makes it the element of the manager, takes its
    context and the corner of its bounding rectangle as the canvas offset,
    and draws one frame when there is a context and none otherwise; the
    stroke set, the gesture state, the scroll offsets and the calls on the
    picture service stay as they are. *)
Theorem setCanvasElement_attaches_once (elem : CanvasElement) (w : CanvasManager.t) :
  CanvasManager.setCanvasElement elem (CanvasManager.setCanvasElement elem w) =
    CanvasManager.setCanvasElement elem w /\
  (CanvasManager.sameElement elem (CanvasManager.canvasElement w) = false ->
   let w' := CanvasManager.setCanvasElement elem w in
   CanvasManager.canvasElement w' = Some elem /\
   CanvasManager.renderingContext w' = context2d elem /\
   CanvasManager.offsetLeft w' = rectLeft elem /\
   CanvasManager.offsetTop w' = rectTop elem /\
   length (CanvasManager.canvas w') =
     (length (CanvasManager.canvas w) + if context2d elem then 1 else 0)%nat /\
   CanvasManager.paths w' = CanvasManager.paths w /\
   CanvasManager.drawingPath w' = CanvasManager.drawingPath w /\
   CanvasManager.erasingPathIds w' = CanvasManager.erasingPathIds w /\
   CanvasManager.scrollLeft w' = CanvasManager.scrollLeft w /\
   CanvasManager.scrollTop w' = CanvasManager.scrollTop w /\
   CanvasManager.serviceCalls w' = CanvasManager.serviceCalls w /\
   CanvasManager.animationFrames w' = CanvasManager.animationFrames w).
Proof.
  assert (A : CanvasManager.sameElement elem (CanvasManager.canvasElement w) = false ->
              CanvasManager.canvasElement (CanvasManager.setCanvasElement elem w) = Some elem).
  { intros H. unfold CanvasManager.setCanvasElement, CanvasManager.handleResize,
      CanvasManager.draw. rewrite H. cbn. now destruct (context2d elem). }
  split.
  - destruct (CanvasManager.sameElement elem (CanvasManager.canvasElement w)) eqn:E.
    + unfold CanvasManager.setCanvasElement. now rewrite E, E.
    + unfold CanvasManager.setCanvasElement at 1. rewrite (A eq_refl).
      unfold CanvasManager.sameElement. now rewrite Nat.eqb_refl.
  - intros H. cbv zeta. split; [now apply A|].
    unfold CanvasManager.setCanvasElement, CanvasManager.handleResize,
      CanvasManager.draw. rewrite H. cbn.
    destruct (context2d elem); cbn; repeat split; try reflexivity;
      rewrite ?length_app; simpl; lia.
Qed.

Lemma setCanvasElement_attaches_once_witness :
  length (CanvasManager.canvas
            (CanvasManager.setCanvasElement theCanvas (CanvasManager.new "p"))) =
  (length (CanvasManager.canvas (CanvasManager.new "p")) +
   if context2d theCanvas then 1 else 0)%nat.
Proof.
  pose proof (proj2 (setCanvasElement_attaches_once theCanvas (CanvasManager.new "p"))
                eq_refl) as H.
  cbv zeta in H. apply H.
Defined.

(** ** Resizing *)

Lemma resizeBurst_pending {number : Type} (sizes : list (number * number))
    (r : Resizing.t number) :
  Resizing.tickingResize r = true ->
  let r' := resizeBurst r sizes in
  Resizing.manager r' = Resizing.manager r /\
  Resizing.dpr r' = Resizing.dpr r /\
  Resizing.width r' = Resizing.width r /\
  Resizing.height r' = Resizing.height r /\
  Resizing.tickingResize r' = true /\
  Resizing.elementWidth r' = Resizing.elementWidth r /\
  Resizing.elementHeight r' = Resizing.elementHeight r /\
  Resizing.timeouts r' = Resizing.timeouts r /\
  (Resizing.rectWidth r', Resizing.rectHeight r') =
    last sizes (Resizing.rectWidth r, Resizing.rectHeight r).
Proof.
  unfold resizeBurst. revert r. induction sizes as [|s sizes IH]; intros r H; cbv zeta.
  - simpl. repeat split; assumption.
  - cbn [fold_left].
    set (r1 := Resizing.windowResized r s).
    assert (F : Resizing.manager r1 = Resizing.manager r /\
                Resizing.dpr r1 = Resizing.dpr r /\
                Resizing.width r1 = Resizing.width r /\
                Resizing.height r1 = Resizing.height r /\
                Resizing.tickingResize r1 = true /\
                Resizing.elementWidth r1 = Resizing.elementWidth r /\
                Resizing.elementHeight r1 = Resizing.elementHeight r /\
                Resizing.timeouts r1 = Resizing.timeouts r /\
                (Resizing.rectWidth r1, Resizing.rectHeight r1) = s).
    { unfold r1, Resizing.windowResized, Resizing.handleWindowResize. cbn.
      rewrite H. cbn. repeat split; try assumption. now destruct s. }
    destruct F as (Fm & Fd & Fw & Fh & Ft & Few & Feh & Fto & Fr).
    destruct (IH r1 Ft) as (Im & Id & Iw & Ih & It & Iew & Ieh & Ito & Ir).
    rewrite Im, Id, Iw, Ih, It, Iew, Ieh, Ito, Ir, Fm, Fd, Fw, Fh, Few, Feh, Fto, Fr.
    repeat split. destruct sizes as [|s1 sizes]; [reflexivity|].
    change (last (s :: s1 :: sizes) (Resizing.rectWidth r, Resizing.rectHeight r))
      with (last (s1 :: sizes) (Resizing.rectWidth r, Resizing.rectHeight r)).
    apply last_of_cons.
Qed.

(** X19. Resize events are debounced.  When no recomputation is pending,
    a burst of one or more resize events sets exactly one timeout, of 300
    ms, and recomputes nothing yet.  When the timeout expires,
    [handleResize] runs once, with the size the bounding rectangle has
    then, that of the last event of the burst: with a canvas element
    attached the width and height of the manager become the product of that
    size and the device pixel ratio, the [width] and [height] attributes of
    the element become what the assignment of these products leaves in
    them, and the manager takes the canvas offset and draws as
    [handleResize] does; without one nothing is recomputed.  Afterwards no
    timeout is pending and the flag is down.  The numbers are of any kind,
    with any product and any conversion to the attribute of the element. *)
Theorem resize_burst_recomputes_once {number : Type}
    (times : number -> number -> number) (toCanvasSize : number -> number)
    (r : Resizing.t number) (sizes : list (number * number)) (s : number * number) :
  Resizing.tickingResize r = false ->
  Resizing.timeouts r = [] ->
  let r1 := resizeBurst r (sizes ++ [s]) in
  let r2 := Resizing.expire times toCanvasSize r1 in
  (Resizing.timeouts r1 = [300] /\
   Resizing.tickingResize r1 = true /\
   Resizing.manager r1 = Resizing.manager r /\
   Resizing.width r1 = Resizing.width r /\
   Resizing.height r1 = Resizing.height r /\
   Resizing.elementWidth r1 = Resizing.elementWidth r /\
   Resizing.elementHeight r1 = Resizing.elementHeight r) /\
  (Resizing.timeouts r2 = [] /\
   Resizing.tickingResize r2 = false /\
   Resizing.manager r2 = CanvasManager.handleResize (Resizing.manager r)) /\
  (CanvasManager.canvasElement (Resizing.manager r) <> None ->
   Resizing.width r2 = times (fst s) (Resizing.dpr r) /\
   Resizing.height r2 = times (snd s) (Resizing.dpr r) /\
   Resizing.elementWidth r2 = toCanvasSize (times (fst s) (Resizing.dpr r)) /\
   Resizing.elementHeight r2 = toCanvasSize (times (snd s) (Resizing.dpr r))) /\
  (CanvasManager.canvasElement (Resizing.manager r) = None ->
   Resizing.width r2 = Resizing.width r /\
   Resizing.height r2 = Resizing.height r /\
   Resizing.elementWidth r2 = Resizing.elementWidth r /\
   Resizing.elementHeight r2 = Resizing.elementHeight r).
Proof.
  intros Ht Hq. cbv zeta.
  assert (B : exists r1, resizeBurst r (sizes ++ [s]) = r1 /\
                Resizing.timeouts r1 = [300] /\
                Resizing.tickingResize r1 = true /\
                Resizing.manager r1 = Resizing.manager r /\
                Resizing.dpr r1 = Resizing.dpr r /\
                Resizing.width r1 = Resizing.width r /\
                Resizing.height r1 = Resizing.height r /\
                Resizing.elementWidth r1 = Resizing.elementWidth r /\
                Resizing.elementHeight r1 = Resizing.elementHeight r /\
                Resizing.rectWidth r1 = fst s /\
                Resizing.rectHeight r1 = snd s).
  { eexists. split; [reflexivity|].
    destruct sizes as [|s0 sizes].
    - unfold resizeBurst, Resizing.windowResized, Resizing.handleWindowResize. cbn.
      rewrite Ht. cbn. rewrite Hq. repeat split.
    - unfold resizeBurst. cbn [app fold_left].
      set (r0 := Resizing.windowResized r s0).
      assert (F : Resizing.manager r0 = Resizing.manager r /\
                  Resizing.dpr r0 = Resizing.dpr r /\
                  Resizing.width r0 = Resizing.width r /\
                  Resizing.height r0 = Resizing.height r /\
                  Resizing.elementWidth r0 = Resizing.elementWidth r /\
                  Resizing.elementHeight r0 = Resizing.elementHeight r /\
                  Resizing.tickingResize r0 = true /\
                  Resizing.timeouts r0 = [300]).
      { unfold r0, Resizing.windowResized, Resizing.handleWindowResize. cbn.
        rewrite Ht. cbn. rewrite Hq. repeat split. }
      destruct F as (Fm & Fd & Fw & Fh & Few & Feh & Ft & Fto).
      destruct (resizeBurst_pending (sizes ++ [s]) r0 Ft)
        as (Im & Id & Iw & Ih & It & Iew & Ieh & Ito & Ir).
      unfold resizeBurst in *. rewrite last_last in Ir.
      rewrite Im, Id, Iw, Ih, It, Iew, Ieh, Ito, Fm, Fd, Fw, Fh, Few, Feh, Fto.
      repeat split; [exact (f_equal fst Ir) | exact (f_equal snd Ir)]. }
  destruct B as (r1 & -> & Bto & Bt & Bm & Bd & Bw & Bh & Bew & Beh & Brw & Brh).
  split; [now repeat split|].
  unfold Resizing.expire, Resizing.timeoutCallback, Resizing.handleResize,
    CanvasManager.handleResize.
  rewrite Bto. cbn. rewrite Bm.
  destruct (CanvasManager.canvasElement (Resizing.manager r)) as [ce|]; cbn.
  - rewrite Brw, Brh, Bd. repeat split; try reflexivity; intros; discriminate.
  - rewrite ?Bm, ?Bw, ?Bh, ?Bew, ?Beh. repeat split; try reflexivity; intros; congruence.
Qed.

Lemma resize_burst_recomputes_once_witness :
  Resizing.elementWidth
    (Resizing.expire Z.mul (Z.max 0)
       (resizeBurst
          {| Resizing.manager := attached; Resizing.dpr := 2;
             Resizing.width := 0; Resizing.height := 0;
             Resizing.tickingResize := false;
             Resizing.elementWidth := 0; Resizing.elementHeight := 0;
             Resizing.rectWidth := 0; Resizing.rectHeight := 0;
             Resizing.timeouts := [] |}
          ([(800, 600); (640, 480)] ++ [(320, 200)]))) =
  Z.max 0
    (fst (320, 200) *
     Resizing.dpr
       {| Resizing.manager := attached; Resizing.dpr := 2;
          Resizing.width := 0; Resizing.height := 0;
          Resizing.tickingResize := false;
          Resizing.elementWidth := 0; Resizing.elementHeight := 0;
          Resizing.rectWidth := 0; Resizing.rectHeight := 0;
          Resizing.timeouts := [] |}).
Proof.
  pose proof (resize_burst_recomputes_once Z.mul (Z.max 0)
                {| Resizing.manager := attached; Resizing.dpr := 2;
                   Resizing.width := 0; Resizing.height := 0;
                   Resizing.tickingResize := false;
                   Resizing.elementWidth := 0; Resizing.elementHeight := 0;
                   Resizing.rectWidth := 0; Resizing.rectHeight := 0;
                   Resizing.timeouts := [] |}
                [(800, 600); (640, 480)] (320, 200) eq_refl eq_refl) as H.
  cbv zeta in H. destruct H as (_ & _ & H & _).
  apply H. vm_compute. discriminate.
Defined.

(** ** The drawing page *)

Lemma dropTrailing_empty (s : string) :
  DrawingPage.dropTrailing s = EmptyString <-> allWhiteSpace s = true.
Proof.
  unfold allWhiteSpace. induction s as [|c s IH]; simpl; [tauto|].
  destruct (DrawingPage.dropTrailing s) eqn:E.
  - destruct (DrawingPage.isWhiteSpace c); simpl; [tauto|].
    split; discriminate.
  - split; [discriminate|]. intros H. apply andb_true_iff in H.
    destruct H as [_ H]. apply IH in H. discriminate H.
Qed.

Lemma dropTrailing_ends (s : string) :
  endsWithWhiteSpace (DrawingPage.dropTrailing s) = false.
Proof.
  induction s as [|c s IH]; simpl; [reflexivity|].
  destruct (DrawingPage.dropTrailing s) eqn:E.
  - destruct (DrawingPage.isWhiteSpace c) eqn:W; simpl; [reflexivity | exact W].
  - exact IH.
Qed.

Lemma dropTrailing_fixed (s : string) :
  endsWithWhiteSpace s = false -> DrawingPage.dropTrailing s = s.
Proof.
  induction s as [|c s IH]; simpl; [reflexivity|].
  destruct s as [|d s].
  - intros W. simpl. now rewrite W.
  - intros H. rewrite (IH H). reflexivity.
Qed.

Lemma dropTrailing_starts (s : string) :
  startsWithWhiteSpace s = false ->
  startsWithWhiteSpace (DrawingPage.dropTrailing s) = false.
Proof.
  destruct s as [|c s]; simpl; [reflexivity|]. intros W.
  destruct (DrawingPage.dropTrailing s); [rewrite W|]; simpl; auto.
Qed.

Lemma dropLeading_starts (s : string) :
  startsWithWhiteSpace (DrawingPage.dropLeading s) = false.
Proof.
  induction s as [|c s IH]; simpl; [reflexivity|].
  destruct (DrawingPage.isWhiteSpace c) eqn:W; [exact IH | simpl; exact W].
Qed.

Lemma dropLeading_fixed (s : string) :
  startsWithWhiteSpace s = false -> DrawingPage.dropLeading s = s.
Proof. destruct s as [|c s]; simpl; [reflexivity|]. now intros ->. Qed.

Lemma dropLeading_white (a s : string) :
  allWhiteSpace a = true ->
  DrawingPage.dropLeading (a ++ s)%string = DrawingPage.dropLeading s.
Proof.
  unfold allWhiteSpace. induction a as [|c a IH]; simpl; [reflexivity|].
  intros H. apply andb_true_iff in H. destruct H as [W H]. rewrite W. now apply IH.
Qed.

Lemma dropTrailing_white (m b : string) :
  allWhiteSpace b = true ->
  m <> EmptyString ->
  endsWithWhiteSpace m = false ->
  DrawingPage.dropTrailing (m ++ b)%string = m.
Proof.
  intros Hb. induction m as [|c m IH]; [congruence|]. intros _ He.
  destruct m as [|d m].
  - simpl in *. rewrite (proj2 (dropTrailing_empty b) Hb). now rewrite He.
  - change (DrawingPage.dropTrailing (String c (String d m ++ b)%string) = String c (String d m)).
    cbn [DrawingPage.dropTrailing]. rewrite IH; [reflexivity | discriminate | exact He].
Qed.

Lemma strip_twice (s : string) : DrawingPage.strip (DrawingPage.strip s) = DrawingPage.strip s.
Proof.
  unfold DrawingPage.strip.
  rewrite (dropLeading_fixed (DrawingPage.dropTrailing (DrawingPage.dropLeading s))).
  - apply dropTrailing_fixed, dropTrailing_ends.
  - apply dropTrailing_starts, dropLeading_starts.
Qed.

(** X20. [normalizeTitle] yields no title for an undefined title and for a
    title of white space only, and otherwise the title without its leading
    and its trailing white space, the white space inside kept: the result is
    never the empty string and neither starts nor ends with white space, and
    normalizing it again gives it back. *)
Theorem normalizeTitle_strips_both_ends (title : option string) (a m b : string) :
  DrawingPage.normalizeTitle None = None /\
  (allWhiteSpace a = true -> DrawingPage.normalizeTitle (Some a) = None) /\
  (allWhiteSpace a = true -> allWhiteSpace b = true ->
   m <> EmptyString -> startsWithWhiteSpace m = false -> endsWithWhiteSpace m = false ->
   DrawingPage.normalizeTitle (Some (a ++ m ++ b)%string) = Some m) /\
  (forall s, DrawingPage.normalizeTitle title = Some s ->
     s <> EmptyString /\ startsWithWhiteSpace s = false /\ endsWithWhiteSpace s = false) /\
  DrawingPage.normalizeTitle (DrawingPage.normalizeTitle title) =
    DrawingPage.normalizeTitle title.
Proof.
  split; [reflexivity|]. split; [|split; [|split]].
  - intros Ha. unfold DrawingPage.normalizeTitle, DrawingPage.strip.
    replace a with (a ++ "")%string by (clear; induction a; simpl; congruence).
    now rewrite (dropLeading_white a "" Ha).
  - intros Ha Hb Hm Hs He. unfold DrawingPage.normalizeTitle, DrawingPage.strip.
    rewrite (dropLeading_white a _ Ha).
    rewrite (dropLeading_fixed (m ++ b)%string) by (destruct m; [congruence | exact Hs]).
    rewrite (dropTrailing_white m b Hb Hm He).
    destruct (String.eqb_spec m ""); [contradiction | reflexivity].
  - intros s. unfold DrawingPage.normalizeTitle. destruct title as [t|]; [|discriminate].
    destruct (String.eqb_spec (DrawingPage.strip t) "") as [E|N]; [discriminate|].
    intros H. inversion H. subst s. split; [assumption|].
    unfold DrawingPage.strip.
    split; [apply dropTrailing_starts, dropLeading_starts | apply dropTrailing_ends].
  - unfold DrawingPage.normalizeTitle. destruct title as [t|]; [|reflexivity].
    destruct (String.eqb_spec (DrawingPage.strip t) "") as [E|N]; [reflexivity|].
    rewrite strip_twice.
    destruct (String.eqb_spec (DrawingPage.strip t) ""); [contradiction | reflexivity].
Qed.

Lemma normalizeTitle_strips_both_ends_witness :
  DrawingPage.normalizeTitle (Some ("  " ++ "my  board" ++ " ")%string) =
  Some "my  board"%string.
Proof.
  apply (proj1 (proj2 (proj2
    (normalizeTitle_strips_both_ends None "  " "my  board" " "))));
    try reflexivity.
  discriminate.
Defined.

Lemma pictureIdPattern_test_true (s : string) :
  DrawingPage.pictureIdPattern_test s = true ->
  String.length s = 32%nat /\
  forall c, In c (list_ascii_of_string s) -> DrawingPage.isLowerHexDigit c = true.
Proof.
  unfold DrawingPage.pictureIdPattern_test. intros H.
  apply andb_true_iff in H. destruct H as [L F].
  split; [now apply Nat.eqb_eq|]. now apply forallb_forall.
Qed.

(** X21. [useValidatedParams] leaves in its ref the id of the call, a
    missing parameter counting as the empty id.  It returns the id when the
    ref held the same id before the call, without testing it, and otherwise
    only when the id is made of exactly 32 characters among [0-9a-f]; an
    empty or ill-formed id that the ref did not hold ends in
    [InvalidRouteError].  So from a fresh ref only well-formed ids are
    returned, and a second call with the same parameter returns the id
    whatever the first call ended in. *)
Theorem useValidatedParams_tests_new_ids (prev param : option string) :
  let pictureId := match param with Some s => s | None => EmptyString end in
  fst (DrawingPage.useValidatedParams prev param) = Some pictureId /\
  (prev = Some pictureId ->
   snd (DrawingPage.useValidatedParams prev param) = DrawingPage.Returned pictureId) /\
  (prev <> Some pictureId ->
   (DrawingPage.pictureIdPattern_test pictureId = true ->
    snd (DrawingPage.useValidatedParams prev param) = DrawingPage.Returned pictureId) /\
   (DrawingPage.pictureIdPattern_test pictureId = false ->
    snd (DrawingPage.useValidatedParams prev param) = DrawingPage.InvalidRouteError)) /\
  (forall i, snd (DrawingPage.useValidatedParams None param) = DrawingPage.Returned i ->
     String.length i = 32%nat /\
     forall c, In c (list_ascii_of_string i) -> DrawingPage.isLowerHexDigit c = true) /\
  snd (DrawingPage.useValidatedParams
         (fst (DrawingPage.useValidatedParams prev param)) param) =
    DrawingPage.Returned pictureId.
Proof.
  cbv zeta. set (pid := match param with Some s => s | None => EmptyString end).
  assert (S : DrawingPage.sameString prev pid = true <-> prev = Some pid).
  { destruct prev as [s|]; simpl; [|split; discriminate].
    rewrite String.eqb_eq. split; congruence. }
  assert (E : pid = EmptyString -> DrawingPage.pictureIdPattern_test pid = false).
  { now intros ->. }
  assert (F : fst (DrawingPage.useValidatedParams prev param) = Some pid).
  { unfold DrawingPage.useValidatedParams. fold pid.
    destruct (DrawingPage.sameString prev pid) eqn:Q; simpl.
    - now apply S.
    - now destruct (_ || _). }
  split; [exact F|]. split; [|split; [|split]].
  - intros H. unfold DrawingPage.useValidatedParams. fold pid.
    now rewrite (proj2 S H).
  - intros H. assert (Q : DrawingPage.sameString prev pid = false).
    { destruct (DrawingPage.sameString prev pid) eqn:Q; [|reflexivity].
      exfalso. apply H, S. reflexivity. }
    unfold DrawingPage.useValidatedParams. fold pid. rewrite Q. simpl.
    split; intros T; rewrite T; simpl.
    + destruct (String.eqb_spec pid ""); [|reflexivity].
      rewrite E in T by assumption. discriminate.
    + now rewrite orb_true_r.
  - intros i. unfold DrawingPage.useValidatedParams. fold pid. simpl.
    destruct (String.eqb pid "" || negb (DrawingPage.pictureIdPattern_test pid)) eqn:T;
      simpl; [discriminate|].
    intros H. inversion H. subst i. apply pictureIdPattern_test_true.
    apply orb_false_iff in T. destruct T as [_ T]. now apply negb_false_iff in T.
  - rewrite F. unfold DrawingPage.useValidatedParams. fold pid.
    simpl. now rewrite String.eqb_refl.
Qed.

Lemma useValidatedParams_tests_new_ids_witness :
  snd (DrawingPage.useValidatedParams (Some "zz"%string) (Some "zz"%string)) =
    DrawingPage.Returned "zz" /\
  snd (DrawingPage.useValidatedParams None (Some "zz"%string)) =
    DrawingPage.InvalidRouteError /\
  snd (DrawingPage.useValidatedParams None
         (Some "0123456789abcdef0123456789abcdef"%string)) =
    DrawingPage.Returned "0123456789abcdef0123456789abcdef".
Proof.
  split; [|split].
  - pose proof (useValidatedParams_tests_new_ids (Some "zz"%string) (Some "zz"%string)) as H.
    cbv zeta in H. now apply H.
  - pose proof (useValidatedParams_tests_new_ids None (Some "zz"%string)) as H.
    cbv zeta in H. destruct H as (_ & _ & H & _).
    apply H; [discriminate | reflexivity].
  - pose proof (useValidatedParams_tests_new_ids None
                  (Some "0123456789abcdef0123456789abcdef"%string)) as H.
    cbv zeta in H. destruct H as (_ & _ & H & _).
    apply H; [discriminate | reflexivity].
Defined.

(** ** Strokes on the canvas *)

Lemma drawPath_fold (l : list Point) (sl st d : Z) (ctx : list CanvasCommand) :
  fold_left
    (fun (s : bool * list CanvasCommand) (p : Point) =>
       let '(first, ctx) := s in
       let realX := (x p - sl) * d in
       let realY := (y p - st) * d in
       if first then (false, ctx ++ [MoveTo realX realY])
       else (first, ctx ++ [LineTo realX realY]))
    l (false, ctx) =
  (false, ctx ++ map (fun p => LineTo ((x p - sl) * d) ((y p - st) * d)) l).
Proof.
  revert ctx. induction l as [|p l IH]; intros ctx; simpl.
  - now rewrite app_nil_r.
  - rewrite IH. now rewrite <- app_assoc.
Qed.

(** X22. [drawPath] makes no call for a path without points.  For a path
    with points it sets the line width to the width of the path times the
    device pixel ratio and the stroke style to its colour, begins a path,
    moves to the first point, draws a line to each further point and strokes
    once; each point is taken with the scroll offset subtracted and the
    result multiplied by the ratio. *)
Theorem drawPath_strokes_polyline (path : Path) (p : Point) (ps : list Point)
    (sl st d : Z) :
  (points path = [] -> drawPath path sl st d = []) /\
  (points path = p :: ps ->
   drawPath path sl st d =
     [SetLineWidth (width path * d); SetStrokeStyle (color path); BeginPath;
      MoveTo ((x p - sl) * d) ((y p - st) * d)] ++
     map (fun q => LineTo ((x q - sl) * d) ((y q - st) * d)) ps ++ [Stroke]).
Proof.
  split.
  - intros E. unfold drawPath. now rewrite E.
  - intros E. unfold drawPath. rewrite E. cbn [length Nat.eqb fold_left].
    rewrite drawPath_fold. cbn. reflexivity.
Qed.

Lemma drawPath_strokes_polyline_witness :
  drawPath strokeOfTwoPoints 7 9 2 =
  [SetLineWidth (width strokeOfTwoPoints * 2); SetStrokeStyle (color strokeOfTwoPoints);
   BeginPath; MoveTo ((x {| x := 0; y := 0 |} - 7) * 2) ((y {| x := 0; y := 0 |} - 9) * 2)] ++
  map (fun q => LineTo ((x q - 7) * 2) ((y q - 9) * 2)) [{| x := 3; y := 4 |}] ++ [Stroke].
Proof.
  apply (proj2 (drawPath_strokes_polyline strokeOfTwoPoints
                  {| x := 0; y := 0 |} [{| x := 3; y := 4 |}] 7 9 2)).
  reflexivity.
Defined.

(** ** Event listeners *)

Lemma Listener_eqb_eq (a b : Listener) : Listener_eqb a b = true <-> a = b.
Proof.
  unfold Listener_eqb. rewrite !andb_true_iff, String.eqb_eq, Nat.eqb_eq.
  destruct a as [ta ya ha], b as [tb yb hb]; simpl. split.
  - intros [[Ht Hy] Hh]. subst. f_equal.
    destruct ta, tb; simpl in Ht; try discriminate; try reflexivity.
    apply Nat.eqb_eq in Ht. now subst.
  - intros E. inversion E. subst. repeat split.
    destruct tb; simpl; auto using Nat.eqb_refl.
Qed.

Lemma listenAll_registers (specs : list (Target * string)) (r : Listening.t) :
  (forall k, In k (Listening.listeners r) -> (handler k < Listening.bound r)%nat) ->
  Listening.listenAll specs r =
  (listenersFor specs (Listening.bound r),
   {| Listening.manager := Listening.manager r;
      Listening.canvasCleanUpHandler := Listening.canvasCleanUpHandler r;
      Listening.listeners :=
        Listening.listeners r ++ listenersFor specs (Listening.bound r);
      Listening.bound := (Listening.bound r + length specs)%nat |}).
Proof.
  revert r. induction specs as [|[tg ty] specs IH]; intros r H.
  - simpl. rewrite app_nil_r, Nat.add_0_r. now destruct r.
  - cbn [Listening.listenAll listenersFor length].
    unfold Listening.bind, Listening.listen, Listening.addEventListener. cbn.
    assert (F : existsb
                  (Listener_eqb {| target := tg; eventType := ty;
                                   handler := Listening.bound r |})
                  (Listening.listeners r) = false).
    { apply not_true_is_false. intros E. apply existsb_exists in E.
      destruct E as [k [Hk E]]. apply Listener_eqb_eq in E. subst k.
      apply H in Hk. simpl in Hk. lia. }
    rewrite F. rewrite IH.
    + cbn. rewrite <- app_assoc. cbn. do 3 f_equal. lia.
    + cbn. intros k Hk. apply in_app_iff in Hk. destruct Hk as [Hk|[<-|[]]].
      * apply H in Hk. lia.
      * simpl. lia.
Qed.

Lemma unsubscribeAll_removes (us : list Listener) (r : Listening.t) :
  Listening.unsubscribeAll us r =
  {| Listening.manager := Listening.manager r;
     Listening.canvasCleanUpHandler := Listening.canvasCleanUpHandler r;
     Listening.listeners :=
       filter (fun k => negb (existsb (fun u => Listener_eqb u k) us))
         (Listening.listeners r);
     Listening.bound := Listening.bound r |}.
Proof.
  unfold Listening.unsubscribeAll. revert r.
  induction us as [|u us IH]; intros r; simpl.
  - rewrite filter_all by reflexivity. now destruct r.
  - rewrite IH. unfold Listening.removeEventListener. cbn. f_equal.
    rewrite filter_both. apply filter_ext. intros k. now rewrite negb_orb.
Qed.

Lemma listenersFor_handlers (specs : list (Target * string)) (h : nat) (k : Listener) :
  In k (listenersFor specs h) -> (h <= handler k < h + length specs)%nat.
Proof.
  revert h. induction specs as [|[tg ty] specs IH]; intros h; simpl; [tauto|].
  intros [<-|H]; [simpl; lia|]. apply IH in H. lia.
Qed.

Lemma listenersFor_shape (specs : list (Target * string)) (h : nat) :
  map (fun l => (target l, eventType l)) (listenersFor specs h) = specs /\
  NoDup (map handler (listenersFor specs h)).
Proof.
  revert h. induction specs as [|[tg ty] specs IH]; intros h; simpl.
  - split; [reflexivity | constructor].
  - destruct (IH (S h)) as [E N]. split; [now rewrite E|].
    constructor; [|assumption]. intros H. apply in_map_iff in H.
    destruct H as [k [Ek Hk]]. apply listenersFor_handlers in Hk. lia.
Qed.

(** The listeners of a manager are those of its clean-up handler, the ones
    registered for the element it is attached to. *)
Lemma attachAll_keeps (pictureId : string) (elems : list CanvasElement) :
  let r := attachAll (Listening.new pictureId) elems in
  (forall k, In k (Listening.listeners r) -> (handler k < Listening.bound r)%nat) /\
  match CanvasManager.canvasElement (Listening.manager r) with
  | None =>
      elems = [] /\ Listening.listeners r = [] /\
      Listening.canvasCleanUpHandler r = None
  | Some ce =>
      elementRef ce = elementRef (last elems ce) /\
      Listening.canvasCleanUpHandler r = Some (Listening.listeners r) /\
      exists h, Listening.listeners r = listenersFor (listenedTo (elementRef ce)) h
  end.
Proof.
  unfold attachAll. induction elems as [|e elems IH] using rev_ind; cbv zeta.
  - simpl. split; [intros k []|]. now repeat split.
  - rewrite fold_left_app. cbn [fold_left].
    cbv zeta in IH. destruct IH as [Hb Hc].
    set (r := fold_left (fun r e => Listening.setCanvasElement e r) elems
                (Listening.new pictureId)) in *.
    unfold Listening.setCanvasElement.
    destruct (CanvasManager.sameElement e
                (CanvasManager.canvasElement (Listening.manager r))) eqn:S.
    + split; [exact Hb|].
      destruct (CanvasManager.canvasElement (Listening.manager r)) as [ce|];
        [|discriminate S].
      destruct Hc as (_ & Hu & Hl). rewrite last_last.
      simpl in S. apply Nat.eqb_eq in S. now repeat split.
    + assert (C : exists r0,
                 match Listening.canvasCleanUpHandler r with
                 | Some us => Listening.unsubscribeAll us r
                 | None => r
                 end = r0 /\
                 Listening.listeners r0 = [] /\
                 Listening.manager r0 = Listening.manager r /\
                 Listening.bound r0 = Listening.bound r).
      { eexists. split; [reflexivity|].
        destruct (CanvasManager.canvasElement (Listening.manager r)) as [ce|].
        - destruct Hc as (_ & Hu & _). rewrite Hu, unsubscribeAll_removes. cbn.
          repeat split. apply filter_none. intros k Hk.
          apply negb_false_iff. apply existsb_exists. exists k.
          split; [assumption | now apply Listener_eqb_eq].
        - destruct Hc as (_ & Hl & Hu). rewrite Hu. now repeat split. }
      destruct C as (r0 & -> & Cl & Cm & Cb).
      rewrite listenAll_registers by (cbn; rewrite Cl; intros k []).
      cbn. rewrite Cl, Cm. cbn.
      assert (A : CanvasManager.canvasElement
                    (CanvasManager.setCanvasElement e (Listening.manager r)) = Some e).
      { unfold CanvasManager.setCanvasElement, CanvasManager.handleResize,
          CanvasManager.draw. rewrite S. cbn. now destruct (context2d e). }
      rewrite A. split.
      * intros k Hk.
        apply (listenersFor_handlers (listenedTo (elementRef e))) in Hk.
        simpl in Hk. lia.
      * rewrite last_last. repeat split. now exists (Listening.bound r0).
Qed.

(** X23. However many canvas elements a manager is attached to, one after
    the other, it ends with exactly the eight listeners of its last
    attachment: on the window for resize, on the body for mouse-up, and on
    the element it is attached to, the one given last, for the wheel, the
    two other mouse events and the three touch events.  No listener is
    registered twice and none stays on an element attached earlier; the
    clean-up handler holds exactly the listeners registered. *)
Theorem attachments_do_not_leak_listeners (pictureId : string)
    (elems : list CanvasElement) (e : CanvasElement) :
  let r := attachAll (Listening.new pictureId) (elems ++ [e]) in
  map (fun l => (target l, eventType l)) (Listening.listeners r) =
    listenedTo (elementRef e) /\
  length (Listening.listeners r) = 8%nat /\
  NoDup (map handler (Listening.listeners r)) /\
  Listening.canvasCleanUpHandler r = Some (Listening.listeners r) /\
  (exists ce, CanvasManager.canvasElement (Listening.manager r) = Some ce /\
              elementRef ce = elementRef e).
Proof.
  cbv zeta. pose proof (attachAll_keeps pictureId (elems ++ [e])) as H.
  cbv zeta in H. destruct H as [_ H].
  destruct (CanvasManager.canvasElement
              (Listening.manager (attachAll (Listening.new pictureId) (elems ++ [e]))))
    as [ce|].
  - destruct H as (Hr & Hu & h & Hl). rewrite last_last in Hr.
    destruct (listenersFor_shape (listenedTo (elementRef ce)) h) as [Hs Hn].
    rewrite Hu, Hl, Hs, <- Hr. repeat split; try assumption.
    now exists ce.
  - destruct H as (H & _). now destruct elems.
Qed.

Lemma erase_distributes_witness :
  erase ([strokeA] ++ {| id := "e"; color := "#000"; width := 3; points := [] |} :: [])
        {| x := 1; y := 1 |} =
  erase ([strokeA] ++ []) {| x := 1; y := 1 |}.
Proof.
  apply (proj1 (proj2 (proj2 (erase_distributes [strokeA] [] {| x := 1; y := 1 |})))).
  reflexivity.
Defined.
